(** * Frontend-Architectures: the monolithic template's store, its form
      manager, and the static file servers of the demos

    A shallow embedding of
    - [Monolithic/src/store/state.js] (class [AppState]),
    - the form component (class [FormManager]),
    - the development server of the monolithic template
      ([DevServer.handleRequest], [DevServer.findAvailablePort]) and the
      MVC demo's [server.js],
    - the notification component (class [NotificationManager]) and the
      global notification functions of [components/notification.js],
    - the counter of the MVC demo ([app.js]).

    JavaScript objects used as maps are finite maps, arrays are lists,
    [this] is an explicit world that every method threads through, and a
    [throw] is the [Throw] outcome of a small state-and-exception monad. *)

From Stdlib Require Import ZArith Ascii String.
From stdpp Require Import gmap strings list fin_maps pretty.

Set Warnings "-register-all".

Local Open Scope Z_scope.

(** ** JavaScript values *)

Module JS.

(** The values that travel through the store, the persisted JSON and the
    [throw] statements.  Numbers are exact: [VNum] is an integer-valued
    number and [VDec m k] the non-integer decimal [m / 10^k]; the binary
    rounding of doubles is not modelled.  A string is a sequence of code
    units, one character each (the code units below 256). *)
Inductive value :=
  | VUndefined
  | VNull
  | VBool (b : bool)
  | VNum (n : Z)
  | VDec (m : Z) (k : positive)
  | VStr (s : string)
  | VArr (xs : list value)
  | VObj (fields : list (string * value)).

(** ToBoolean: what [if (v)], [!v] and [v || w] test. *)
Definition truthy (v : value) : bool :=
  match v with
  | VUndefined | VNull => false
  | VBool b => b
  | VNum n => negb (n =? 0)
  | VDec _ _ => true
  | VStr s => negb (String.eqb s EmptyString)
  | VArr _ | VObj _ => true
  end.

(** [a || b] *)
Definition or_else (a b : value) : value := if truthy a then a else b.

Definition is_undefined (v : value) : bool :=
  match v with VUndefined => true | _ => false end.

(** [o[k]] among the own properties of an object, which are kept in
    insertion order with unique keys. *)
Fixpoint obj_get (k : string) (fields : list (string * value)) : value :=
  match fields with
  | [] => VUndefined
  | (k', v) :: rest => if String.eqb k' k then v else obj_get k rest
  end.

(** The element of an array (or the character of a string) named by a
    canonical index key such as ["0"] or ["12"]. *)
Fixpoint index_get {A : Type} (k : string) (i : nat) (xs : list A) : option A :=
  match xs with
  | [] => None
  | x :: rest => if String.eqb (pretty i) k then Some x else index_get k (S i) rest
  end.

Definition chars (s : string) : list value :=
  (λ c, VStr (String c EmptyString)) <$> list_ascii_of_string s.

(** Errors raised by the language itself. *)
Definition TypeError (message : string) : value :=
  VObj [("name", VStr "TypeError"); ("message", VStr message)].

Definition SyntaxError (message : string) : value :=
  VObj [("name", VStr "SyntaxError"); ("message", VStr message)].

(** [new Error(message)] *)
Definition Error (message : string) : value :=
  VObj [("name", VStr "Error"); ("message", VStr message)].

(** The result of evaluating an expression or running a statement. *)
Inductive outcome (A : Type) :=
  | Normal (a : A)
  | Throw (e : value).
Global Arguments Normal {A} a.
Global Arguments Throw {A} e.

(** [v[k]] for a string key.  Reading a property of [undefined] or [null]
    throws; the other primitives have no own property but the length and
    the characters of a string.  Properties inherited from the prototypes
    are not modelled. *)
Definition get_prop (v : value) (k : string) : outcome value :=
  match v with
  | VUndefined | VNull =>
      Throw (TypeError ("Cannot read properties of " +:+
                        (if is_undefined v then "undefined" else "null") +:+
                        " (reading '" +:+ k +:+ "')"))
  | VObj fields => Normal (obj_get k fields)
  | VArr xs =>
      if String.eqb k "length" then Normal (VNum (Z.of_nat (List.length xs)))
      else Normal (default VUndefined (index_get k 0 xs))
  | VStr s =>
      if String.eqb k "length" then Normal (VNum (Z.of_nat (String.length s)))
      else Normal (default VUndefined (index_get k 0 (chars s)))
  | VBool _ | VNum _ | VDec _ _ => Normal VUndefined
  end.

(** [\s] of regular expressions and the characters [trim] removes, among
    the code units below 256: TAB, LF, VT, FF, CR, SPACE and NBSP. *)
Definition is_space (c : ascii) : bool :=
  let n := N_of_ascii c in
  ((9 <=? n) && (n <=? 13) || (n =? 32) || (n =? 160))%N.

Fixpoint trim_start (s : string) : string :=
  match s with
  | String c rest => if is_space c then trim_start rest else s
  | EmptyString => EmptyString
  end.

Fixpoint all_space (s : string) : bool :=
  match s with
  | String c rest => is_space c && all_space rest
  | EmptyString => true
  end.

Fixpoint trim_end (s : string) : string :=
  match s with
  | String c rest => if all_space s then EmptyString else String c (trim_end rest)
  | EmptyString => EmptyString
  end.

(** [s.trim()] *)
Definition trim (s : string) : string := trim_end (trim_start s).

(** *** The state-and-exception monad

    [eff W A] is a computation over a world [W] that returns an [A] or
    throws; the world changes made before a [throw] stay. *)
Definition eff (W A : Type) : Type := W → outcome A * W.

Global Instance eff_ret {W} : MRet (eff W) := λ A a w, (Normal a, w).

Global Instance eff_bind {W} : MBind (eff W) := λ A B f m w,
  match m w with
  | (Normal a, w') => f a w'
  | (Throw e, w') => (Throw e, w')
  end.

Definition get {W} : eff W W := λ w, (Normal w, w).
Definition gets {W A} (f : W → A) : eff W A := λ w, (Normal (f w), w).
Definition modify {W} (f : W → W) : eff W unit := λ w, (Normal tt, f w).
Definition throw {W A} (e : value) : eff W A := λ w, (Throw e, w).

(** An expression that may throw, evaluated inside a method. *)
Definition lift {W A} (r : outcome A) : eff W A := λ w, (r, w).

(** [try { body } catch (error) { handler }] *)
Definition try_catch {W A} (body : eff W A) (handler : value → eff W A) : eff W A :=
  λ w, match body w with
       | (Throw e, w') => handler e w'
       | (Normal a, w') => (Normal a, w')
       end.

(** [try { body } finally { cleanup }]: the cleanup runs on every exit, and
    the outcome of the body stands unless the cleanup itself throws. *)
Definition try_finally {W A} (body : eff W A) (cleanup : eff W unit) : eff W A :=
  λ w, let (r, w') := body w in
       match cleanup w' with
       | (Normal _, w'') => (r, w'')
       | (Throw e, w'') => (Throw e, w'')
       end.

(** [xs.forEach(f)] *)
Fixpoint forEach {W A} (xs : list A) (f : A → eff W unit) : eff W unit :=
  match xs with
  | [] => mret tt
  | x :: rest => f x;; forEach rest f
  end.

(** [xs.filter(p)] for a predicate that may throw. *)
Fixpoint filter_outcome {A} (p : A → outcome bool) (xs : list A) : outcome (list A) :=
  match xs with
  | [] => Normal []
  | x :: rest =>
      match p x with
      | Throw e => Throw e
      | Normal keep =>
          match filter_outcome p rest with
          | Throw e => Throw e
          | Normal kept => Normal (if keep then x :: kept else kept)
          end
      end
  end.

(** The browser console: the level and the text of each entry (the objects
    printed after the text are left out). *)
Inductive level := LogLevel | WarnLevel | ErrorLevel.

Definition console_entry : Type := level * string.

End JS.

Export JS.

(** ** [JSON.parse]

    The JSON grammar of ECMA-404 by recursive descent.  The three mutually
    recursive parsers spend one unit of fuel per call; [JSON_parse] gives
    them more than they can use ([parse_value_fuel]). *)

Module Json.

Local Open Scope char_scope.

Definition quote : ascii := "034".
Definition backslash : ascii := "092".

(** JSON whitespace: space, TAB, LF, CR. *)
Definition is_ws (c : ascii) : bool :=
  (c =? " ") || (c =? "009") || (c =? "010") || (c =? "013").

Fixpoint skip_ws (s : string) : string :=
  match s with
  | String c rest => if is_ws c then skip_ws rest else s
  | EmptyString => EmptyString
  end.

Definition is_digit (c : ascii) : bool :=
  let n := N_of_ascii c in ((48 <=? n) && (n <=? 57))%N.

Definition digit_of (c : ascii) : Z := Z.of_N (N_of_ascii c) - 48.

(** The value of a hexadecimal digit. *)
Definition hex_of (c : ascii) : option N :=
  let n := N_of_ascii c in
  if ((48 <=? n) && (n <=? 57))%N then Some (n - 48)%N
  else if ((65 <=? n) && (n <=? 70))%N then Some (n - 55)%N
  else if ((97 <=? n) && (n <=? 102))%N then Some (n - 87)%N
  else None.

(** Reads a run of digits: the number read so far, how many digits were
    read, and the rest of the text. *)
Fixpoint read_digits (acc : Z) (count : nat) (s : string) : Z * nat * string :=
  match s with
  | String c rest =>
      if is_digit c then read_digits (10 * acc + digit_of c) (S count) rest
      else (acc, count, s)
  | EmptyString => (acc, count, s)
  end.

(** [m / 10^k] with the trailing zeros of the fraction removed. *)
Fixpoint decimal (m : Z) (k : nat) : value :=
  match k with
  | O => VNum m
  | S k' => if (m mod 10 =? 0)%Z then decimal (m / 10) k' else VDec m (Pos.of_nat k)
  end.

(** The number [m * 10^(e - k)]. *)
Definition number (negative : bool) (m : Z) (k : nat) (e : Z) : value :=
  let m := if negative then (- m)%Z else m in
  let shift := (e - Z.of_nat k)%Z in
  if (0 <=? shift)%Z then VNum (m * 10 ^ shift)
  else decimal m (Z.to_nat (- shift)).

(** an optional sign *)
Definition parse_sign (s : string) : bool * string :=
  match s with
  | String c rest => if c =? "-" then (true, rest) else (false, s)
  | EmptyString => (false, s)
  end.

(** exponent part: [e] or [E], an optional sign, at least one digit *)
Definition parse_exponent (s : string) : option (Z * string) :=
  match s with
  | String c rest =>
      if (c =? "e") || (c =? "E") then
        let '(negative, rest) :=
          match rest with
          | String c' rest' =>
              if c' =? "-" then (true, rest')
              else if c' =? "+" then (false, rest')
              else (false, rest)
          | EmptyString => (false, rest)
          end in
        let '(e, count, rest) := read_digits 0 0 rest in
        match count with
        | O => None
        | S _ => Some (if negative then (- e)%Z else e, rest)
        end
      else Some (0%Z, s)
  | EmptyString => Some (0%Z, s)
  end.

(** fraction part: a dot and at least one digit *)
Definition parse_fraction (m : Z) (s : string) : option (Z * nat * string) :=
  match s with
  | String c rest =>
      if c =? "." then
        let '(m', count, rest') := read_digits m 0 rest in
        match count with
        | O => None
        | S _ => Some (m', count, rest')
        end
      else Some (m, O, s)
  | EmptyString => Some (m, O, s)
  end.

(** integer part: a zero, or a digit from 1 to 9 and any digits *)
Definition parse_integer (s : string) : option (Z * string) :=
  match s with
  | String c rest =>
      if c =? "0" then Some (0%Z, rest)
      else if is_digit c then
        let '(m, _, rest') := read_digits (digit_of c) 1 rest in Some (m, rest')
      else None
  | EmptyString => None
  end.

Definition parse_number (s : string) : option (value * string) :=
  let '(negative, s) := parse_sign s in
  '(m, rest) ← parse_integer s;
  '(m, k, rest) ← parse_fraction m rest;
  '(e, rest) ← parse_exponent rest;
  Some (number negative m k e, rest).

(** Where the string scanner is: in plain text, after a backslash, or
    inside a [\u] escape with [todo] hexadecimal digits to go. *)
Inductive string_state :=
  | Plain
  | Escaped
  | Unicode (todo : nat) (code : N).

(** A code unit as a character; those above 255 are outside the strings of
    this model and are kept as a question mark. *)
Definition char_of_code (n : N) : ascii :=
  if (n <? 256)%N then ascii_of_N n else "?".

Definition prepend (c : ascii) (r : option (string * string)) : option (string * string) :=
  match r with
  | Some (text, rest) => Some (String c text, rest)
  | None => None
  end.

(** The characters of a string literal after its opening quote: the text
    up to the closing quote, and what follows it. *)
Fixpoint parse_chars (st : string_state) (s : string) : option (string * string) :=
  match s with
  | EmptyString => None
  | String c rest =>
      match st with
      | Plain =>
          if c =? quote then Some (EmptyString, rest)
          else if c =? backslash then parse_chars Escaped rest
          else if (N_of_ascii c <? 32)%N then None
          else prepend c (parse_chars Plain rest)
      | Escaped =>
          if (c =? quote) || (c =? backslash) || (c =? "/") then
            prepend c (parse_chars Plain rest)
          else if c =? "b" then prepend "008" (parse_chars Plain rest)
          else if c =? "f" then prepend "012" (parse_chars Plain rest)
          else if c =? "n" then prepend "010" (parse_chars Plain rest)
          else if c =? "r" then prepend "013" (parse_chars Plain rest)
          else if c =? "t" then prepend "009" (parse_chars Plain rest)
          else if c =? "u" then parse_chars (Unicode 4 0) rest
          else None
      | Unicode todo code =>
          match hex_of c with
          | None => None
          | Some d =>
              let code := (16 * code + d)%N in
              match todo with
              | O | 1%nat => prepend (char_of_code code) (parse_chars Plain rest)
              | S todo' => parse_chars (Unicode todo' code) rest
              end
          end
      end
  end.

(** [strip_prefix p s]: the rest of [s] after its prefix [p]. *)
Fixpoint strip_prefix (p s : string) : option string :=
  match p, s with
  | EmptyString, _ => Some s
  | String a p', String b s' => if a =? b then strip_prefix p' s' else None
  | String _ _, EmptyString => None
  end.

Inductive presult (A : Type) :=
  | Parsed (a : A) (rest : string)
  | Malformed
  | OutOfFuel.
Global Arguments Parsed {A} a rest.
Global Arguments Malformed {A}.
Global Arguments OutOfFuel {A}.

(** A member put before the members that follow it in the text: a key that
    comes again later keeps this first place and takes the later value. *)
Definition add_member (key : string) (v : value) (later : list (string * value))
  : list (string * value) :=
  let v' := match filter (λ kv, String.eqb kv.1 key) later with
            | (_, last) :: _ => last
            | [] => v
            end in
  (key, v') :: filter (λ kv, negb (String.eqb kv.1 key)) later.

Definition literal_or_number (s : string) : presult value :=
  match strip_prefix "true" s with
  | Some rest => Parsed (VBool true) rest
  | None =>
  match strip_prefix "false" s with
  | Some rest => Parsed (VBool false) rest
  | None =>
  match strip_prefix "null" s with
  | Some rest => Parsed VNull rest
  | None =>
  match parse_number s with
  | Some (v, rest) => Parsed v rest
  | None => Malformed
  end end end end.

Fixpoint parse_value (fuel : nat) (s : string) : presult value :=
  match fuel with
  | O => OutOfFuel
  | S fuel =>
      match skip_ws s with
      | EmptyString => Malformed
      | String c rest =>
          if c =? "{" then
            match skip_ws rest with
            | EmptyString => Malformed
            | String c' rest' =>
                if c' =? "}" then Parsed (VObj []) rest'
                else
                  match parse_members fuel (String c' rest') with
                  | Parsed fields rest'' => Parsed (VObj fields) rest''
                  | Malformed => Malformed
                  | OutOfFuel => OutOfFuel
                  end
            end
          else if c =? "[" then
            match skip_ws rest with
            | EmptyString => Malformed
            | String c' rest' =>
                if c' =? "]" then Parsed (VArr []) rest'
                else
                  match parse_elements fuel (String c' rest') with
                  | Parsed xs rest'' => Parsed (VArr xs) rest''
                  | Malformed => Malformed
                  | OutOfFuel => OutOfFuel
                  end
            end
          else if c =? quote then
            match parse_chars Plain rest with
            | Some (text, rest') => Parsed (VStr text) rest'
            | None => Malformed
            end
          else literal_or_number (String c rest)
      end
  end

(** the elements of an array after its opening bracket, up to and with the
    closing bracket *)
with parse_elements (fuel : nat) (s : string) : presult (list value) :=
  match fuel with
  | O => OutOfFuel
  | S fuel =>
      match parse_value fuel s with
      | Parsed v rest =>
          match skip_ws rest with
          | EmptyString => Malformed
          | String c rest' =>
              if c =? "," then
                match parse_elements fuel rest' with
                | Parsed xs rest'' => Parsed (v :: xs) rest''
                | Malformed => Malformed
                | OutOfFuel => OutOfFuel
                end
              else if c =? "]" then Parsed [v] rest'
              else Malformed
          end
      | Malformed => Malformed
      | OutOfFuel => OutOfFuel
      end
  end

(** the members of an object after its opening brace, up to and with the
    closing brace *)
with parse_members (fuel : nat) (s : string) : presult (list (string * value)) :=
  match fuel with
  | O => OutOfFuel
  | S fuel =>
      match skip_ws s with
      | EmptyString => Malformed
      | String c rest =>
          if c =? quote then
            match parse_chars Plain rest with
            | None => Malformed
            | Some (key, rest) =>
                match skip_ws rest with
                | EmptyString => Malformed
                | String c rest =>
                    if c =? ":" then
                      match parse_value fuel rest with
                      | Parsed v rest =>
                          match skip_ws rest with
                          | EmptyString => Malformed
                          | String c rest' =>
                              if c =? "," then
                                match parse_members fuel rest' with
                                | Parsed fields rest'' =>
                                    Parsed (add_member key v fields) rest''
                                | Malformed => Malformed
                                | OutOfFuel => OutOfFuel
                                end
                              else if c =? "}" then Parsed [(key, v)] rest'
                              else Malformed
                          end
                      | Malformed => Malformed
                      | OutOfFuel => OutOfFuel
                      end
                    else Malformed
                end
            end
          else Malformed
      end
  end.

(** [JSON.parse(text)]: one value between optional whitespace, or a
    [SyntaxError]. *)
Definition JSON_parse (text : string) : outcome value :=
  match parse_value (2 * String.length text + 1) text with
  | Parsed v rest =>
      match skip_ws rest with
      | EmptyString => Normal v
      | _ => Throw (SyntaxError "Unexpected non-whitespace character after JSON")
      end
  | _ => Throw (SyntaxError "Unexpected token or end of JSON input")
  end.

End Json.

Export Json.

(** ** The store: [class AppState] of [store/state.js] *)

Module AppState.

(** A function object is known by its reference: [sub !== callback]
    compares references, so a callback is a [fn_ref] here and calling it
    leaves an [event] in the world.  The subscribers of this repository
    (the notification manager, the navigation and the loading indicator)
    read the two documents they are given and do not call the store. *)
Definition fn_ref : Type := nat.

(** What a middleware does: it may print to the console, and it returns a
    partial document or a falsy value ([None]). *)
Record middleware_result := {
  printed : list console_entry;
  returned : option (gmap string value);
}.

Record middleware := {
  mw_ref : fn_ref;
  mw_apply : gmap string value → gmap string value → middleware_result;
}.

Inductive event :=
  | MiddlewareCalled (m : fn_ref) (prevState updates : gmap string value)
  | SubscriberCalled (callback : fn_ref) (state prevState : gmap string value).

(** The callbacks given to [setTimeout]:
    [() => { this.removeNotification(notification.id); }] *)
Inductive timer_callback :=
  | AutoRemove (id : Z).

Record timer := {
  due : Z;
  callback : timer_callback;
}.

(** [window.appState] and the part of the browser the store touches. *)
Record world := {
  state : gmap string value;
  subscribers : list fn_ref;
  middlewares : list middleware;
  hostname : string;                  (* window.location.hostname *)
  now : Z;                            (* the clock, in milliseconds *)
  timers : list timer;                (* pending, in the order they were set *)
  localStorage : gmap string string;
  console : list console_entry;
  calls : list event;
}.

Definition set_state (s : gmap string value) (w : world) : world :=
  {| state := s; subscribers := subscribers w; middlewares := middlewares w;
     hostname := hostname w; now := now w; timers := timers w;
     localStorage := localStorage w; console := console w; calls := calls w |}.

Definition set_subscribers (subs : list fn_ref) (w : world) : world :=
  {| state := state w; subscribers := subs; middlewares := middlewares w;
     hostname := hostname w; now := now w; timers := timers w;
     localStorage := localStorage w; console := console w; calls := calls w |}.

Definition set_middlewares (ms : list middleware) (w : world) : world :=
  {| state := state w; subscribers := subscribers w; middlewares := ms;
     hostname := hostname w; now := now w; timers := timers w;
     localStorage := localStorage w; console := console w; calls := calls w |}.

Definition set_now (t : Z) (w : world) : world :=
  {| state := state w; subscribers := subscribers w; middlewares := middlewares w;
     hostname := hostname w; now := t; timers := timers w;
     localStorage := localStorage w; console := console w; calls := calls w |}.

Definition set_timers (ts : list timer) (w : world) : world :=
  {| state := state w; subscribers := subscribers w; middlewares := middlewares w;
     hostname := hostname w; now := now w; timers := ts;
     localStorage := localStorage w; console := console w; calls := calls w |}.

Definition print (entries : list console_entry) (w : world) : world :=
  {| state := state w; subscribers := subscribers w; middlewares := middlewares w;
     hostname := hostname w; now := now w; timers := timers w;
     localStorage := localStorage w; console := console w ++ entries;
     calls := calls w |}.

Definition record (e : event) (w : world) : world :=
  {| state := state w; subscribers := subscribers w; middlewares := middlewares w;
     hostname := hostname w; now := now w; timers := timers w;
     localStorage := localStorage w; console := console w;
     calls := calls w ++ [e] |}.

(** [doc.key], [undefined] when the key is absent *)
Definition field (key : string) (doc : gmap string value) : value :=
  default VUndefined (doc !! key).

(** The document the constructor and [reset] build. *)
Definition initial_state : gmap string value :=
  {[ "currentSection" := VStr "home";
     "user" := VNull;
     "notifications" := VArr [];
     "loading" := VBool false;
     "formData" := VObj [];
     "stats" := VObj [("projects", VNum 0); ("components", VNum 0);
                      ("satisfaction", VNum 0)] ]}.

(** [new AppState()] in a browser at the given host, clock and storage *)
Definition new_AppState (host : string) (clock : Z) (stored : gmap string string) : world :=
  {| state := initial_state; subscribers := []; middlewares := [];
     hostname := host; now := clock; timers := [];
     localStorage := stored; console := []; calls := [] |}.

(** The function [subscribe] returns:
    [() => { this.subscribers = this.subscribers.filter((sub) => sub !== callback); }] *)
Definition unsubscribe (callback : fn_ref) : eff world unit :=
  modify (λ w, set_subscribers
                 (filter (λ sub, sub ≠ callback) (subscribers w)) w).

Definition subscribe (callback : fn_ref) : eff world (eff world unit) :=
  modify (λ w, set_subscribers (subscribers w ++ [callback]) w);;
  mret (unsubscribe callback).

Definition use (m : middleware) : eff world unit :=
  modify (λ w, set_middlewares (middlewares w ++ [m]) w).

Definition getState : eff world (gmap string value) := gets state.

Definition isDevelopment : eff world bool :=
  gets (λ w, String.eqb (hostname w) "localhost"
             || String.eqb (hostname w) "127.0.0.1"
             || String.eqb (hostname w) EmptyString).

(** The middleware loop of [setState]:
    [processedUpdates = middleware(prevState, processedUpdates) || processedUpdates] *)
Fixpoint apply_middlewares (ms : list middleware)
    (prevState processedUpdates : gmap string value)
  : eff world (gmap string value) :=
  match ms with
  | [] => mret processedUpdates
  | m :: rest =>
      modify (record (MiddlewareCalled (mw_ref m) prevState processedUpdates));;
      let result := mw_apply m prevState processedUpdates in
      modify (print (printed result));;
      apply_middlewares rest prevState (default processedUpdates (returned result))
  end.

(** [this.subscribers.forEach((callback) => { callback(this.state, prev); })] *)
Definition notify (prev : gmap string value) : eff world unit :=
  subs ← gets subscribers;
  forEach subs (λ callback,
    current ← gets state;
    modify (record (SubscriberCalled callback current prev))).

Definition setState (updates : gmap string value) : eff world unit :=
  prevState ← gets state;
  ms ← gets middlewares;
  processedUpdates ← apply_middlewares ms prevState updates;
  (* this.state = { ...this.state, ...processedUpdates }; *)
  modify (λ w, set_state (processedUpdates ∪ state w) w);;
  notify prevState;;
  dev ← isDevelopment;
  if (dev : bool) then modify (print [(LogLevel, "State updated:")]) else mret tt.

Definition navigate (section : value) : eff world unit :=
  setState {[ "currentSection" := section ]}.

Definition setLoading (loading : value) : eff world unit :=
  setState {[ "loading" := loading ]}.

(** [[...v]]: the elements of an array or the characters of a string; the
    other values of the model are not iterable. *)
Definition spread (v : value) : outcome (list value) :=
  match v with
  | VArr xs => Normal xs
  | VStr s => Normal (chars s)
  | _ => Throw (TypeError "this.state.notifications is not iterable")
  end.

(** The delay a browser gives a timer: the number as a 32-bit signed
    integer, and no less than zero. *)
Definition int32 (n : Z) : Z := (n + 2 ^ 31) mod 2 ^ 32 - 2 ^ 31.

Definition timer_delay (duration : Z) : Z := Z.max 0 (int32 duration).

Definition setTimeout (cb : timer_callback) (duration : Z) : eff world unit :=
  modify (λ w, set_timers
                 (timers w ++ [{| due := now w + timer_delay duration;
                                  callback := cb |}]) w).

(** The record [addNotification] builds when the clock reads [clock]; the
    [Date] of its timestamp is kept as its time value. *)
Definition notification_record (clock : Z) (message : value) (type : string)
    (duration : Z) : value :=
  VObj [("id", VNum clock); ("message", message); ("type", VStr type);
        ("duration", VNum duration); ("timestamp", VNum clock)].

(** [addNotification(message, type = "info", duration = 3000)]; an argument
    left out or [undefined] is [None]. *)
Definition addNotification (message : value) (type : option string)
    (duration : option Z) : eff world unit :=
  let type := default "info" type in
  let duration := default 3000 duration in
  clock ← gets now;
  let notification := notification_record clock message type duration in
  current ← gets (λ w, field "notifications" (state w));
  notifications ← lift (spread current);
  setState {[ "notifications" := VArr (notifications ++ [notification]) ]};;
  setTimeout (AutoRemove clock) duration.

(** [n.id !== id] for the number [id] *)
Definition id_differs (id : Z) (n : value) : outcome bool :=
  match get_prop n "id" with
  | Normal (VNum id') => Normal (negb (id' =? id))
  | Normal _ => Normal true
  | Throw e => Throw e
  end.

Definition removeNotification (id : Z) : eff world unit :=
  current ← gets (λ w, field "notifications" (state w));
  match current with
  | VArr xs =>
      notifications ← lift (filter_outcome (id_differs id) xs);
      setState {[ "notifications" := VArr notifications ]}
  | VUndefined =>
      throw (TypeError "Cannot read properties of undefined (reading 'filter')")
  | VNull =>
      throw (TypeError "Cannot read properties of null (reading 'filter')")
  | _ => throw (TypeError "this.state.notifications.filter is not a function")
  end.

Definition run_callback (cb : timer_callback) : eff world unit :=
  match cb with
  | AutoRemove id => removeNotification id
  end.

(** The timers that are due by [target], earliest first; timers due at the
    same time keep the order in which they were set. *)
Fixpoint insert_by_due (t : timer) (sorted : list timer) : list timer :=
  match sorted with
  | [] => [t]
  | t' :: rest =>
      if due t' <=? due t then t' :: insert_by_due t rest else t :: t' :: rest
  end.

Definition by_due (ts : list timer) : list timer :=
  foldr (λ t sorted, insert_by_due t sorted) [] (reverse ts).

(** One timer fires: the clock stands at its due time (or later), its
    callback runs, and an exception it lets escape is reported on the
    console and goes no further. *)
Definition fire (t : timer) (w : world) : world :=
  let w := set_now (Z.max (now w) (due t)) w in
  match run_callback (callback t) w with
  | (Normal _, w') => w'
  | (Throw _, w') => print [(ErrorLevel, "Uncaught")] w'
  end.

(** The event loop while [elapsed] milliseconds pass with no other event:
    the due timers fire in order and the clock ends [elapsed] later.  No
    callback of this program sets a timer, so the timers due are known at
    the start. *)
Definition advance (elapsed : Z) (w : world) : world :=
  let target := now w + elapsed in
  let fired := by_due (filter (λ t, due t ≤ target) (timers w)) in
  let pending := filter (λ t, ¬ due t ≤ target) (timers w) in
  set_now target (foldl (λ w t, fire t w) (set_timers pending w) fired).

(** [restore(keys = ["user", "formData"])] *)
Definition restore_keys (parsedState : value) (keys : list string)
  : outcome (gmap string value) :=
  foldl (λ acc key,
           match acc with
           | Throw e => Throw e
           | Normal stateToRestore =>
               match get_prop parsedState key with
               | Throw e => Throw e
               | Normal VUndefined => Normal stateToRestore
               | Normal v => Normal (<[key := v]> stateToRestore)
               end
           end)
        (Normal ∅) keys.

(** the [try] block of [restore] *)
Definition restore_try (keys : list string) : eff world unit :=
  persistedState ← gets (λ w, localStorage w !! "appState");
  match persistedState with
  | Some text =>
      if truthy (VStr text) then
        parsedState ← lift (JSON_parse text);
        stateToRestore ← lift (restore_keys parsedState keys);
        setState stateToRestore
      else mret tt
  | None => mret tt
  end.

Definition restore (keys : option (list string)) : eff world unit :=
  try_catch
    (restore_try (default ["user"; "formData"] keys))
    (λ error, modify (print [(WarnLevel, "Failed to restore state:")])).

(** [reset()] *)
Definition reset : eff world unit :=
  modify (set_state initial_state);;
  notify ∅.

(** The two middlewares the script registers on a development host. *)
Definition loggingMiddleware : middleware :=
  {| mw_ref := 0%nat;
     mw_apply := λ prevState updates,
       {| printed := [(LogLevel, "State change:")]; returned := Some updates |} |}.

Definition is_string (v : value) : bool :=
  match v with VStr _ => true | _ => false end.

Definition validationMiddleware : middleware :=
  {| mw_ref := 1%nat;
     mw_apply := λ prevState updates,
       let currentSection := field "currentSection" updates in
       if truthy currentSection && negb (is_string currentSection) then
         {| printed := [(WarnLevel, "currentSection must be a string")];
            returned := Some (delete "currentSection" updates) |}
       else {| printed := []; returned := Some updates |} |}.

(** The script after the class: create the store, register the middlewares
    in development, restore what was persisted. *)
Definition boot (host : string) (clock : Z) (stored : gmap string string) : world :=
  let w := new_AppState host clock stored in
  let w := if (isDevelopment w).1 is Normal true
           then (use validationMiddleware (use loggingMiddleware w).2).2
           else w in
  (restore None w).2.

(** The world after some console output and some calls, with a new document. *)
Definition after (new : gmap string value) (out : list console_entry)
    (es : list event) (w : world) : world :=
  {| state := new; subscribers := subscribers w; middlewares := middlewares w;
     hostname := hostname w; now := now w; timers := timers w;
     localStorage := localStorage w; console := console w ++ out;
     calls := calls w ++ es |}.

(** *** The update pipeline, in the words of the specification *)

(** The partial a middleware hands on: its replacement, or the pending
    partial when it returns nothing. *)
Definition handed_on (m : middleware) (prevState pending : gmap string value)
  : gmap string value :=
  match returned (mw_apply m prevState pending) with
  | Some replacement => replacement
  | None => pending
  end.

(** The partial that leaves the middlewares, taken in registration order. *)
Fixpoint final_partial (ms : list middleware) (prevState pending : gmap string value)
  : gmap string value :=
  match ms with
  | [] => pending
  | m :: rest => final_partial rest prevState (handed_on m prevState pending)
  end.

(** The calls made to the middlewares: each with the document before the
    update and the partial pending when its turn comes. *)
Fixpoint middleware_calls (ms : list middleware) (prevState pending : gmap string value)
  : list event :=
  match ms with
  | [] => []
  | m :: rest =>
      MiddlewareCalled (mw_ref m) prevState pending
        :: middleware_calls rest prevState (handed_on m prevState pending)
  end.

Fixpoint middleware_output (ms : list middleware) (prevState pending : gmap string value)
  : list console_entry :=
  match ms with
  | [] => []
  | m :: rest =>
      printed (mw_apply m prevState pending)
        ++ middleware_output rest prevState (handed_on m prevState pending)
  end.

(** The calls made to the subscribers, in subscription order. *)
Definition subscriber_calls (subs : list fn_ref) (new prevState : gmap string value)
  : list event :=
  (λ callback, SubscriberCalled callback new prevState) <$> subs.

Definition development (w : world) : bool :=
  String.eqb (hostname w) "localhost" || String.eqb (hostname w) "127.0.0.1"
  || String.eqb (hostname w) EmptyString.

Definition update_log (w : world) : list console_entry :=
  if development w then [(LogLevel, "State updated:")] else [].

(** What one call of [setState] does to the world. *)
Definition updated (updates : gmap string value) (w : world) : world :=
  let new := final_partial (middlewares w) (state w) updates ∪ state w in
  after new
    (middleware_output (middlewares w) (state w) updates ++ update_log w)
    (middleware_calls (middlewares w) (state w) updates
       ++ subscriber_calls (subscribers w) new (state w))
    w.

(** Subscribe the same callback twice, then call one of the two functions
    the subscriptions returned. *)
Definition subscribe_twice_unsubscribe_once (callback : fn_ref) (first : bool)
  : eff world unit :=
  unsubscribe_first ← subscribe callback;
  unsubscribe_second ← subscribe callback;
  if first then unsubscribe_first else unsubscribe_second.

(** The shallow merges of the partials onto a document, from left to right. *)
Definition merge_all (doc : gmap string value) (partials : list (gmap string value))
  : gmap string value :=
  foldl (λ doc partial, partial ∪ doc) doc partials.

(** The last value written to a key by a sequence of partials. *)
Fixpoint last_write (key : string) (partials : list (gmap string value))
  : option value :=
  match partials with
  | [] => None
  | partial :: rest =>
      match last_write key rest with
      | Some v => Some v
      | None => partial !! key
      end
  end.

(** Three notifications with durations 100, 200 and 300, added one after the
    other while the clock stands still, as calls in one turn of the event
    loop are. *)
Definition add_three : eff world unit :=
  addNotification (VStr "first") None (Some 100);;
  addNotification (VStr "second") None (Some 200);;
  addNotification (VStr "third") None (Some 300).

(** The same three, a millisecond apart. *)
Definition add_three_apart : eff world unit :=
  addNotification (VStr "first") None (Some 100);;
  modify (advance 1);;
  addNotification (VStr "second") None (Some 200);;
  modify (advance 1);;
  addNotification (VStr "third") None (Some 300).

(** Three updates on a new store: the loading flag ends as last written. *)
Definition three_updates : list (gmap string value) :=
  [ {[ "loading" := VBool true ]}; {[ "user" := VStr "ann" ]};
    {[ "loading" := VBool false ]} ].

End AppState.

(** ** Regular expressions

    The literals of the validators, matched against the whole value as
    their [^] and [$] demand, by derivatives. *)

Module Regex.

Inductive regex :=
  | Void
  | Eps
  | Class (p : ascii → bool)
  | Cat (r s : regex)
  | Alt (r s : regex)
  | Star (r : regex).

Definition Chr (c : ascii) : regex := Class (Ascii.eqb c).
Definition Plus (r : regex) : regex := Cat r (Star r).
Definition Opt (r : regex) : regex := Alt r Eps.

(** [r{n,}] *)
Fixpoint AtLeast (n : nat) (r : regex) : regex :=
  match n with
  | O => Star r
  | S n' => Cat r (AtLeast n' r)
  end.

Fixpoint nullable (r : regex) : bool :=
  match r with
  | Void | Class _ => false
  | Eps | Star _ => true
  | Cat r s => nullable r && nullable s
  | Alt r s => nullable r || nullable s
  end.

Fixpoint deriv (c : ascii) (r : regex) : regex :=
  match r with
  | Void | Eps => Void
  | Class p => if p c then Eps else Void
  | Cat r s =>
      if nullable r then Alt (Cat (deriv c r) s) (deriv c s)
      else Cat (deriv c r) s
  | Alt r s => Alt (deriv c r) (deriv c s)
  | Star r => Cat (deriv c r) (Star r)
  end.

(** [/^r$/.test(s)] *)
Fixpoint test (r : regex) (s : string) : bool :=
  match s with
  | EmptyString => nullable r
  | String c rest => test (deriv c r) rest
  end.

End Regex.

(** ** The form component: [class FormManager] *)

Module FormManager.

Import Regex.

(** An [input], [textarea] or [select] of the page: the attributes the
    manager reads, the value the user has typed, the classes the manager
    sets, and the parent under which the error message is shown. *)
Record Element := {
  el_name : string;
  el_value : string;
  el_defaultValue : string;
  el_required : bool;
  el_type : string;
  el_pattern : string;
  el_parent : nat;
  el_classList : list string;
}.

Definition with_value (v : string) (el : Element) : Element :=
  {| el_name := el_name el; el_value := v; el_defaultValue := el_defaultValue el;
     el_required := el_required el; el_type := el_type el;
     el_pattern := el_pattern el; el_parent := el_parent el;
     el_classList := el_classList el |}.

Definition with_classList (classes : list string) (el : Element) : Element :=
  {| el_name := el_name el; el_value := el_value el;
     el_defaultValue := el_defaultValue el;
     el_required := el_required el; el_type := el_type el;
     el_pattern := el_pattern el; el_parent := el_parent el;
     el_classList := classes |}.

(** What a validator returns: [true], or the message of the error. *)
Inductive verdict :=
  | VTrue
  | VMessage (message : string).

Definition validator : Type := string → Element → outcome verdict.

(** [test || message] *)
Definition or_message (passed : bool) (message : string) : verdict :=
  if passed then VTrue else VMessage message.

(** [!value] for a string *)
Definition is_empty (value : string) : bool := String.eqb value EmptyString.

(** *** [getDefaultValidators()]

    The validators of the source but [url], which no form of the template
    uses and which needs the URL parser of the browser. *)

Section DefaultValidators.

(** [new RegExp(pattern).test(value)] for the [pattern] attribute of a
    field: the engine of the browser, which throws a [SyntaxError] on a
    pattern it cannot compile. *)
Variable RegExp_test : string → string → outcome bool.

(** [(value && value.trim() !== "") || "This field is required"] *)
Definition required : validator := λ value _,
  Normal (or_message (negb (is_empty value) && negb (is_empty (trim value)))
                     "This field is required").

(** [/^[^\s@]+@[^\s@]+\.[^\s@]+$/] *)
Definition emailRegex : regex :=
  let word := Plus (Class (λ c, negb (is_space c || Ascii.eqb c "@"))) in
  Cat word (Cat (Chr "@") (Cat word (Cat (Chr ".") word))).

Definition email : validator := λ value _,
  if is_empty value then Normal VTrue
  else Normal (or_message (test emailRegex value)
                          "Please enter a valid email address").

Definition minLength (min : nat) : validator := λ value _,
  Normal (or_message (min <=? String.length value)%nat
                     ("Minimum length is " +:+ pretty min +:+ " characters")).

Definition maxLength (max : nat) : validator := λ value _,
  Normal (or_message (String.length value <=? max)%nat
                     ("Maximum length is " +:+ pretty max +:+ " characters")).

Definition pattern (pattern : string) : validator := λ value _,
  if is_empty value then Normal VTrue
  else match RegExp_test pattern value with
       | Normal passed => Normal (or_message passed "Please enter a valid value")
       | Throw e => Throw e
       end.

(** [/^[\+]?[\d\s\-\(\)]{10,}$/] *)
Definition phoneRegex : regex :=
  let digit c := let n := N_of_ascii c in ((48 <=? n) && (n <=? 57))%N in
  Cat (Opt (Chr "+"))
      (AtLeast 10 (Class (λ c, digit c || is_space c || Ascii.eqb c "-"
                               || Ascii.eqb c "(" || Ascii.eqb c ")"))).

Definition phone : validator := λ value _,
  if is_empty value then Normal VTrue
  else Normal (or_message (test phoneRegex value)
                          "Please enter a valid phone number").

(** [getFieldValidators(field)] *)
Definition getFieldValidators (field : Element) : list validator :=
  (if el_required field then [required] else [])
  ++ (if String.eqb (el_type field) "email" then [email] else [])
  ++ (if negb (is_empty (el_pattern field)) then [pattern (el_pattern field)] else []).

End DefaultValidators.

(** The state the manager keeps for a field. *)
Record Field := {
  element : Element;
  validators : list validator;
  isValid : bool;
  errors : list string;
}.

(** The submit button of a form, with its [dataset.originalText]. *)
Record Button := {
  disabled : bool;
  textContent : string;
  originalText : option string;
}.

(** What the manager asks of the other components of the page. *)
Inductive effect :=
  | ShowError (message : value)                (* showError(message) *)
  | ShowSuccess (message : value)              (* showSuccess(message) *)
  | SetLoading (loading : bool)                (* window.appState.setLoading *)
  | UpdateFormData (formId : string) (data : list (string * string))
  | ClearFormData (formId : string)
  | Submit (formData : list (string * string)) (formId : string).
                                               (* config.onSubmit(formData, formId) *)

(** A submit handler, seen from the manager: what it asks of the store,
    what it prints, and whether its promise resolves or rejects. *)
Record handler_result := {
  asked : list effect;
  printed : list console_entry;
  settled : outcome value;
}.

Definition handler : Type := list (string * string) → string → handler_result.

Record FormConfig := {
  fields : list (string * Field);     (* a Map: insertion order, unique names *)
  onSubmit : handler;
  validateOnChange : bool;
  validateOnBlur : bool;
  resetOnSubmit : bool;               (* config.resetOnSubmit !== false *)
  submitBtn : option Button;          (* button[type="submit"] of the form *)
}.

Record world := {
  forms : gmap string FormConfig;
  errorMessage : gmap nat string;     (* the .error-message under each parent *)
  appState : bool;                    (* is there a window.appState? *)
  console : list console_entry;
  effects : list effect;
}.

Definition set_forms (fs : gmap string FormConfig) (w : world) : world :=
  {| forms := fs; errorMessage := errorMessage w; appState := appState w;
     console := console w; effects := effects w |}.

Definition set_errorMessage (ms : gmap nat string) (w : world) : world :=
  {| forms := forms w; errorMessage := ms; appState := appState w;
     console := console w; effects := effects w |}.

Definition print (entries : list console_entry) (w : world) : world :=
  {| forms := forms w; errorMessage := errorMessage w; appState := appState w;
     console := console w ++ entries; effects := effects w |}.

Definition emit (es : list effect) (w : world) : world :=
  {| forms := forms w; errorMessage := errorMessage w; appState := appState w;
     console := console w; effects := effects w ++ es |}.

Definition with_fields (fs : list (string * Field)) (c : FormConfig) : FormConfig :=
  {| fields := fs; onSubmit := onSubmit c; validateOnChange := validateOnChange c;
     validateOnBlur := validateOnBlur c; resetOnSubmit := resetOnSubmit c;
     submitBtn := submitBtn c |}.

Definition with_submitBtn (b : option Button) (c : FormConfig) : FormConfig :=
  {| fields := fields c; onSubmit := onSubmit c;
     validateOnChange := validateOnChange c;
     validateOnBlur := validateOnBlur c; resetOnSubmit := resetOnSubmit c;
     submitBtn := b |}.

(** [Map.get] and [Map.set] on a map kept in insertion order *)
Fixpoint map_get {A} (key : string) (m : list (string * A)) : option A :=
  match m with
  | [] => None
  | (k, a) :: rest => if String.eqb k key then Some a else map_get key rest
  end.

Fixpoint map_set {A} (key : string) (a : A) (m : list (string * A)) : list (string * A) :=
  match m with
  | [] => [(key, a)]
  | (k, a') :: rest =>
      if String.eqb k key then (key, a) :: rest else (k, a') :: map_set key a rest
  end.

(** the field [fieldName] of the form [formId], when both are registered *)
Definition find_field (formId fieldName : string) (w : world) : option Field :=
  config ← forms w !! formId; map_get fieldName (fields config).

Definition store_field (formId fieldName : string) (f : Field) (w : world) : world :=
  match forms w !! formId with
  | Some config =>
      set_forms (<[formId := with_fields (map_set fieldName f (fields config)) config]>
                   (forms w)) w
  | None => w
  end.

(** [addField(formId, fieldName, { element, validators })] *)
Definition addField (formId fieldName : string) (el : Element)
    (vs : list validator) : eff world unit :=
  modify (store_field formId fieldName
            {| element := el; validators := vs; isValid := true; errors := [] |}).

(** [addValidator(formId, fieldName, validator)] *)
Definition addValidator (formId fieldName : string) (v : validator) : eff world unit :=
  modify (λ w,
    match find_field formId fieldName w with
    | Some f =>
        store_field formId fieldName
          {| element := element f; validators := validators f ++ [v];
             isValid := isValid f; errors := errors f |} w
    | None => w
    end).

(** The validator loop of [validateField]:
    [if (result !== true) { errors.push(result); }] *)
Fixpoint run_validators (vs : list validator) (value : string) (el : Element)
    (errors : list string) : outcome (list string) :=
  match vs with
  | [] => Normal errors
  | v :: rest =>
      match v value el with
      | Throw e => Throw e
      | Normal VTrue => run_validators rest value el errors
      | Normal (VMessage result) => run_validators rest value el (errors ++ [result])
      end
  end.

(** [classList.remove("error", "valid")] then [classList.add(...)] *)
Definition mark (isValid : bool) (classes : list string) : list string :=
  let kept := filter (λ c, c ≠ "error" ∧ c ≠ "valid") classes in
  kept ++ [if isValid then "valid" else "error"].

(** [updateFieldUI(element, isValid, errors)]: the element with its new
    classes; the message element under its parent is written, or removed. *)
Definition updateFieldUI (el : Element) (isValid : bool) (errors : list string)
  : eff world Element :=
  let el := with_classList (mark isValid (el_classList el)) el in
  match errors with
  | first :: _ =>
      modify (λ w, set_errorMessage (<[el_parent el := first]> (errorMessage w)) w);;
      modify (print [(LogLevel, "Validation error for " +:+ el_name el +:+ ": " +:+ first)]);;
      mret el
  | [] =>
      modify (λ w, set_errorMessage (delete (el_parent el) (errorMessage w)) w);;
      mret el
  end.

(** [validateField(formId, fieldName)] *)
Definition validateField (formId fieldName : string) : eff world bool :=
  found ← gets (find_field formId fieldName);
  match found with
  | None => mret true
  | Some field =>
      let value := el_value (element field) in
      errors ← lift (run_validators (validators field) value (element field) []);
      let valid := bool_decide (List.length errors = 0%nat) in
      el ← updateFieldUI (element field) valid errors;
      modify (store_field formId fieldName
                {| element := el; validators := validators field;
                   isValid := valid; errors := errors |});;
      mret valid
  end.

(** [errors.join(', ')] *)
Fixpoint join (sep : string) (xs : list string) : string :=
  match xs with
  | [] => EmptyString
  | [x] => x
  | x :: rest => x +:+ sep +:+ join sep rest
  end.

(** the loop of [validateForm] over the fields of the form *)
Fixpoint validate_fields (formId : string) (names : list string)
    (isValid : bool) (errors : list string) : eff world (bool * list string) :=
  match names with
  | [] => mret (isValid, errors)
  | fieldName :: rest =>
      fieldValid ← validateField formId fieldName;
      if (fieldValid : bool) then validate_fields formId rest isValid errors
      else
        field ← gets (find_field formId fieldName);
        let line := fieldName +:+ ": " +:+ join ", " (from_option FormManager.errors [] field) in
        validate_fields formId rest false (errors ++ [line])
  end.

(** [validateForm(formId)] *)
Definition validateForm (formId : string) : eff world bool :=
  found ← gets (λ w, forms w !! formId);
  match found with
  | None =>
      modify (print [(ErrorLevel, "Form config not found for: " +:+ formId)]);;
      mret false
  | Some config =>
      '(isValid, errors) ← validate_fields formId (fst <$> fields config) true [];
      modify (print [(LogLevel,
                      if (isValid : bool)
                      then "Form validation passed for " +:+ formId
                      else "Form validation failed for " +:+ formId +:+ ":")]);;
      mret isValid
  end.

(** [getFormData(formId)]: the entries of the object it builds, listed in
    the order of the fields (the object itself enumerates the keys that are
    array indices before the others). *)
Definition getFormData (formId : string) : eff world (list (string * string)) :=
  found ← gets (λ w, forms w !! formId);
  match found with
  | None => mret []
  | Some config =>
      mret ((λ entry, (entry.1, el_value (element entry.2))) <$> fields config)
  end.

(** [setFormLoading(formId, loading)] *)
Definition set_button (loading : bool) (b : Button) : Button :=
  let text := if loading then "Submitting..."
              else match originalText b with
                   | Some original => if is_empty original then "Submit" else original
                   | None => "Submit"
                   end in
  {| disabled := loading;
     textContent := text;
     originalText := match originalText b with
                     | Some original => if is_empty original then Some text else Some original
                     | None => Some text
                     end |}.

Definition setFormLoading (formId : string) (loading : bool) : eff world unit :=
  found ← gets (λ w, forms w !! formId);
  match found with
  | None => mret tt
  | Some config =>
      modify (λ w, set_forms
                     (<[formId := with_submitBtn (set_button loading <$> submitBtn config) config]>
                        (forms w)) w);;
      has ← gets appState;
      if (has : bool) then modify (emit [SetLoading loading]) else mret tt
  end.

(** the loop of [resetForm] over the fields: the controls take their default
    values again ([config.element.reset()]) and lose their validation state *)
Fixpoint reset_fields (formId : string) (names : list string) : eff world unit :=
  match names with
  | [] => mret tt
  | fieldName :: rest =>
      found ← gets (find_field formId fieldName);
      match found with
      | None => reset_fields formId rest
      | Some field =>
          let el := with_value (el_defaultValue (element field)) (element field) in
          el ← updateFieldUI el true [];
          modify (store_field formId fieldName
                    {| element := el; validators := validators field;
                       isValid := true; errors := [] |});;
          reset_fields formId rest
      end
  end.

(** [resetForm(formId)] *)
Definition resetForm (formId : string) : eff world unit :=
  found ← gets (λ w, forms w !! formId);
  match found with
  | None => mret tt
  | Some config =>
      reset_fields formId (fst <$> fields config);;
      has ← gets appState;
      if (has : bool) then modify (emit [ClearFormData formId]) else mret tt
  end.

(** [await config.onSubmit(formData, formId)] *)
Definition call_onSubmit (config : FormConfig) (formData : list (string * string))
    (formId : string) : eff world value :=
  modify (emit [Submit formData formId]);;
  let result := onSubmit config formData formId in
  modify (emit (asked result));;
  modify (print (printed result));;
  lift (settled result).

(** the [try] block of [handleSubmit] *)
Definition submit_try (config : FormConfig) (formId : string) : eff world unit :=
  valid ← validateForm formId;
  if negb valid then
    modify (emit [ShowError (VStr "Please fix the errors in the form")])
  else
    formData ← getFormData formId;
    call_onSubmit config formData formId;;
    modify (emit [ShowSuccess (VStr "Form submitted successfully!")]);;
    if resetOnSubmit config then resetForm formId else mret tt.

(** the [catch (error)] block of [handleSubmit] *)
Definition submit_catch (error : value) : eff world unit :=
  modify (print [(ErrorLevel, "Form submission error:")]);;
  message ← lift (get_prop error "message");
  modify (emit [ShowError
                  (or_else message (VStr "An error occurred while submitting the form"))]).

(** the [try] and [catch] blocks together *)
Definition submit_body (config : FormConfig) (formId : string) : eff world unit :=
  try_catch (submit_try config formId) submit_catch.

(** [handleSubmit(formId)]; the promise it returns resolves ([Normal]) or
    rejects ([Throw]). *)
Definition handleSubmit (formId : string) : eff world unit :=
  found ← gets (λ w, forms w !! formId);
  match found with
  | None => mret tt
  | Some config =>
      setFormLoading formId true;;
      try_finally (submit_body config formId) (setFormLoading formId false)
  end.

(** [defaultSubmitHandler(formData, formId)], after its simulated delay,
    when the call of the store returns (were it to throw, the handler would
    reject with its own error). *)
Definition defaultSubmitHandler (hasAppState : bool) : handler := λ formData formId,
  {| asked := if hasAppState then [UpdateFormData formId formData] else [];
     printed := [(LogLevel, "Form submitted:")];
     settled := Normal (VObj [("success", VBool true);
                              ("message", VStr "Form submitted successfully")]) |}.

(** A [form] element of the page. *)
Record Form := {
  id : string;
  controls : list Element;            (* its input, textarea and select elements *)
  submitButton : option Button;
}.

(** The options of [registerForm]; [None] is a key left out. *)
Record Options := {
  opt_onSubmit : option handler;
  opt_validateOnChange : option bool;
  opt_validateOnBlur : option bool;
  opt_resetOnSubmit : option bool;
}.

Definition no_options : Options :=
  {| opt_onSubmit := None; opt_validateOnChange := None;
     opt_validateOnBlur := None; opt_resetOnSubmit := None |}.

Section Registration.

Variable RegExp_test : string → string → outcome bool.

(** [discoverFields(formId)] *)
Definition discoverFields (formId : string) (form : Form) : eff world unit :=
  forEach (controls form) (λ field,
    if negb (is_empty (el_name field)) then
      addField formId (el_name field) field (getFieldValidators RegExp_test field)
    else mret tt).

(** [registerForm(form, options = {})] *)
Definition registerForm (form : Form) (options : Options) : eff world unit :=
  if is_empty (id form) then
    modify (print [(WarnLevel, "Form must have an ID to be registered")])
  else
    has ← gets appState;
    let config :=
      {| fields := [];
         onSubmit := default (defaultSubmitHandler has) (opt_onSubmit options);
         validateOnChange := negb (bool_decide (opt_validateOnChange options = Some false));
         validateOnBlur := negb (bool_decide (opt_validateOnBlur options = Some false));
         resetOnSubmit := negb (bool_decide (opt_resetOnSubmit options = Some false));
         submitBtn := submitButton form |} in
    modify (λ w, set_forms (<[id form := config]> (forms w)) w);;
    discoverFields (id form) form.


End Registration.

(** [new FormManager()] before [init] *)
Definition new_FormManager (hasAppState : bool) : world :=
  {| forms := ∅; errorMessage := ∅; appState := hasAppState;
     console := []; effects := [] |}.

(** The user types [v] into a field. *)
Definition type_value (formId fieldName v : string) : eff world unit :=
  modify (λ w,
    match find_field formId fieldName w with
    | Some f =>
        store_field formId fieldName
          {| element := with_value v (element f); validators := validators f;
             isValid := isValid f; errors := errors f |} w
    | None => w
    end).

(** *** Validation, in the words of the specification *)

(** The messages among the results of the validators, in their order. *)
Fixpoint messages (results : list verdict) : list string :=
  match results with
  | [] => []
  | VTrue :: rest => messages rest
  | VMessage message :: rest => message :: messages rest
  end.

(** *** A page to try the manager on *)

(** A contact form with one required text field and a submit button. *)
Definition name_input : Element :=
  {| el_name := "name"; el_value := EmptyString; el_defaultValue := EmptyString;
     el_required := true; el_type := "text"; el_pattern := EmptyString;
     el_parent := 0%nat; el_classList := [] |}.

Definition contact_form : Form :=
  {| id := "contact"; controls := [name_input];
     submitButton := Some {| disabled := false; textContent := "Send";
                             originalText := None |} |}.

(** No field of the page has a [pattern], so the engine is never asked. *)
Definition no_pattern : string → string → outcome bool := λ _ _, Normal true.

(** The page once the form is registered with the given options. *)
Definition contact_page (options : Options) : world :=
  (registerForm no_pattern contact_form options (new_FormManager true)).2.

(** The field is given a minimum length of 3 on top of being required. *)
Definition contact_page_min3 : world :=
  (addValidator "contact" "name" (minLength 3) (contact_page no_options)).2.

(** A submit handler whose promise rejects with [e]. *)
Definition rejecting (e : value) : handler := λ _ _,
  {| asked := []; printed := []; settled := Throw e |}.

Definition with_handler (h : handler) : Options :=
  {| opt_onSubmit := Some h; opt_validateOnChange := None;
     opt_validateOnBlur := None; opt_resetOnSubmit := None |}.

(** The page with a handler that rejects with [e], once the user has typed
    a name. *)
Definition filled_page (e : value) : world :=
  (type_value "contact" "name" "Bob" (contact_page (with_handler (rejecting e)))).2.

(** *** Submission, in the words of the specification *)

(** The forms registered in [w] are still registered in [w'], with their
    handler, their options and their button, and the page has the same
    store. *)
Definition forms_kept (w w' : world) : Prop :=
  appState w' = appState w
  ∧ ∀ formId config, forms w !! formId = Some config →
      ∃ config', forms w' !! formId = Some config'
                 ∧ onSubmit config' = onSubmit config
                 ∧ resetOnSubmit config' = resetOnSubmit config
                 ∧ submitBtn config' = submitBtn config.

(** The effect on the store of [setFormLoading]. *)
Definition loading_effect (w : world) (loading : bool) : list effect :=
  if appState w then [SetLoading loading] else [].

(** The values of the fields of a form, as [getFormData] collects them. *)
Definition form_data (formId : string) (w : world) : list (string * string) :=
  match forms w !! formId with
  | Some config => (λ entry, (entry.1, el_value (element entry.2))) <$> fields config
  | None => []
  end.

End FormManager.

(** ** The static file servers

    [DevServer.handleRequest] of the monolithic template and the request
    handler of the MVC demo's [server.js].  A response is what [writeHead]
    and [end] have sent once the callbacks of [fs] have run; the body is
    the text as it goes on the wire.  The libraries of Node the handlers
    call ([url.parse], [path.join], [fs]) are parameters. *)

Module Server.

Record Request := {
  method : string;
  url : string;
}.

Record Response := {
  status : Z;
  headers : list (string * string);
  body : string;
}.

(** What the disk holds at a path: nothing, something [readFile] fails on
    (a directory, a file without read permission) with the message of the
    error, or a file and its content. *)
Inductive file :=
  | Missing
  | Unreadable (message : string)
  | Readable (content : string).

Definition newline : string := String "010" EmptyString.
Definition dquote : string := String "034" EmptyString.

Fixpoint spaces (n : nat) : string :=
  match n with
  | O => EmptyString
  | S n' => String " " (spaces n')
  end.

(** a line of a template literal: a line break, the indentation, the text *)
Definition line (indentation : nat) (text : string) : string :=
  newline +:+ spaces indentation +:+ text.

(** *** [path.extname] *)

(** the text after the last [sep] of [s], or all of [s] without one *)
Fixpoint after_last (sep : ascii) (s : string) : string :=
  match s with
  | EmptyString => EmptyString
  | String c rest =>
      if existsb (Ascii.eqb sep) (list_ascii_of_string rest) then after_last sep rest
      else if Ascii.eqb c sep then rest
      else s
  end.

(** [s] from its last dot on, when it has one after its first character *)
Fixpoint from_last_dot (first : bool) (s : string) : string :=
  match s with
  | EmptyString => EmptyString
  | String c rest =>
      if existsb (Ascii.eqb ".") (list_ascii_of_string rest) then from_last_dot false rest
      else if Ascii.eqb c "." && negb first then s
      else EmptyString
  end.

Fixpoint strip_trailing_slashes (s : string) : string :=
  match s with
  | EmptyString => EmptyString
  | String c rest =>
      if forallb (Ascii.eqb "/") (list_ascii_of_string s) then EmptyString
      else String c (strip_trailing_slashes rest)
  end.

Definition extname (path : string) : string :=
  let base := after_last "/" (strip_trailing_slashes path) in
  if String.eqb base ".." then EmptyString else from_last_dot true base.

(** [s.toLowerCase()] on the letters A to Z *)
Definition lower (c : ascii) : ascii :=
  let n := N_of_ascii c in
  if ((65 <=? n) && (n <=? 90))%N then ascii_of_N (n + 32) else c.

Fixpoint toLowerCase (s : string) : string :=
  match s with
  | EmptyString => EmptyString
  | String c rest => String (lower c) (toLowerCase rest)
  end.

(** [table[ext]] *)
Fixpoint table_get (ext : string) (table : list (string * string)) : option string :=
  match table with
  | [] => None
  | (k, v) :: rest => if String.eqb k ext then Some v else table_get ext rest
  end.

Section Disk.

(** [url.parse(target, true).pathname] of Node for a request target: a
    string or [null] ([None]), unless the parser throws. *)
Variable url_parse : string → outcome (option string).

(** [path.join] of Node, and the disk the server reads. *)
Variable path_join : string → string → string.
Variable disk : string → file.

(** *** The development server of the monolithic template *)

Definition mimeTypes : list (string * string) :=
  [(".html", "text/html"); (".css", "text/css"); (".js", "application/javascript");
   (".json", "application/json"); (".png", "image/png"); (".jpg", "image/jpeg");
   (".jpeg", "image/jpeg"); (".gif", "image/gif"); (".svg", "image/svg+xml");
   (".ico", "image/x-icon"); (".woff", "font/woff"); (".woff2", "font/woff2");
   (".ttf", "font/ttf"); (".eot", "font/eot")].

(** [getMimeType(filePath)] *)
Definition getMimeType (filePath : string) : string :=
  default "text/plain" (table_get (toLowerCase (extname filePath)) mimeTypes).

(** the headers set on every response before anything else *)
Definition development_headers : list (string * string) :=
  [("Access-Control-Allow-Origin", "*");
   ("Access-Control-Allow-Methods", "GET, POST, OPTIONS");
   ("Access-Control-Allow-Headers", "Content-Type");
   ("Cache-Control", "no-cache, no-store, must-revalidate");
   ("Pragma", "no-cache");
   ("Expires", "0")].

Definition not_found_page (pathname : string) : string :=
  line 20 "<html>"
  +:+ line 24 "<head><title>404 - Not Found</title></head>"
  +:+ line 24 "<body>"
  +:+ line 28 "<h1>404 - File Not Found</h1>"
  +:+ line 28 "<p>The requested file <code>" +:+ pathname +:+ "</code> was not found.</p>"
  +:+ line 28 "<p><a href=" +:+ dquote +:+ "/" +:+ dquote +:+ ">← Back to Home</a></p>"
  +:+ line 24 "</body>"
  +:+ line 20 "</html>"
  +:+ line 16 EmptyString.

Definition server_error_page (message : string) : string :=
  line 24 "<html>"
  +:+ line 28 "<head><title>500 - Server Error</title></head>"
  +:+ line 28 "<body>"
  +:+ line 32 "<h1>500 - Internal Server Error</h1>"
  +:+ line 32 "<p>Error reading file: " +:+ message +:+ "</p>"
  +:+ line 28 "</body>"
  +:+ line 24 "</html>"
  +:+ line 20 EmptyString.

(** [if (pathname === '/') { pathname = '/index.html'; }] *)
Definition resolved (pathname : string) : string :=
  if String.eqb pathname "/" then "/index.html" else pathname.

(** [handleRequest(req, res)] of a server rooted at [projectRoot]; the line
    [logRequest] prints for each response is left out.  The target is parsed
    before anything else; [path.join] throws on a pathname that is [null],
    and what the handler throws is [Throw]. *)
Definition handleRequest (projectRoot : string) (req : Request) : outcome Response :=
  match url_parse (url req) with
  | Throw e => Throw e
  | Normal pathname =>
      if String.eqb (method req) "OPTIONS" then
        Normal {| status := 200; headers := development_headers; body := EmptyString |}
      else
        match pathname with
        | None =>
            Throw (TypeError ("The " +:+ dquote +:+ "path" +:+ dquote +:+
                              " argument must be of type string. Received null"))
        | Some pathname =>
            let pathname := resolved pathname in
            let filePath := path_join projectRoot pathname in
            match disk filePath with
            | Missing =>                            (* fs.access reports an error *)
                Normal {| status := 404;
                          headers := development_headers ++ [("Content-Type", "text/html")];
                          body := not_found_page pathname |}
            | Unreadable message =>                 (* fs.readFile reports an error *)
                Normal {| status := 500;
                          headers := development_headers ++ [("Content-Type", "text/html")];
                          body := server_error_page message |}
            | Readable data =>
                Normal {| status := 200;
                          headers := development_headers
                                     ++ [("Content-Type", getMimeType filePath)];
                          body := data |}
            end
        end
  end.

(** *** The server of the MVC demo *)

Definition contentTypes : list (string * string) :=
  [(".html", "text/html; charset=utf-8");
   (".css", "text/css; charset=utf-8");
   (".js", "application/javascript; charset=utf-8")].

(** the callback of [http.createServer] in [server.js], for a server whose
    files are under [publicDir] *)
Definition server (publicDir : string) (req : Request) : Response :=
  let urlPath := if String.eqb (url req) "/" then "/index.html" else url req in
  let filePath := path_join publicDir urlPath in
  let ext := extname filePath in
  match disk filePath with
  | Readable content =>
      {| status := 200;
         headers := [("Content-Type",
                      default "application/octet-stream" (table_get ext contentTypes))];
         body := content |}
  | Missing | Unreadable _ =>                       (* if (err) *)
      {| status := 404;
         headers := [("Content-Type", "text/plain; charset=utf-8")];
         body := "Not found" |}
  end.

End Disk.

(** [needle] occurs in [text] *)
Definition contains (needle text : string) : Prop :=
  ∃ before after, text = before +:+ needle +:+ after.

(** *** Requests and disks to try the servers on *)

(** The path the MVC server looks up: the request target as it came. *)
Definition requested_target (req : Request) : string :=
  if String.eqb (url req) "/" then "/index.html" else url req.

(** The answer of the MVC server to every failed read. *)
Definition plain_not_found : Response :=
  {| status := 404;
     headers := [("Content-Type", "text/plain; charset=utf-8")];
     body := "Not found" |}.

(** A GET request. *)
Definition get (target : string) : Request := {| method := "GET"; url := target |}.

(** A parser to try the development server with: it answers the part of the
    target before the first question mark, which is the pathname of a target
    such as [/missing.css?v=2]. *)
Fixpoint before_query (target : string) : string :=
  match target with
  | EmptyString => EmptyString
  | String c rest => if Ascii.eqb c "?" then EmptyString else String c (before_query rest)
  end.

Definition sample_parser : string → outcome (option string) :=
  λ target, Normal (Some (before_query target)).

(** A disk with no file, and one where every path is a directory. *)
Definition empty_disk : string → file := λ _, Missing.
Definition directories_only : string → file :=
  λ _, Unreadable "EISDIR: illegal operation on a directory, read".

End Server.

(** ** The store: the methods that write nested objects *)

Module AppStateOps.

Import AppState.

(** [o[k] = v] on the own properties of an object: the value is replaced
    in place, or the property appended (a key that is an array index is
    kept where it was written, though an object enumerates it first). *)
Fixpoint obj_set (k : string) (v : value) (fields : list (string * value))
  : list (string * value) :=
  match fields with
  | [] => [(k, v)]
  | (k', v') :: rest =>
      if String.eqb k' k then (k, v) :: rest else (k', v') :: obj_set k v rest
  end.

(** [delete o[k]] *)
Definition obj_delete (k : string) (fields : list (string * value))
  : list (string * value) :=
  filter (λ kv, kv.1 ≠ k) fields.

(** The properties [{ ...v }] copies: those of an object, the elements of
    an array and the characters of a string under their indices, nothing
    for the other values. *)
Definition own_properties (v : value) : list (string * value) :=
  match v with
  | VObj fields => fields
  | VArr xs => imap (λ i x, (pretty i, x)) xs
  | VStr s => imap (λ i x, (pretty i, x)) (chars s)
  | _ => []
  end.

(** [{ ...target, ...source }] *)
Definition assign (target source : list (string * value)) : list (string * value) :=
  foldl (λ acc kv, obj_set kv.1 kv.2 acc) target source.

(** The last value a list of properties gives a key. *)
Fixpoint last_binding (k : string) (source : list (string * value)) : option value :=
  match source with
  | [] => None
  | (k', v) :: rest =>
      match last_binding k rest with
      | Some v' => Some v'
      | None => if String.eqb k' k then Some v else None
      end
  end.

(** [updateFormData(formId, data)] *)
Definition updateFormData (formId : string) (data : value) : eff world unit :=
  current ← gets (λ w, field "formData" (state w));
  entry ← lift (get_prop current formId);
  let formData :=
    obj_set formId (VObj (assign (own_properties entry) (own_properties data)))
            (own_properties current) in
  setState {[ "formData" := VObj formData ]}.

(** [clearFormData(formId)] *)
Definition clearFormData (formId : string) : eff world unit :=
  current ← gets (λ w, field "formData" (state w));
  let formData := obj_delete formId (own_properties current) in
  setState {[ "formData" := VObj formData ]}.

(** [updateStats(stats)] *)
Definition updateStats (stats : value) : eff world unit :=
  current ← gets (λ w, field "stats" (state w));
  setState {[ "stats" := VObj (assign (own_properties current) (own_properties stats)) ]}.

(** The store as the script leaves it: no middleware, or the two of a
    development host. *)
Definition shipped (w : world) : Prop :=
  middlewares w = [] ∨ middlewares w = [loggingMiddleware; validationMiddleware].

(** How many times a callback is subscribed, and how many of the calls of a
    trace are calls of it. *)
Definition subscriptions (callback : fn_ref) (w : world) : nat :=
  List.length (filter (λ sub, sub = callback) (subscribers w)).

Definition is_call_of (callback : fn_ref) (e : event) : bool :=
  match e with
  | SubscriberCalled cb _ _ => bool_decide (cb = callback)
  | MiddlewareCalled _ _ _ => false
  end.

Definition calls_of (callback : fn_ref) (es : list event) : list event :=
  filter (λ e, is_call_of callback e = true) es.

(** [n.id === id] for an element of the notification list and a number *)
Definition has_id (id : Z) (n : value) : bool :=
  match get_prop n "id" with
  | Normal (VNum id') => id' =? id
  | _ => false
  end.

(** A value whose properties can be read. *)
Definition readable (v : value) : bool :=
  match v with VUndefined | VNull => false | _ => true end.

(** What the validation middleware hands on. *)
Definition validated (updates : gmap string value) : gmap string value :=
  let section := field "currentSection" updates in
  if truthy section && negb (is_string section)
  then delete "currentSection" updates else updates.

(** The clock and the pending timers set at once. *)
Definition reclock (t : Z) (ts : list timer) (w : world) : world :=
  set_now t (set_timers ts w).

(** What the callback of a timer does to the world, the clock apart. *)
Definition run_timer (cb : timer_callback) (w : world) : world :=
  match run_callback cb w with
  | (Normal _, w') => w'
  | (Throw _, w') => print [(ErrorLevel, "Uncaught")] w'
  end.

(** The callbacks of a list of timers, run in order. *)
Definition run_timers (ts : list timer) (w : world) : world :=
  foldl (λ w t, run_timer (callback t) w) w ts.

(** The partial [restore] builds from a parsed object: the keys asked for
    that the object defines. *)
Definition restored (fields : list (string * value)) (keys : list string)
  : gmap string value :=
  foldl (λ stateToRestore key,
           if is_undefined (obj_get key fields) then stateToRestore
           else <[key := obj_get key fields]> stateToRestore)
        ∅ keys.

(** Whether the validation middleware of the store drops the value a
    partial document gives a key: the shipped store validates, when it has
    middlewares at all, and drops a section that is truthy and no string. *)
Definition rejected (w : world) (key : string) (v : value) : bool :=
  match middlewares w with
  | [] => false
  | _ => String.eqb key "currentSection" && truthy v && negb (is_string v)
  end.

(** The names an object answers for whatever its own properties are: the
    members of [Object.prototype]. *)
Definition Object_prototype : list string :=
  ["constructor"; "__defineGetter__"; "__defineSetter__"; "hasOwnProperty";
   "__lookupGetter__"; "__lookupSetter__"; "isPrototypeOf"; "propertyIsEnumerable";
   "toString"; "valueOf"; "__proto__"; "toLocaleString"].

Definition starts_with_digit (key : string) : bool :=
  match key with
  | String c _ => Json.is_digit c
  | EmptyString => false
  end.

(** The values of a JSON text that are in the program what they are here:
    the numbers are integers of at most [2^53] in magnitude, which no
    double rounds, and the keys of the objects do not start with a digit,
    so that they are enumerated in the order of the text. *)
Fixpoint exactly_read (v : value) : bool :=
  match v with
  | VNum n => Z.abs n <=? 2 ^ 53
  | VDec _ _ => false
  | VArr xs => forallb exactly_read xs
  | VObj fields =>
      forallb (λ kv, let '(k, x) := kv in negb (starts_with_digit k) && exactly_read x)
              fields
  | VUndefined | VNull | VBool _ | VStr _ => true
  end.

(** Whether a text has a backslash followed by the letter u, as every
    [\u] escape of a JSON string has: such an escape can name a code unit
    that is no character of the strings here. *)
Fixpoint has_unicode_escape (text : string) : bool :=
  match text with
  | String c ((String c' _) as rest) =>
      Ascii.eqb c Json.backslash && Ascii.eqb c' "u" || has_unicode_escape rest
  | _ => false
  end.

(** A stored text with [null] for the form data. *)
Definition null_formData_text : string :=
  "{" +:+ String Json.quote "formData" +:+ String Json.quote ":null}".

(** *** Stores to try the methods on *)

(** A new store on a production host, with nothing persisted. *)
Definition production_store : world := new_AppState "example.org" 0 ∅.

(** The store of a page whose storage holds [null] for the form data. *)
Definition null_formData_store : world :=
  boot "example.org" 0 {[ "appState" := null_formData_text ]}.

(** The production store after one notification. *)
Definition one_notification : world :=
  (addNotification (VStr "saved") None None production_store).2.

(** A stored text with a number for the section and an object for the user. *)
Definition numbered_section_text : string :=
  "{" +:+ String Json.quote "currentSection" +:+ String Json.quote ":7,"
      +:+ String Json.quote "user" +:+ String Json.quote ":{"
      +:+ String Json.quote "name" +:+ String Json.quote ":"
      +:+ String Json.quote "Ann" +:+ String Json.quote "}}".

(** The store of a development host before the script restores that text. *)
Definition development_store : world :=
  (use validationMiddleware
     (use loggingMiddleware
        (new_AppState "localhost" 0 {[ "appState" := numbered_section_text ]})).2).2.

(** The numbers [animateStats] writes. *)
Definition animated_stats : value :=
  VObj [("projects", VNum 100); ("components", VNum 50); ("satisfaction", VNum 99)].

End AppStateOps.

(** ** The form component: the other methods *)

Module FormManagerOps.

Import Regex FormManager.


(** The target of an [input] or [blur] event: whether it is an input, a
    textarea or a select, and its name. *)
Record Target := {
  is_control : bool;                  (* e.target.matches("input, textarea, select") *)
  target_name : string;
}.

(** the listener [bindFormEvents] adds for [input] events *)
Definition on_input (formId : string) (target : Target) : eff world unit :=
  found ← gets (λ w, forms w !! formId);
  match found with
  | None => mret tt
  | Some config =>
      if validateOnChange config && is_control target
      then validateField formId (target_name target);; mret tt
      else mret tt
  end.

(** the listener [bindFormEvents] adds for [blur] events *)
Definition on_blur (formId : string) (target : Target) : eff world unit :=
  found ← gets (λ w, forms w !! formId);
  match found with
  | None => mret tt
  | Some config =>
      if validateOnBlur config && is_control target
      then validateField formId (target_name target);; mret tt
      else mret tt
  end.

(** [destroy()] *)
Definition destroy : eff world unit := modify (set_forms ∅).

(** *** Words to state the properties in *)

(** The strings a regular expression denotes. *)
Inductive matches : regex → string → Prop :=
  | matches_eps : matches Eps EmptyString
  | matches_class p c : p c = true → matches (Class p) (String c EmptyString)
  | matches_cat r s a b : matches r a → matches s b → matches (Cat r s) (a +:+ b)
  | matches_alt_l r s a : matches r a → matches (Alt r s) a
  | matches_alt_r r s a : matches s a → matches (Alt r s) a
  | matches_star_nil r : matches (Star r) EmptyString
  | matches_star_cons r a b :
      matches r a → matches (Star r) b → matches (Star r) (a +:+ b).

(** A character that is neither white space nor an at sign. *)
Definition word_char (c : ascii) : bool := negb (is_space c || Ascii.eqb c "@").

(** A character of a phone number: a digit, white space, a hyphen or a
    parenthesis. *)
Definition phone_char (c : ascii) : bool :=
  (let n := N_of_ascii c in ((48 <=? n) && (n <=? 57))%N)
  || is_space c || Ascii.eqb c "-" || Ascii.eqb c "(" || Ascii.eqb c ")".

(** A non-empty string of such characters. *)
Definition word (s : string) : Prop :=
  s ≠ EmptyString ∧ Forall (λ c, word_char c = true) (list_ascii_of_string s).


(** What the validators of a field make of its value: the messages, or
    the exception one of them throws. *)
Definition verdicts (field : Field) : outcome (list string) :=
  run_validators (validators field) (el_value (element field)) (element field) [].

Definition field_errors (field : Field) : list string :=
  match verdicts field with
  | Normal errors => errors
  | Throw _ => []
  end.

(** A field after [validateField]. *)
Definition validated_field (field : Field) : Field :=
  let errors := field_errors field in
  let valid := bool_decide (List.length errors = 0%nat) in
  {| element := with_classList (mark valid (el_classList (element field))) (element field);
     validators := validators field;
     isValid := valid;
     errors := errors |}.







(** The names of the fields of a form, if it is registered. *)
Definition names_of (formId : string) (w : world) : option (list string) :=
  (λ config, (fields config).*1) <$> forms w !! formId.

(** *** The contact page, filled in *)

(** The field of the contact form when the user has typed [v]. *)
Definition name_field (v : string) (vs : list validator) : Field :=
  {| element := with_value v name_input; validators := vs;
     isValid := true; errors := [] |}.

(** The configuration of the contact form registered without options. *)
Definition contact_config (field : Field) : FormConfig :=
  {| fields := [("name", field)];
     onSubmit := defaultSubmitHandler true;
     validateOnChange := true; validateOnBlur := true; resetOnSubmit := true;
     submitBtn := submitButton contact_form |}.

(** The contact page once the user has typed a name. *)
Definition signed_page : world :=
  (type_value "contact" "name" "Bob" (contact_page no_options)).2.

(** [utils.isValidEmail(email)] of the application object, which tests
    the same regular expression as the [email] validator. *)
Definition isValidEmail (email : string) : bool := test emailRegex email.

End FormManagerOps.

(** ** The development server: choosing a port *)

Module DevServer.

Section Ports.

(** [await this.isPortAvailable(port)]: whether a server could listen on
    the port, or the exception [listen] throws for it. *)
Variable isPortAvailable : Z → outcome bool.

(** the [for] loop of [findAvailablePort], with [remaining] ports to try *)
Fixpoint find_port (port : Z) (remaining : nat) : outcome Z :=
  match remaining with
  | O => Throw (Error "No available ports found")
  | S remaining' =>
      match isPortAvailable port with
      | Throw e => Throw e
      | Normal true => Normal port
      | Normal false => find_port (port + 1) remaining'
      end
  end.

(** [findAvailablePort(preferredPort)] *)
Definition findAvailablePort (preferredPort : Z) : outcome Z :=
  find_port preferredPort 100.

End Ports.

End DevServer.

(** ** The notification component: [class NotificationManager]

    The element [#notification] of the page is its text and its class
    tokens; [setTimeout] is a list of pending timers, as in the store. *)

Module NotificationManager.

(** The element that shows the notification. *)
Record Container := {
  textContent : string;
  classList : list string;
}.

(** A notification of the store, as the manager reads it. *)
Record Notification := {
  id : Z;
  message : string;
  type : string;
  duration : Z;
}.

(** The callbacks [show] gives to [setTimeout]. *)
Inductive timer_callback :=
  | AddShow              (* () => { this.container.classList.add("show"); } *)
  | Hide.                (* () => { this.hide(); } *)

Record timer := {
  due : Z;
  callback : timer_callback;
}.

(** A call of [show], with the arguments as they were given. *)
Record show_call := {
  shown_message : string;
  shown_type : option string;
  shown_duration : option Z;
}.

Record world := {
  container : option Container;         (* document.getElementById("notification") *)
  activeNotifications : gset Z;
  now : Z;
  timers : list timer;
  console : list console_entry;
  shows : list show_call;               (* the calls of [show] so far *)
}.

Definition set_container (c : option Container) (w : world) : world :=
  {| container := c; activeNotifications := activeNotifications w; now := now w;
     timers := timers w; console := console w; shows := shows w |}.

Definition set_activeNotifications (ids : gset Z) (w : world) : world :=
  {| container := container w; activeNotifications := ids; now := now w;
     timers := timers w; console := console w; shows := shows w |}.

Definition set_now (t : Z) (w : world) : world :=
  {| container := container w; activeNotifications := activeNotifications w; now := t;
     timers := timers w; console := console w; shows := shows w |}.

Definition set_timers (ts : list timer) (w : world) : world :=
  {| container := container w; activeNotifications := activeNotifications w;
     now := now w; timers := ts; console := console w; shows := shows w |}.

Definition print (entries : list console_entry) (w : world) : world :=
  {| container := container w; activeNotifications := activeNotifications w;
     now := now w; timers := timers w; console := console w ++ entries;
     shows := shows w |}.

Definition record_show (call : show_call) (w : world) : world :=
  {| container := container w; activeNotifications := activeNotifications w;
     now := now w; timers := timers w; console := console w;
     shows := shows w ++ [call] |}.

(** The class tokens of a string: its parts between ASCII white space. *)
Definition is_token_space (c : ascii) : bool :=
  let n := N_of_ascii c in
  ((n =? 9) || (n =? 10) || (n =? 12) || (n =? 13) || (n =? 32))%N.

Fixpoint tokens_from (current : string) (s : string) : list string :=
  match s with
  | EmptyString => if String.eqb current EmptyString then [] else [current]
  | String c rest =>
      if is_token_space c
      then (if String.eqb current EmptyString then [] else [current])
           ++ tokens_from EmptyString rest
      else tokens_from (current +:+ String c EmptyString) rest
  end.

Definition tokens (s : string) : list string := tokens_from EmptyString s.

(** [classList.add(token)] and [classList.remove(...tokens)] *)
Definition classList_add (token : string) (classes : list string) : list string :=
  if bool_decide (token ∈ classes) then classes else classes ++ [token].

Definition classList_remove (removed : list string) (classes : list string)
  : list string :=
  filter (λ c, c ∉ removed) classes.

Definition setTimeout (cb : timer_callback) (delay : Z) : eff world unit :=
  modify (λ w, set_timers
                 (timers w ++ [{| due := now w + AppState.timer_delay delay;
                                  callback := cb |}]) w).

(** [clear()] *)
Definition clear : eff world unit :=
  modify (λ w,
    match container w with
    | Some c =>
        set_container
          (Some {| textContent := EmptyString;
                   classList := classList_remove
                                  ["show"; "success"; "error"; "warning"; "info"]
                                  (classList c) |}) w
    | None => w
    end).

(** [hide()] *)
Definition hide : eff world unit :=
  modify (λ w,
    match container w with
    | Some c =>
        set_container
          (Some {| textContent := textContent c;
                   classList := classList_remove ["show"] (classList c) |}) w
    | None => w
    end).

(** [show(message, type = "info", duration = this.defaultDuration)] *)
Definition show (message : string) (type : option string) (duration : option Z)
  : eff world unit :=
  modify (record_show {| shown_message := message; shown_type := type;
                         shown_duration := duration |});;
  found ← gets container;
  match found with
  | None => modify (print [(WarnLevel, "Notification container not found")])
  | Some _ =>
      clear;;
      modify (set_container
                (Some {| textContent := message;
                         classList := tokens ("notification " +:+ default "info" type) |}));;
      setTimeout AddShow 10;;
      setTimeout Hide (default 3000 duration)
  end.

(** [success], [error], [warning] and [info] *)
Definition success (message : string) (duration : option Z) : eff world unit :=
  show message (Some "success") duration.

Definition error (message : string) (duration : option Z) : eff world unit :=
  show message (Some "error") (Some (default 5000 duration)).

Definition warning (message : string) (duration : option Z) : eff world unit :=
  show message (Some "warning") duration.

Definition info (message : string) (duration : option Z) : eff world unit :=
  show message (Some "info") duration.

(** the body of the first loop of [handleNotifications] *)
Definition show_new (prevIds : list Z) (notification : Notification)
  : eff world unit :=
  active ← gets activeNotifications;
  if negb (bool_decide (id notification ∈ prevIds))
     && negb (bool_decide (id notification ∈ active))
  then
    show (message notification) (Some (type notification))
         (Some (duration notification));;
    modify (λ w, set_activeNotifications
                   ({[ id notification ]} ∪ activeNotifications w) w)
  else mret tt.

(** the body of its second loop *)
Definition forget_old (currentIds : list Z) (id : Z) : eff world unit :=
  if negb (bool_decide (id ∈ currentIds))
  then modify (λ w, set_activeNotifications (activeNotifications w ∖ {[ id ]}) w)
  else mret tt.

(** [handleNotifications(notifications, prevNotifications)];
    [prevNotifications] is [None] when the previous document has no list. *)
Definition handleNotifications (notifications : list Notification)
    (prevNotifications : option (list Notification)) : eff world unit :=
  let prevIds : list Z := id <$> default [] prevNotifications in
  let currentIds : list Z := id <$> notifications in
  forEach notifications (show_new prevIds);;
  forEach prevIds (forget_old currentIds).

(** [destroy()], the store's side of [unsubscribe] apart *)
Definition destroy : eff world unit :=
  clear;;
  modify (set_activeNotifications ∅).

(** *** Timers *)

Definition run_callback (cb : timer_callback) : eff world unit :=
  match cb with
  | AddShow =>
      modify (λ w,
        match container w with
        | Some c =>
            set_container
              (Some {| textContent := textContent c;
                       classList := classList_add "show" (classList c) |}) w
        | None => w
        end)
  | Hide => hide
  end.

Fixpoint insert_by_due (t : timer) (sorted : list timer) : list timer :=
  match sorted with
  | [] => [t]
  | t' :: rest =>
      if due t' <=? due t then t' :: insert_by_due t rest else t :: t' :: rest
  end.

Definition by_due (ts : list timer) : list timer :=
  foldr (λ t sorted, insert_by_due t sorted) [] (reverse ts).

Definition fire (t : timer) (w : world) : world :=
  (run_callback (callback t) (set_now (Z.max (now w) (due t)) w)).2.

(** The event loop while [elapsed] milliseconds pass: the due timers fire,
    earliest first and in the order they were set when due together. *)
Definition advance (elapsed : Z) (w : world) : world :=
  let target := now w + elapsed in
  let fired := by_due (filter (λ t, due t ≤ target) (timers w)) in
  let pending := filter (λ t, ¬ due t ≤ target) (timers w) in
  set_now target (foldl (λ w t, fire t w) (set_timers pending w) fired).

(** [new NotificationManager()] on a page with the element, or without *)
Definition new_NotificationManager (element : option Container) (clock : Z) : world :=
  {| container := element; activeNotifications := ∅; now := clock; timers := [];
     console := []; shows := [] |}.

(** *** Words to state the properties in *)

(** Is the notification visible? *)
Definition visible (w : world) : bool :=
  match container w with
  | Some c => bool_decide ("show" ∈ classList c)
  | None => false
  end.

(** The call of [show] that [handleNotifications] makes for a notification. *)
Definition show_of (n : Notification) : show_call :=
  {| shown_message := message n; shown_type := Some (type n);
     shown_duration := Some (duration n) |}.

(** The world after [show] on a page that has the element. *)
Definition after_show (message : string) (type : option string)
    (duration : option Z) (w : world) : world :=
  {| container :=
       Some {| textContent := message;
               classList := tokens ("notification " +:+ default "info" type) |};
     activeNotifications := activeNotifications w;
     now := now w;
     timers := timers w
               ++ [{| due := now w + AppState.timer_delay 10; callback := AddShow |};
                   {| due := now w + AppState.timer_delay (default 3000 duration);
                      callback := Hide |}];
     console := console w;
     shows := shows w ++ [{| shown_message := message; shown_type := type;
                             shown_duration := duration |}] |}.

(** The element of the page before any notification. *)
Definition empty_container : Container :=
  {| textContent := EmptyString; classList := ["notification"] |}.

End NotificationManager.

(** ** The notification component as a subscriber of the store

    The constructor of [NotificationManager] subscribes
    [(state, prevState) => this.handleNotifications(state.notifications,
    prevState.notifications)].  The manager reads the records that
    [addNotification] writes with a text for message; on a document whose
    notification list holds anything else the callback is left undefined
    here. *)

Module NotificationFeed.

Import NotificationManager.

(** A record of the notification list, as the manager reads it. *)
Definition to_notification (v : value) : option Notification :=
  match v with
  | VObj fields =>
      match obj_get "id" fields, obj_get "message" fields,
            obj_get "type" fields, obj_get "duration" fields with
      | VNum i, VStr m, VStr t, VNum d =>
          Some {| id := i; message := m; type := t; duration := d |}
      | _, _, _, _ => None
      end
  | _ => None
  end.

(** [state.notifications] of a document: [Some None] when the document
    has no such key, [Some (Some ns)] for a list of records. *)
Definition notifications_of (doc : gmap string value)
  : option (option (list Notification)) :=
  match AppState.field "notifications" doc with
  | VUndefined => Some None
  | VArr xs => Some <$> mapM to_notification xs
  | _ => None
  end.

(** The callback the constructor subscribes, called with a new and a
    previous document. *)
Definition on_state (new prevState : gmap string value)
  : option (eff world unit) :=
  match notifications_of new, notifications_of prevState with
  | Some (Some notifications), Some prevNotifications =>
      Some (handleNotifications notifications prevNotifications)
  | _, _ => None
  end.

(** The calls the store has made to the callback, handed to the manager
    one after the other. *)
Fixpoint deliver (callback : AppState.fn_ref) (es : list AppState.event)
    (w : world) : option (outcome unit * world) :=
  match es with
  | [] => Some (Normal tt, w)
  | AppState.SubscriberCalled cb new prevState :: rest =>
      if bool_decide (cb = callback) then
        match on_state new prevState with
        | Some run =>
            match run w with
            | (Normal _, w') => deliver callback rest w'
            | (Throw e, w') => Some (Throw e, w')
            end
        | None => None
        end
      else deliver callback rest w
  | AppState.MiddlewareCalled _ _ _ :: rest => deliver callback rest w
  end.

(** *** A page to try the feed on *)

(** A production store to which the manager has subscribed its callback,
    and the same store once a first notification is listed. *)
Definition subscribed_store : AppState.world :=
  (AppState.subscribe 7%nat AppStateOps.production_store).2.

Definition listed_store : AppState.world :=
  (AppState.addNotification (VStr "first") None None subscribed_store).2.

End NotificationFeed.

(** ** The counter of the MVC demo

    [CounterModel], [CounterView] and [CounterController] of [app.js].
    The count is a JavaScript number: adding one is exact up to [2^53] and
    leaves the number as it is from there on. *)

Module Counter.

(** The listeners the view can give to the button. *)
Inductive listener :=
  | HandleIncrement.      (* this.handleIncrement.bind(this) *)

Record world := {
  count : Z;                          (* model.count *)
  countElement : string;              (* the text of #count-value *)
  incrementButton : list listener;    (* the click listeners of #increment-btn *)
}.

(** [x + 1] on a number that holds a non-negative integer *)
Definition add_one (x : Z) : Z := if x <? 2 ^ 53 then x + 1 else x.

(** [CounterModel.increment()] and [getCount()] *)
Definition increment : eff world unit :=
  modify (λ w, {| count := add_one (count w); countElement := countElement w;
                  incrementButton := incrementButton w |}).

Definition getCount : eff world Z := gets count.

(** [CounterView.bindIncrement(handler)] and [render(count)] *)
Definition bindIncrement (handler : listener) : eff world unit :=
  modify (λ w, {| count := count w; countElement := countElement w;
                  incrementButton := incrementButton w ++ [handler] |}).

Definition render (count : Z) : eff world unit :=
  modify (λ w, {| count := Counter.count w; countElement := pretty count;
                  incrementButton := incrementButton w |}).

(** [CounterController.handleIncrement()] *)
Definition handleIncrement : eff world unit :=
  increment;;
  count ← getCount;
  render count.

(** the constructor of [CounterController] *)
Definition constructor : eff world unit :=
  bindIncrement HandleIncrement;;
  count ← getCount;
  render count.

(** [new CounterController(new CounterModel(), new CounterView())] on a
    page whose element reads [text] *)
Definition new_CounterController (text : string) : world :=
  (constructor {| count := 0; countElement := text; incrementButton := [] |}).2.

Definition run_listener (l : listener) : eff world unit :=
  match l with
  | HandleIncrement => handleIncrement
  end.

(** A click on the button: its listeners run in the order they were added. *)
Definition click : eff world unit :=
  listeners ← gets incrementButton;
  forEach listeners run_listener.

(** [n] clicks, one after the other *)
Fixpoint clicks (n : nat) : eff world unit :=
  match n with
  | O => mret tt
  | S n' => click;; clicks n'
  end.

End Counter.

(** ** The global notification functions

    [showNotification] and its four shorthands, which the form manager
    calls.  The page is what they look for on [window]: the store, the
    notification manager, and the console as the last resort. *)

Module Notify.

Record page := {
  appState : option AppState.world;                     (* window.appState *)
  notificationManager : option NotificationManager.world; (* window.notificationManager *)
  console : list console_entry;
}.

Section Globals.

(** [s.toUpperCase()] *)
Variable toUpperCase : string → string.

(** [showNotification(message, type = "info", duration = 3000)] *)
Definition showNotification (message : string) (type : option string)
    (duration : option Z) : eff page unit :=
  let type := default "info" type in
  let duration := default 3000 duration in
  λ p,
    match appState p with
    | Some store =>
        let (result, store') :=
          AppState.addNotification (VStr message) (Some type) (Some duration) store in
        (result, {| appState := Some store';
                    notificationManager := notificationManager p;
                    console := console p |})
    | None =>
        match notificationManager p with
        | Some manager =>
            let (result, manager') :=
              NotificationManager.show message (Some type) (Some duration) manager in
            (result, {| appState := None; notificationManager := Some manager';
                        console := console p |})
        | None =>
            (Normal tt,
             {| appState := None; notificationManager := None;
                console := console p
                           ++ [(LogLevel, toUpperCase type +:+ ": " +:+ message)] |})
        end
    end.

(** [duration || 5000] for a number or [undefined] *)
Definition or_five_seconds (duration : option Z) : Z :=
  match duration with
  | Some d => if d =? 0 then 5000 else d
  | None => 5000
  end.

Definition showSuccess (message : string) (duration : option Z) : eff page unit :=
  showNotification message (Some "success") duration.

Definition showError (message : string) (duration : option Z) : eff page unit :=
  showNotification message (Some "error") (Some (or_five_seconds duration)).

Definition showWarning (message : string) (duration : option Z) : eff page unit :=
  showNotification message (Some "warning") duration.

Definition showInfo (message : string) (duration : option Z) : eff page unit :=
  showNotification message (Some "info") duration.

End Globals.

(** A page with a store and nothing else. *)
Definition page_of (store : AppState.world) : page :=
  {| appState := Some store; notificationManager := None; console := [] |}.

End Notify.

(** * Properties of [JSON.parse] *)

Module JsonFacts.

Import Json.
Local Open Scope nat_scope.

Lemma skip_ws_length s : String.length (skip_ws s) ≤ String.length s.
Proof. induction s as [|c s IH]; cbn; [lia|]. destruct (is_ws c); cbn; lia. Qed.

Lemma read_digits_length s : ∀ acc count m k r,
  read_digits acc count s = (m, k, r) → String.length r ≤ String.length s.
Proof.
  induction s as [|c s IH]; intros acc count m k r H; cbn in H.
  - by inversion H.
  - destruct (is_digit c).
    + apply IH in H. cbn. lia.
    + by inversion H.
Qed.

Lemma parse_sign_length s negative r :
  parse_sign s = (negative, r) → String.length r ≤ String.length s.
Proof.
  destruct s as [|c s]; cbn; [by inversion 1|].
  destruct (c =? "-")%char; inversion 1; cbn; lia.
Qed.

Lemma parse_integer_length s m r :
  parse_integer s = Some (m, r) → String.length r < String.length s.
Proof.
  destruct s as [|c s]; cbn; [done|].
  destruct (c =? "0")%char; [inversion 1; lia|].
  destruct (is_digit c); [|done].
  destruct (read_digits (digit_of c) 1 s) as [[m' k] r'] eqn:Hd.
  inversion 1; subst. apply read_digits_length in Hd. lia.
Qed.

Lemma parse_fraction_length s m m' k r :
  parse_fraction m s = Some (m', k, r) → String.length r ≤ String.length s.
Proof.
  destruct s as [|c s]; cbn; [by inversion 1|].
  destruct (c =? ".")%char; [|by inversion 1].
  destruct (read_digits m 0 s) as [[m'' k'] r'] eqn:Hd.
  destruct k'; [done|]. inversion 1; subst. apply read_digits_length in Hd. lia.
Qed.

Lemma parse_exponent_length s e r :
  parse_exponent s = Some (e, r) → String.length r ≤ String.length s.
Proof.
  destruct s as [|c s]; cbn; [by inversion 1|].
  destruct ((c =? "e")%char || (c =? "E")%char); [|by inversion 1].
  destruct s as [|c' s'].
  - cbn. done.
  - destruct (c' =? "-")%char; [|destruct (c' =? "+")%char].
    + destruct (read_digits 0 0 s') as [[e' k] r'] eqn:Hd.
      destruct k; [done|]. inversion 1; subst. apply read_digits_length in Hd. cbn. lia.
    + destruct (read_digits 0 0 s') as [[e' k] r'] eqn:Hd.
      destruct k; [done|]. inversion 1; subst. apply read_digits_length in Hd. cbn. lia.
    + destruct (read_digits 0 0 (String c' s')) as [[e' k] r'] eqn:Hd.
      destruct k; [done|]. inversion 1; subst. apply read_digits_length in Hd. cbn in *. lia.
Qed.

Lemma parse_number_length s v r :
  parse_number s = Some (v, r) → String.length r < String.length s.
Proof.
  unfold parse_number. destruct (parse_sign s) as [negative s1] eqn:Hs.
  apply parse_sign_length in Hs.
  destruct (parse_integer s1) as [[m r1]|] eqn:Hi; [|done]. cbn.
  apply parse_integer_length in Hi.
  destruct (parse_fraction m r1) as [[[m' k] r2]|] eqn:Hf; [|done]. cbn.
  apply parse_fraction_length in Hf.
  destruct (parse_exponent r2) as [[e r3]|] eqn:He; [|done]. cbn.
  apply parse_exponent_length in He.
  inversion 1; subst. lia.
Qed.

Lemma prepend_length c o text r :
  prepend c o = Some (text, r) → ∃ text', o = Some (text', r).
Proof. destruct o as [[t r']|]; cbn; [|done]. inversion 1; subst. eauto. Qed.

Lemma parse_chars_length s : ∀ st text r,
  parse_chars st s = Some (text, r) → String.length r < String.length s.
Proof.
  induction s as [|c s IH]; intros st text r H; cbn in H; [done|].
  cbn [String.length].
  assert (Hrec : ∀ st' t', parse_chars st' s = Some (t', r) →
                           String.length r < S (String.length s)).
  { intros st' t' H'. apply IH in H'. lia. }
  destruct st as [| |todo code].
  - repeat case_match; simplify_eq; try lia;
      try (apply prepend_length in H as [? H]); eauto.
  - repeat case_match; simplify_eq; try lia;
      try (apply prepend_length in H as [? H]); eauto.
  - repeat case_match; simplify_eq; try lia;
      try (apply prepend_length in H as [? H]); eauto.
Qed.

Lemma strip_prefix_length p : ∀ s r,
  strip_prefix p s = Some r → String.length r + String.length p = String.length s.
Proof.
  induction p as [|a p IH]; intros s r H; cbn in H.
  - inversion H. cbn. lia.
  - destruct s as [|b s]; [done|]. destruct (a =? b)%char; [|done].
    apply IH in H. cbn. lia.
Qed.

Lemma literal_or_number_length s v r :
  literal_or_number s = Parsed v r → String.length r < String.length s.
Proof.
  unfold literal_or_number.
  destruct (strip_prefix "true" s) eqn:H1.
  { inversion 1; subst. apply strip_prefix_length in H1. cbn in H1. lia. }
  destruct (strip_prefix "false" s) eqn:H2.
  { inversion 1; subst. apply strip_prefix_length in H2. cbn in H2. lia. }
  destruct (strip_prefix "null" s) eqn:H3.
  { inversion 1; subst. apply strip_prefix_length in H3. cbn in H3. lia. }
  destruct (parse_number s) as [[v' r']|] eqn:H4; [|done].
  inversion 1; subst. by apply parse_number_length in H4.
Qed.


Ltac lengths IHv IHe IHm :=
  repeat match goal with
  | H : skip_ws ?a = _ |- _ =>
      let L := fresh "L" in
      pose proof (skip_ws_length a) as L; rewrite H in L; clear H
  | H : parse_chars _ _ = Some _ |- _ => apply parse_chars_length in H
  | H : literal_or_number _ = Parsed _ _ |- _ => apply literal_or_number_length in H
  | H : parse_value _ _ = Parsed _ _ |- _ => apply IHv in H
  | H : parse_elements _ _ = Parsed _ _ |- _ => apply IHe in H
  | H : parse_members _ _ = Parsed _ _ |- _ => apply IHm in H
  end;
  cbn [String.length] in *.

(** A parser that succeeds has read at least one character. *)
Lemma parse_length fuel :
  (∀ s v r, parse_value fuel s = Parsed v r → String.length r < String.length s)
  ∧ (∀ s xs r, parse_elements fuel s = Parsed xs r → String.length r < String.length s)
  ∧ (∀ s fs r, parse_members fuel s = Parsed fs r → String.length r < String.length s).
Proof.
  induction fuel as [|fuel (IHv & IHe & IHm)]; [done|].
  split_and!; intros s ? r H; cbn [parse_value parse_elements parse_members] in H;
    repeat case_match; simplify_eq; lengths IHv IHe IHm; lia.
Qed.

Lemma literal_or_number_fuel s : literal_or_number s ≠ OutOfFuel.
Proof. unfold literal_or_number. by repeat case_match. Qed.

(** With more than two units of fuel per character the parsers do not
    run out. *)
Lemma parse_fuel fuel :
  (∀ s, 2 * String.length s < fuel → parse_value fuel s ≠ OutOfFuel)
  ∧ (∀ s, 2 * String.length s + 1 < fuel → parse_elements fuel s ≠ OutOfFuel)
  ∧ (∀ s, 2 * String.length s + 1 < fuel → parse_members fuel s ≠ OutOfFuel).
Proof.
  induction fuel as [|fuel (IHv & IHe & IHm)]; [split_and!; intros; lia|].
  destruct (parse_length fuel) as (Lv & Le & Lm).
  split_and!; intros s Hfuel H; cbn [parse_value parse_elements parse_members] in H;
    repeat case_match; simplify_eq;
    repeat match goal with
    | H : literal_or_number _ = OutOfFuel |- _ => by apply literal_or_number_fuel in H
    | H : parse_value fuel ?a = OutOfFuel |- _ => apply IHv in H; [done|]
    | H : parse_elements fuel ?a = OutOfFuel |- _ => apply IHe in H; [done|]
    | H : parse_members fuel ?a = OutOfFuel |- _ => apply IHm in H; [done|]
    end;
    lengths Lv Le Lm; try lia.
Qed.

(** [JSON_parse] throws only on a text that is not JSON: the fuel it gives
    the parser is enough for every text. *)
Lemma JSON_parse_fuel text :
  parse_value (2 * String.length text + 1) text ≠ OutOfFuel.
Proof. apply parse_fuel. lia. Qed.

End JsonFacts.

(** * Properties of the store *)

Module AppStateFacts.

Import AppState.

(** Unfolds the operations of the monad in the goal. *)
Ltac run :=
  unfold mbind, mret, eff_bind, eff_ret, gets, modify, get, lift, throw,
         try_catch, try_finally;
  cbn [fst snd].

Lemma after_nothing w : after (state w) [] [] w = w.
Proof. destruct w. unfold after. cbn. by rewrite !app_nil_r. Qed.

Lemma after_after new new' out out' es es' w :
  after new' out' es' (after new out es w) = after new' (out ++ out') (es ++ es') w.
Proof. unfold after. cbn. by rewrite !app_assoc. Qed.

Lemma apply_middlewares_run ms prevState : ∀ pending w,
  apply_middlewares ms prevState pending w
  = (Normal (final_partial ms prevState pending),
     after (state w) (middleware_output ms prevState pending)
           (middleware_calls ms prevState pending) w).
Proof.
  induction ms as [|m ms IH]; intros pending w; cbn [apply_middlewares].
  - run. cbn. by rewrite after_nothing.
  - run. rewrite IH. cbn [final_partial middleware_calls middleware_output].
    f_equal. destruct w. unfold after, handed_on, default. cbn.
    by rewrite <- !app_assoc.
Qed.

Lemma forEach_callbacks_run prevState subs : ∀ w,
  forEach subs (λ callback,
    current ← gets state;
    modify (record (SubscriberCalled callback current prevState))) w
  = (Normal tt, after (state w) [] (subscriber_calls subs (state w) prevState) w).
Proof.
  induction subs as [|cb subs IH]; intros w; cbn [forEach].
  - run. by rewrite after_nothing.
  - run. rewrite IH. f_equal. destruct w. unfold after, subscriber_calls. cbn.
    by rewrite <- !app_assoc, !app_nil_r.
Qed.

Lemma notify_run prevState w :
  notify prevState w
  = (Normal tt,
     after (state w) [] (subscriber_calls (subscribers w) (state w) prevState) w).
Proof. unfold notify. run. apply forEach_callbacks_run. Qed.

Lemma setState_run updates w : setState updates w = (Normal tt, updated updates w).
Proof.
  unfold setState. run. rewrite apply_middlewares_run.
  rewrite notify_run. unfold isDevelopment, updated, update_log, development.
  run. destruct w as [s subs ms host t ts ls con cs]. cbn.
  destruct (String.eqb host "localhost" || String.eqb host "127.0.0.1"
            || String.eqb host EmptyString); cbn;
    unfold after, print; cbn;
    repeat rewrite app_nil_r; repeat rewrite <- app_assoc; reflexivity.
Qed.

(** C1. [setState(partial)] applies the middlewares in registration order,
    each called with the document before the update and the partial pending
    at its turn, a middleware that returns nothing leaving the pending
    partial as it is; the partial that results is merged key by key onto
    the document; then every subscriber is called, in subscription order,
    with the new document and the document before the update. *)
Theorem setState_pipeline (updates : gmap string value) (w : world) :
  let prev := state w in
  let final := final_partial (middlewares w) prev updates in
  ∃ w', setState updates w = (Normal tt, w')
    ∧ state w' = final ∪ prev
    ∧ (∀ key, state w' !! key
              = match final !! key with Some v => Some v | None => prev !! key end)
    ∧ calls w' = calls w
                 ++ middleware_calls (middlewares w) prev updates
                 ++ subscriber_calls (subscribers w) (state w') prev.
Proof.
  intros prev final. exists (updated updates w). rewrite setState_run.
  repeat split.
  intros key. cbn. rewrite lookup_union. fold prev final.
  by destruct (final !! key), (prev !! key).
Qed.

(** A middleware registered by [use] comes after those registered before. *)
Lemma use_appends m w : middlewares (use m w).2 = middlewares w ++ [m].
Proof. reflexivity. Qed.

(** *** Subscriptions *)

Lemma elem_of_subscriber_calls callback new prev subs s p :
  SubscriberCalled callback s p ∈ subscriber_calls subs new prev → callback ∈ subs.
Proof.
  unfold subscriber_calls. rewrite list_elem_of_fmap.
  intros (cb & Heq & Hin). by inversion Heq; subst.
Qed.

Lemma not_elem_of_middleware_calls callback s p ms prev : ∀ pending,
  SubscriberCalled callback s p ∉ middleware_calls ms prev pending.
Proof.
  induction ms as [|m ms IH]; intros pending; cbn.
  - apply not_elem_of_nil.
  - rewrite not_elem_of_cons. split; [discriminate | apply IH].
Qed.

(** C3, as the code has it. The function [subscribe] returns removes every
    subscription of its callback: after a callback is subscribed twice and
    one of the two functions is called, no subscription of the callback is
    left, the next update does not call it, and the subscriptions of the
    other callbacks stay as they were, in their order. *)
Theorem unsubscribe_removes_every_subscription
    (callback : fn_ref) (first : bool) (w : world) :
  let w1 := (subscribe_twice_unsubscribe_once callback first w).2 in
  subscribers w1 = filter (λ sub, sub ≠ callback) (subscribers w)
  ∧ (callback ∉ subscribers w1)
  ∧ ∀ updates, ∃ new_calls,
      calls (setState updates w1).2 = calls w1 ++ new_calls
      ∧ ∀ s p, SubscriberCalled callback s p ∉ new_calls.
Proof.
  intros w1.
  assert (Hsubs : subscribers w1 = filter (λ sub, sub ≠ callback) (subscribers w)).
  { unfold w1, subscribe_twice_unsubscribe_once, subscribe, unsubscribe. run.
    destruct first; cbn; rewrite !filter_app; cbn;
      rewrite !decide_False by (intros H; by apply H); by rewrite !app_nil_r. }
  assert (Hgone : callback ∉ subscribers w1).
  { rewrite Hsubs, list_elem_of_filter. intros [H _]. by apply H. }
  split; [done|]. split; [done|].
  intros updates. rewrite setState_run.
  eexists. split; [reflexivity|].
  intros s p. rewrite elem_of_app. intros [H|H].
  - by apply not_elem_of_middleware_calls in H.
  - by apply elem_of_subscriber_calls in H.
Qed.

(** C3, counterexample. A callback subscribed twice is not called any more
    once one of its two subscriptions is cancelled: the other subscription
    is gone with it. *)
Lemma second_subscription_does_not_survive :
  let w := new_AppState "example.org" 0 ∅ in
  let w1 := (subscribe_twice_unsubscribe_once 7%nat true w).2 in
  subscribers w1 = []
  ∧ calls (setLoading (VBool true) w1).2 = []
  ∧ ¬ ∃ s p, SubscriberCalled 7%nat s p ∈ calls (setLoading (VBool true) w1).2.
Proof.
  split_and!; [reflexivity | reflexivity |].
  intros (s & p & H). by apply elem_of_nil in H.
Qed.

(** *** Sequences of updates *)

Lemma merge_all_lookup key partials : ∀ doc,
  merge_all doc partials !! key
  = match last_write key partials with Some v => Some v | None => doc !! key end.
Proof.
  induction partials as [|partial rest IH]; intros doc; cbn; [done|].
  unfold merge_all in IH. rewrite IH, lookup_union.
  destruct (last_write key rest); [done|].
  by destruct (partial !! key), (doc !! key).
Qed.

Lemma setStates_run partials : ∀ w,
  middlewares w = [] →
  ∃ w', forEach partials setState w = (Normal tt, w')
        ∧ state w' = merge_all (state w) partials.
Proof.
  induction partials as [|partial rest IH]; intros w Hms; cbn [forEach].
  - by exists w.
  - run. rewrite setState_run.
    destruct (IH (updated partial w)) as (w' & Hrun & Hstate); [done|].
    exists w'. split; [done|]. rewrite Hstate. cbn. by rewrite Hms.
Qed.

(** C5. With no middleware registered, the document after a sequence of
    [setState] calls is the left-to-right composition of the shallow merges
    of the partials onto the initial document: every key holds the last
    value written to it, or its initial value when no partial wrote it. *)
Theorem setState_sequence_last_write_wins
    (partials : list (gmap string value)) (w : world) :
  middlewares w = [] →
  ∃ w', forEach partials setState w = (Normal tt, w')
    ∧ state w' = merge_all (state w) partials
    ∧ ∀ key, state w' !! key
             = match last_write key partials with
               | Some v => Some v
               | None => state w !! key
               end.
Proof.
  intros Hms. destruct (setStates_run partials w Hms) as (w' & Hrun & Hstate).
  exists w'. split; [done|]. split; [done|].
  intros key. rewrite Hstate. apply merge_all_lookup.
Qed.

Lemma setState_sequence_last_write_wins_witness :
  middlewares (new_AppState "example.org" 0 ∅) = []
  ∧ ∃ w', forEach three_updates setState (new_AppState "example.org" 0 ∅)
          = (Normal tt, w')
      ∧ state w' = merge_all (state (new_AppState "example.org" 0 ∅)) three_updates
      ∧ ∀ key, state w' !! key
               = match last_write key three_updates with
                 | Some v => Some v
                 | None => state (new_AppState "example.org" 0 ∅) !! key
                 end.
Proof.
  split; [reflexivity|].
  apply (setState_sequence_last_write_wins three_updates
           (new_AppState "example.org" 0 ∅)).
  reflexivity.
Defined.

(** *** Notifications and their timers *)

(** C6, at the failing input. Three notifications added at one reading of
    the clock share the identifier that reading gives them; when the first
    timer fires, 100 milliseconds later, [removeNotification] removes all
    three, so that after 150 milliseconds none is left, and the two timers
    still pending have nothing to remove. *)
Theorem notifications_of_one_clock_reading_leave_together :
  let w := (add_three (new_AppState "example.org" 1000 ∅)).2 in
  field "notifications" (state w)
  = VArr [notification_record 1000 (VStr "first") "info" 100;
          notification_record 1000 (VStr "second") "info" 200;
          notification_record 1000 (VStr "third") "info" 300]
  ∧ timers w = [ {| due := 1100; callback := AutoRemove 1000 |};
                 {| due := 1200; callback := AutoRemove 1000 |};
                 {| due := 1300; callback := AutoRemove 1000 |} ]
  ∧ field "notifications" (state (advance 150 w)) = VArr []
  ∧ timers (advance 150 w) = [ {| due := 1200; callback := AutoRemove 1000 |};
                               {| due := 1300; callback := AutoRemove 1000 |} ].
Proof. repeat split; vm_compute; reflexivity. Qed.

(** When the clock moves between the calls the identifiers differ, and each
    notification leaves when its own duration has passed. *)
Example notifications_apart_leave_one_by_one :
  let w := (add_three_apart (new_AppState "example.org" 1000 ∅)).2 in
  field "notifications" (state (advance 97 w))
  = VArr [notification_record 1000 (VStr "first") "info" 100;
          notification_record 1001 (VStr "second") "info" 200;
          notification_record 1002 (VStr "third") "info" 300]
  ∧ field "notifications" (state (advance 150 w))
    = VArr [notification_record 1001 (VStr "second") "info" 200;
            notification_record 1002 (VStr "third") "info" 300]
  ∧ field "notifications" (state (advance 250 w))
    = VArr [notification_record 1002 (VStr "third") "info" 300]
  ∧ field "notifications" (state (advance 350 w)) = VArr [].
Proof. repeat split; vm_compute; reflexivity. Qed.

(** On a store without middleware, [addNotification] appends one record,
    named by the reading of the clock, and sets one timer, due when the
    duration has passed, that removes the records of that name. *)
Lemma addNotification_sets_timer message type duration w xs :
  middlewares w = [] →
  field "notifications" (state w) = VArr xs →
  ∃ w', addNotification message type duration w = (Normal tt, w')
    ∧ timers w' = timers w ++ [ {| due := now w + timer_delay (default 3000 duration);
                                   callback := AutoRemove (now w) |} ]
    ∧ field "notifications" (state w')
      = VArr (xs ++ [notification_record (now w) message (default "info" type)
                                         (default 3000 duration)]).
Proof.
  intros Hms Hxs. unfold addNotification. run. rewrite Hxs. cbn [spread].
  rewrite setState_run. unfold setTimeout. run.
  eexists. split; [reflexivity|]. split; [reflexivity|].
  cbn. rewrite Hms. cbn. unfold field.
  by rewrite lookup_union, lookup_singleton_eq, union_Some_l.
Qed.

(** *** Persistence *)

Lemma restore_try_malformed keys w text e :
  localStorage w !! "appState" = Some text →
  JSON_parse text = Throw e →
  restore_try keys w
  = if String.eqb text EmptyString then (Normal tt, w) else (Throw e, w).
Proof.
  intros Hstored Hparse. unfold restore_try. run. rewrite Hstored. cbn [truthy].
  destruct (String.eqb text EmptyString); cbn [negb]; [done|].
  run. by rewrite Hparse.
Qed.

(** C7, as the code has it. When the text stored under ["appState"] is not
    JSON, [restore] leaves the document as it was and calls no subscriber;
    the failure of [JSON.parse] is caught and a warning printed, unless the
    text is empty: [restore] takes an empty text for no text and does not
    parse it, so nothing is caught and nothing printed. *)
Theorem restore_malformed_keeps_document
    (keys : option (list string)) (w : world) (text : string) (e : value) :
  localStorage w !! "appState" = Some text →
  JSON_parse text = Throw e →
  ∃ w', restore keys w = (Normal tt, w')
    ∧ state w' = state w
    ∧ calls w' = calls w
    ∧ console w' = console w ++ (if String.eqb text EmptyString then []
                                 else [(WarnLevel, "Failed to restore state:")]).
Proof.
  intros Hstored Hparse. unfold restore. run.
  rewrite (restore_try_malformed _ _ _ _ Hstored Hparse).
  destruct (String.eqb text EmptyString).
  - exists w. by rewrite app_nil_r.
  - eexists. split; [reflexivity|]. done.
Qed.

Lemma restore_malformed_keeps_document_witness :
  let w := new_AppState "example.org" 0 {[ "appState" := "{bad" ]} in
  localStorage w !! "appState" = Some "{bad"
  ∧ JSON_parse "{bad" = Throw (SyntaxError "Unexpected token or end of JSON input")
  ∧ ∃ w', restore None w = (Normal tt, w')
      ∧ state w' = state w
      ∧ calls w' = calls w
      ∧ console w' = console w ++ (if String.eqb "{bad" EmptyString then []
                                   else [(WarnLevel, "Failed to restore state:")]).
Proof.
  intros w. split; [reflexivity|]. split; [reflexivity|].
  apply (restore_malformed_keeps_document None w "{bad"
           (SyntaxError "Unexpected token or end of JSON input"));
    reflexivity.
Defined.

(** C7, counterexample. The empty text is not JSON, and [restore] neither
    catches nor prints anything for it. *)
Lemma restore_empty_text_is_not_logged :
  let w := new_AppState "example.org" 0 {[ "appState" := EmptyString ]} in
  JSON_parse EmptyString = Throw (SyntaxError "Unexpected token or end of JSON input")
  ∧ restore None w = (Normal tt, w)
  ∧ (WarnLevel, "Failed to restore state:") ∉ console (restore None w).2.
Proof. split_and!; [reflexivity | reflexivity | apply not_elem_of_nil]. Qed.

(** *** Reset *)

Lemma initial_state_defined key v : initial_state !! key = Some v → v ≠ VUndefined.
Proof.
  unfold initial_state. intros H.
  repeat (rewrite lookup_insert in H; case_decide; [by simplify_eq|]).
  rewrite lookup_singleton in H. case_decide; by simplify_eq.
Qed.

(** C10. [reset()] puts the initial document back and calls every
    subscriber, in subscription order, with that document and an empty
    object for the previous one; no middleware is called.  Every field of
    the document is therefore [undefined] on the previous side and defined
    on the new side: a subscriber comparing the two sees it changed. *)
Theorem reset_notifies_with_empty_previous (w : world) :
  ∃ w', reset w = (Normal tt, w')
    ∧ state w' = initial_state
    ∧ calls w' = calls w ++ subscriber_calls (subscribers w) initial_state ∅
    ∧ (∀ m prev updates,
         MiddlewareCalled m prev updates
         ∉ subscriber_calls (subscribers w) initial_state ∅)
    ∧ console w' = console w
    ∧ ∀ key, field key ∅ = VUndefined
             ∧ (is_Some (initial_state !! key) →
                field key initial_state ≠ field key ∅).
Proof.
  unfold reset. run. rewrite notify_run. cbn.
  eexists. split; [reflexivity|]. cbn. split_and!; try done.
  - intros m prev updates. unfold subscriber_calls. rewrite list_elem_of_fmap.
    by intros (cb & Heq & _).
  - by rewrite app_nil_r.
  - intros key. split; [done|]. intros [v Hv]. unfold field.
    rewrite Hv, lookup_empty. cbn. by apply initial_state_defined in Hv.
Qed.

End AppStateFacts.

(** * Properties of the form manager *)

Module FormManagerFacts.

Import FormManager.

Ltac run :=
  unfold mbind, mret, eff_bind, eff_ret, gets, modify, get, lift, throw,
         try_catch, try_finally;
  cbn [fst snd].

(** *** The default validators *)

(** C9. The email validator and every pattern validator accept the empty
    string, whatever the pattern and the engine; of the validators attached
    from the attributes of a field, only [required] fails on an empty
    value. *)
Theorem empty_value_fails_only_required
    (RegExp_test : string → string → outcome bool) (el : Element) :
  email EmptyString el = Normal VTrue
  ∧ (∀ p, pattern RegExp_test p EmptyString el = Normal VTrue)
  ∧ run_validators (getFieldValidators RegExp_test el) EmptyString el []
    = Normal (if el_required el then ["This field is required"] else []).
Proof.
  split; [done|]. split; [done|].
  unfold getFieldValidators.
  destruct (el_required el), (String.eqb (el_type el) "email"),
           (negb (is_empty (el_pattern el))); reflexivity.
Qed.

(** *** Validation of a field *)

Lemma run_validators_messages value el vs : ∀ results acc,
  Forall2 (λ v result, v value el = Normal result) vs results →
  run_validators vs value el acc = Normal (acc ++ messages results).
Proof.
  induction vs as [|v vs IH]; intros results acc H; inversion H; subst; cbn.
  - by rewrite app_nil_r.
  - match goal with Hv : v value el = _ |- _ => rewrite Hv end.
    match goal with r : verdict |- _ => destruct r end; cbn.
    + by apply IH.
    + rewrite (IH _ _ ltac:(eassumption)). by rewrite <- app_assoc.
Qed.

Lemma map_get_set {A} key (a : A) m : map_get key (map_set key a m) = Some a.
Proof.
  induction m as [|[k a'] m IH]; cbn.
  - by rewrite String.eqb_refl.
  - destruct (String.eqb k key) eqn:E; cbn; [by rewrite String.eqb_refl|].
    by rewrite E.
Qed.

Lemma find_store_field formId fieldName f w :
  is_Some (forms w !! formId) →
  find_field formId fieldName (store_field formId fieldName f w) = Some f.
Proof.
  intros [config Hc]. unfold find_field, store_field. rewrite Hc. cbn.
  rewrite lookup_insert_eq. cbn. apply map_get_set.
Qed.

Lemma find_field_form formId fieldName w f :
  find_field formId fieldName w = Some f → is_Some (forms w !! formId).
Proof. unfold find_field. destruct (forms w !! formId); [eauto | done]. Qed.

Lemma errorMessage_store_field formId fieldName f w :
  errorMessage (store_field formId fieldName f w) = errorMessage w.
Proof. unfold store_field. by destruct (forms w !! formId). Qed.

(** C2, as the code has it. [validateField] runs every validator of the
    field, in attachment order, whatever the earlier ones returned; the
    field keeps the messages of all those that failed, in that order, and is
    valid when there is none; the message shown under the field is the
    first of them. *)
Theorem validateField_collects_every_message
    (formId fieldName : string) (w : world) (field : Field) (results : list verdict) :
  find_field formId fieldName w = Some field →
  Forall2 (λ v result, v (el_value (element field)) (element field) = Normal result)
          (validators field) results →
  ∃ w', validateField formId fieldName w
        = (Normal (bool_decide (messages results = [])), w')
    ∧ errors <$> find_field formId fieldName w' = Some (messages results)
    ∧ isValid <$> find_field formId fieldName w'
      = Some (bool_decide (messages results = []))
    ∧ errorMessage w' !! el_parent (element field) = head (messages results).
Proof.
  intros Hfield Hresults. unfold validateField. run. rewrite Hfield.
  rewrite (run_validators_messages _ _ _ _ [] Hresults). cbn [app].
  pose proof (find_field_form _ _ _ _ Hfield) as Hform.
  assert (Hvalid : bool_decide (List.length (messages results) = 0%nat)
                   = bool_decide (messages results = [])).
  { apply bool_decide_ext. by destruct (messages results). }
  rewrite Hvalid. unfold updateFieldUI.
  destruct (messages results) as [|first rest] eqn:Hm; run.
  - eexists. split; [reflexivity|].
    rewrite find_store_field by done. cbn.
    rewrite errorMessage_store_field. cbn.
    by rewrite lookup_delete_eq.
  - eexists. split; [reflexivity|].
    rewrite find_store_field by done. cbn.
    rewrite errorMessage_store_field. cbn.
    by rewrite lookup_insert_eq.
Qed.

Lemma validateField_collects_every_message_witness :
  find_field "contact" "name" contact_page_min3
  = Some {| element := name_input; validators := [required; minLength 3];
            isValid := true; errors := [] |}
  ∧ Forall2 (λ v result, v EmptyString name_input = Normal result)
            [required; minLength 3]
            [VMessage "This field is required";
             VMessage "Minimum length is 3 characters"]
  ∧ ∃ w', validateField "contact" "name" contact_page_min3 = (Normal false, w')
      ∧ errors <$> find_field "contact" "name" w'
        = Some ["This field is required"; "Minimum length is 3 characters"]
      ∧ isValid <$> find_field "contact" "name" w' = Some false
      ∧ errorMessage w' !! 0%nat = Some "This field is required".
Proof.
  split; [reflexivity|].
  split; [repeat constructor|].
  apply (validateField_collects_every_message "contact" "name" contact_page_min3
           {| element := name_input; validators := [required; minLength 3];
              isValid := true; errors := [] |}
           [VMessage "This field is required";
            VMessage "Minimum length is 3 characters"]).
  - reflexivity.
  - repeat constructor.
Defined.

(** C2, counterexample. On an empty field that is required and has a minimum
    length, the first validator fails and the second is run all the same:
    its message is collected after the first. *)
Lemma later_validator_runs_after_a_failure :
  el_value name_input = EmptyString
  ∧ required EmptyString name_input = Normal (VMessage "This field is required")
  ∧ errors <$> find_field "contact" "name"
                 (validateField "contact" "name" contact_page_min3).2
    = Some ["This field is required"; "Minimum length is 3 characters"]
  ∧ errors <$> find_field "contact" "name"
                 (validateField "contact" "name" contact_page_min3).2
    ≠ Some ["This field is required"].
Proof. split_and!; [reflexivity | reflexivity | reflexivity | discriminate]. Qed.

(** *** Submission *)

Lemma forms_kept_same w w' :
  forms w' = forms w → appState w' = appState w → forms_kept w w'.
Proof. intros Hf Ha. split; [done|]. intros formId config H. rewrite Hf. eauto. Qed.

Lemma forms_kept_refl w : forms_kept w w.
Proof. by apply forms_kept_same. Qed.

Lemma forms_kept_trans w1 w2 w3 : forms_kept w1 w2 → forms_kept w2 w3 → forms_kept w1 w3.
Proof.
  intros [Ha1 H1] [Ha2 H2]. split; [congruence|].
  intros formId config H. destruct (H1 _ _ H) as (c2 & Hc2 & ? & ? & ?).
  destruct (H2 _ _ Hc2) as (c3 & Hc3 & ? & ? & ?).
  exists c3. split_and!; congruence.
Qed.

Lemma forms_kept_store_field formId fieldName f w :
  forms_kept w (store_field formId fieldName f w).
Proof.
  unfold store_field. destruct (forms w !! formId) as [c|] eqn:Hc;
    [|apply forms_kept_refl].
  split; [done|]. intros formId' config H. cbn.
  destruct (decide (formId = formId')) as [->|Hne].
  - rewrite lookup_insert_eq. simplify_eq. eauto.
  - rewrite lookup_insert_ne by done. eauto.
Qed.

Lemma effects_store_field formId fieldName f w :
  effects (store_field formId fieldName f w) = effects w.
Proof. unfold store_field. by destruct (forms w !! formId). Qed.

Lemma updateFieldUI_kept el valid errs w :
  forms_kept w (updateFieldUI el valid errs w).2
  ∧ effects (updateFieldUI el valid errs w).2 = effects w.
Proof. unfold updateFieldUI. destruct errs; run; split; by try apply forms_kept_same. Qed.

Lemma validateField_kept formId fieldName w :
  forms_kept w (validateField formId fieldName w).2
  ∧ effects (validateField formId fieldName w).2 = effects w.
Proof.
  unfold validateField. run.
  destruct (find_field formId fieldName w) as [field|]; cbn;
    [|split; [apply forms_kept_refl | done]].
  destruct (run_validators _ _ _ _) as [errs|e]; cbn;
    [|split; [apply forms_kept_refl | done]].
  destruct (updateFieldUI_kept (element field)
              (bool_decide (List.length errs = 0%nat)) errs w) as [Hk He].
  destruct (updateFieldUI _ _ _ w) as [[el|e] w1]; cbn in *.
  - split.
    + eapply forms_kept_trans; [exact Hk | apply forms_kept_store_field].
    + by rewrite effects_store_field.
  - done.
Qed.

Lemma validate_fields_kept formId names : ∀ valid errs w,
  forms_kept w (validate_fields formId names valid errs w).2
  ∧ effects (validate_fields formId names valid errs w).2 = effects w.
Proof.
  induction names as [|name names IH]; intros valid errs w; cbn [validate_fields].
  - run. split; [apply forms_kept_refl | done].
  - run. destruct (validateField_kept formId name w) as [Hk He].
    destruct (validateField formId name w) as [[[]|e] w1]; cbn in *.
    + destruct (IH valid errs w1) as [Hk' He'].
      split; [by eapply forms_kept_trans | congruence].
    + destruct (IH false
                  (errs ++ [name +:+ ": " +:+
                            join ", " (from_option errors [] (find_field formId name w1))])
                  w1) as [Hk' He'].
      split; [by eapply forms_kept_trans | congruence].
    + done.
Qed.

Lemma validateForm_kept formId w :
  forms_kept w (validateForm formId w).2
  ∧ effects (validateForm formId w).2 = effects w.
Proof.
  unfold validateForm. run. destruct (forms w !! formId) as [config|]; run.
  - destruct (validate_fields_kept formId (fst <$> fields config) true [] w) as [Hk He].
    destruct (validate_fields _ _ _ _ w) as [[[valid errs]|e] w1]; cbn in *; [|done].
    split; [|done]. eapply forms_kept_trans; [exact Hk|]. by apply forms_kept_same.
  - split; [by apply forms_kept_same | done].
Qed.

Lemma reset_fields_kept formId names : ∀ w,
  forms_kept w (reset_fields formId names w).2
  ∧ effects (reset_fields formId names w).2 = effects w
  ∧ (reset_fields formId names w).1 = Normal tt.
Proof.
  induction names as [|name names IH]; intros w; cbn [reset_fields].
  - run. split; [apply forms_kept_refl | done].
  - run. destruct (find_field formId name w) as [field|]; [|apply IH].
    pose proof (updateFieldUI_kept
                  (with_value (el_defaultValue (element field)) (element field))
                  true [] w) as [Hk He].
    unfold updateFieldUI in *. run. cbn in *.
    match goal with |- context [reset_fields formId names ?w1] =>
      destruct (IH w1) as (Hk' & He' & Hr'); 
      destruct (reset_fields formId names w1) as [r w2] eqn:Hrun end.
    cbn in *. subst r. cbn. split_and!; [|by rewrite He', effects_store_field|done].
    eapply forms_kept_trans; [|exact Hk'].
    eapply forms_kept_trans; [exact Hk | apply forms_kept_store_field].
Qed.

Lemma resetForm_kept formId w :
  forms_kept w (resetForm formId w).2 ∧ (resetForm formId w).1 = Normal tt.
Proof.
  unfold resetForm. run. destruct (forms w !! formId) as [config|]; run;
    [|split; [apply forms_kept_refl | done]].
  destruct (reset_fields_kept formId (fst <$> fields config) w) as (Hk & He & Hr).
  destruct (reset_fields _ _ w) as [r w1]. cbn in *. subst r.
  destruct (appState w1); run; by split.
Qed.

Lemma setFormLoading_run formId loading w config :
  forms w !! formId = Some config →
  ∃ w', setFormLoading formId loading w = (Normal tt, w')
    ∧ forms w' = <[formId := with_submitBtn (set_button loading <$> submitBtn config) config]> (forms w)
    ∧ appState w' = appState w
    ∧ effects w' = effects w ++ loading_effect w loading.
Proof.
  intros Hc. unfold setFormLoading, loading_effect. run. rewrite Hc. run.
  cbn [appState set_forms].
  destruct (appState w) eqn:Ha; run; eexists; (split; [reflexivity|]); cbn;
    split_and!; try done.
  symmetry. apply app_nil_r.
Qed.

Lemma submit_catch_kept error w :
  forms_kept w (submit_catch error w).2.
Proof.
  unfold submit_catch. run. destruct (get_prop error "message"); cbn;
    by apply forms_kept_same.
Qed.

Lemma submit_try_kept config formId w :
  forms_kept w (submit_try config formId w).2.
Proof.
  unfold submit_try. run.
  destruct (validateForm_kept formId w) as [Hk _].
  destruct (validateForm formId w) as [[[]|e] w1]; cbn in *; [| |done].
  - unfold getFormData, call_onSubmit. run.
    destruct (forms w1 !! formId) as [c1|]; run.
    + destruct (settled _); cbn.
      * destruct (resetOnSubmit config).
        -- destruct (resetForm_kept formId
                      (emit [ShowSuccess (VStr "Form submitted successfully!")]
                         (print (printed (onSubmit config ((λ entry, (entry.1, el_value (element entry.2))) <$> fields c1) formId))
                            (emit (asked (onSubmit config ((λ entry, (entry.1, el_value (element entry.2))) <$> fields c1) formId))
                               (emit [Submit ((λ entry, (entry.1, el_value (element entry.2))) <$> fields c1) formId] w1)))))
             as [Hk' _].
           eapply forms_kept_trans; [exact Hk|].
           eapply forms_kept_trans; [|exact Hk']. by apply forms_kept_same.
        -- run. eapply forms_kept_trans; [exact Hk|]. by apply forms_kept_same.
      * eapply forms_kept_trans; [exact Hk|]. by apply forms_kept_same.
    + destruct (settled _); cbn.
      * destruct (resetOnSubmit config).
        -- match goal with |- context [resetForm formId ?w2] =>
             destruct (resetForm_kept formId w2) as [Hk' _] end.
           eapply forms_kept_trans; [exact Hk|].
           eapply forms_kept_trans; [|exact Hk']. by apply forms_kept_same.
        -- run. eapply forms_kept_trans; [exact Hk|]. by apply forms_kept_same.
      * eapply forms_kept_trans; [exact Hk|]. by apply forms_kept_same.
  - eapply forms_kept_trans; [exact Hk|]. by apply forms_kept_same.
Qed.

Lemma forms_kept_lookup w w' formId config :
  forms_kept w w' → forms w !! formId = Some config →
  ∃ config', forms w' !! formId = Some config'
             ∧ submitBtn config' = submitBtn config.
Proof. intros [_ H] Hc. destruct (H _ _ Hc) as (c' & ? & ? & ? & ?). eauto. Qed.


Lemma submit_body_kept config formId w :
  forms_kept w (submit_body config formId w).2.
Proof.
  unfold submit_body, try_catch.
  pose proof (submit_try_kept config formId w) as Hk.
  destruct (submit_try config formId w) as [[[]|e] w1]; cbn in *; [done|].
  eapply forms_kept_trans; [exact Hk | apply submit_catch_kept].
Qed.

Lemma handleSubmit_run formId w config :
  forms w !! formId = Some config →
  ∃ w1 w2 r config2,
    setFormLoading formId true w = (Normal tt, w1)
    ∧ submit_body config formId w1 = (r, w2)
    ∧ forms w2 !! formId = Some config2
    ∧ submitBtn config2 = set_button true <$> submitBtn config
    ∧ handleSubmit formId w
      = (r, (setFormLoading formId false w2).2)
    ∧ forms (setFormLoading formId false w2).2 !! formId
      = Some (with_submitBtn (set_button false <$> submitBtn config2) config2)
    ∧ effects (setFormLoading formId false w2).2
      = effects w2 ++ loading_effect w false
    ∧ effects w1 = effects w ++ loading_effect w true.
Proof.
  intros Hc.
  destruct (setFormLoading_run formId true w config Hc) as (w1 & Hrun1 & Hf1 & Ha1 & He1).
  assert (Hc1 : forms w1 !! formId
                = Some (with_submitBtn (set_button true <$> submitBtn config) config)).
  { by rewrite Hf1, lookup_insert_eq. }
  pose proof (submit_body_kept config formId w1) as Hk.
  destruct (submit_body config formId w1) as [r w2] eqn:Hbody. cbn in Hk.
  destruct (forms_kept_lookup _ _ _ _ Hk Hc1) as (config2 & Hc2 & Hb2).
  destruct (setFormLoading_run formId false w2 config2 Hc2) as (w3 & Hrun3 & Hf3 & Ha3 & He3).
  exists w1, w2, r, config2. split_and!; try done.
  - unfold handleSubmit. run. rewrite Hc, Hrun1, Hbody, Hrun3. by destruct r.
  - rewrite Hrun3. cbn [snd]. by rewrite Hf3, lookup_insert_eq.
  - rewrite Hrun3. cbn [snd]. rewrite He3. unfold loading_effect.
    destruct Hk as [Ha2 _]. by rewrite Ha2, Ha1.
Qed.

(** On every way out of [handleSubmit] the submit button is enabled again
    and, when the page has a store, the last thing asked of it is to clear
    its loading flag. *)
Lemma handleSubmit_clears_loading formId w config :
  forms w !! formId = Some config →
  ∃ config' es,
    forms (handleSubmit formId w).2 !! formId = Some config'
    ∧ disabled <$> submitBtn config' = (λ _, false) <$> submitBtn config
    ∧ effects (handleSubmit formId w).2 = es ++ loading_effect w false.
Proof.
  intros Hc.
  destruct (handleSubmit_run formId w config Hc)
    as (w1 & w2 & r & config2 & _ & _ & _ & Hb2 & Hrun & Hf & He & _).
  rewrite Hrun. cbn [snd]. eexists _, _. split_and!; [exact Hf | | exact He].
  cbn. rewrite Hb2. by destruct (submitBtn config).
Qed.

Lemma getFormData_run formId w : getFormData formId w = (Normal (form_data formId w), w).
Proof. unfold getFormData, form_data. run. by destruct (forms w !! formId). Qed.

(** If the validation of the whole form fails, the submit handler is not
    called and an error notification is shown; the promise resolves. *)
Lemma handleSubmit_invalid formId w config w1 w2 :
  forms w !! formId = Some config →
  setFormLoading formId true w = (Normal tt, w1) →
  validateForm formId w1 = (Normal false, w2) →
  (handleSubmit formId w).1 = Normal tt
  ∧ effects (handleSubmit formId w).2
    = effects w ++ loading_effect w true
      ++ [ShowError (VStr "Please fix the errors in the form")]
      ++ loading_effect w false.
Proof.
  intros Hc Hload Hvalid.
  destruct (handleSubmit_run formId w config Hc)
    as (w1' & w2' & r & config2 & Hload' & Hbody & _ & _ & Hrun & _ & He & He1).
  rewrite Hload in Hload'. simplify_eq.
  unfold submit_body, submit_try in Hbody. revert Hbody. run. rewrite Hvalid. cbn.
  intros ?; simplify_eq. rewrite Hrun. cbn [fst snd]. split; [done|].
  rewrite He. cbn.
  destruct (validateForm_kept formId w1') as [_ Hsame]. rewrite Hvalid in Hsame.
  cbn in Hsame. rewrite Hsame, He1. by rewrite <- !app_assoc.
Qed.

(** If the form is valid and the handler rejects with a value that has
    properties, the rejection is caught and an error notification shows the
    message of the value, or the fallback when it has none. *)
Lemma handleSubmit_rejected formId w config w1 w2 e message :
  forms w !! formId = Some config →
  setFormLoading formId true w = (Normal tt, w1) →
  validateForm formId w1 = (Normal true, w2) →
  settled (onSubmit config (form_data formId w2) formId) = Throw e →
  get_prop e "message" = Normal message →
  (handleSubmit formId w).1 = Normal tt
  ∧ effects (handleSubmit formId w).2
    = effects w ++ loading_effect w true
      ++ [Submit (form_data formId w2) formId]
      ++ asked (onSubmit config (form_data formId w2) formId)
      ++ [ShowError (or_else message
                       (VStr "An error occurred while submitting the form"))]
      ++ loading_effect w false.
Proof.
  intros Hc Hload Hvalid Hthrow Hmessage.
  destruct (handleSubmit_run formId w config Hc)
    as (w1' & w2' & r & config2 & Hload' & Hbody & _ & _ & Hrun & _ & He & He1).
  rewrite Hload in Hload'. simplify_eq.
  unfold submit_body, submit_try, call_onSubmit in Hbody. revert Hbody. run.
  rewrite Hvalid. cbn. rewrite getFormData_run. cbn. rewrite Hthrow. cbn.
  unfold submit_catch. run. rewrite Hmessage. cbn.
  intros ?; simplify_eq. rewrite Hrun. cbn [fst snd]. split; [done|].
  rewrite He. cbn.
  destruct (validateForm_kept formId w1') as [_ Hsame]. rewrite Hvalid in Hsame.
  cbn in Hsame. rewrite Hsame, He1. by rewrite <- !app_assoc.
Qed.

(** If the handler rejects with [undefined] or [null], reading the message
    fails inside the [catch] block: no notification is shown and the
    promise of [handleSubmit] rejects with the [TypeError]; the [finally]
    block still runs. *)
Lemma handleSubmit_rejected_nullish formId w config w1 w2 e error :
  forms w !! formId = Some config →
  setFormLoading formId true w = (Normal tt, w1) →
  validateForm formId w1 = (Normal true, w2) →
  settled (onSubmit config (form_data formId w2) formId) = Throw e →
  get_prop e "message" = Throw error →
  (handleSubmit formId w).1 = Throw error
  ∧ effects (handleSubmit formId w).2
    = effects w ++ loading_effect w true
      ++ [Submit (form_data formId w2) formId]
      ++ asked (onSubmit config (form_data formId w2) formId)
      ++ loading_effect w false.
Proof.
  intros Hc Hload Hvalid Hthrow Hmessage.
  destruct (handleSubmit_run formId w config Hc)
    as (w1' & w2' & r & config2 & Hload' & Hbody & _ & _ & Hrun & _ & He & He1).
  rewrite Hload in Hload'. simplify_eq.
  unfold submit_body, submit_try, call_onSubmit in Hbody. revert Hbody. run.
  rewrite Hvalid. cbn. rewrite getFormData_run. cbn. rewrite Hthrow. cbn.
  unfold submit_catch. run. rewrite Hmessage. cbn.
  intros ?; simplify_eq. rewrite Hrun. cbn [fst snd]. split; [done|].
  rewrite He. cbn.
  destruct (validateForm_kept formId w1') as [_ Hsame]. rewrite Hvalid in Hsame.
  cbn in Hsame. rewrite Hsame, He1. by rewrite <- !app_assoc.
Qed.

(** C4, at the failing input. The contact form is valid and its handler
    rejects with [undefined]: the [catch] block fails on [error.message], no
    error notification is shown, and the promise of [handleSubmit] rejects
    with the [TypeError].  The [finally] block has run: the store is told to
    clear its loading flag and the button is enabled again, though still
    labelled as submitting. *)
Theorem handleSubmit_rejection_with_undefined_is_not_shown :
  (validateForm "contact" (filled_page VUndefined)).1 = Normal true
  ∧ (handleSubmit "contact" (filled_page VUndefined)).1
    = Throw (TypeError "Cannot read properties of undefined (reading 'message')")
  ∧ effects (handleSubmit "contact" (filled_page VUndefined)).2
    = [SetLoading true; Submit [("name", "Bob")] "contact"; SetLoading false]
  ∧ submitBtn <$> forms (handleSubmit "contact" (filled_page VUndefined)).2 !! "contact"
    = Some (Some {| disabled := false; textContent := "Submitting...";
                    originalText := Some "Submitting..." |}).
Proof. repeat split; vm_compute; reflexivity. Qed.

End FormManagerFacts.

(** * Properties of the static servers *)

Module ServerFacts.

Import Server.

Lemma append_assoc (a b c : string) : (a +:+ b) +:+ c = a +:+ (b +:+ c).
Proof.
  induction a as [|x a IH]; [done|].
  change (String x ((a +:+ b) +:+ c) = String x (a +:+ (b +:+ c))). by f_equal.
Qed.

Lemma length_append (a b : string) :
  String.length (a +:+ b) = (String.length a + String.length b)%nat.
Proof.
  induction a as [|x a IH]; [done|].
  change (S (String.length (a +:+ b)) = S (String.length a + String.length b)).
  by f_equal.
Qed.

Lemma contains_not_found_page pathname : contains pathname (not_found_page pathname).
Proof.
  unfold contains, not_found_page.
  exists (line 20 "<html>"
          +:+ line 24 "<head><title>404 - Not Found</title></head>"
          +:+ line 24 "<body>"
          +:+ line 28 "<h1>404 - File Not Found</h1>"
          +:+ line 28 "<p>The requested file <code>").
  eexists. rewrite !append_assoc. reflexivity.
Qed.

(** C8, as the code has it. For a GET request whose target [url.parse]
    gives a pathname for, the development server of the monolithic template
    looks up that pathname under its root ([/index.html] when the pathname
    is [/]); when the path is not on the disk it answers 404 with an HTML
    page that contains the pathname, and 500 when the file is there and
    cannot be read.  The server of the MVC demo answers every failed read,
    missing file or not, with 404 and the plain text [Not found]. *)
Theorem static_servers_on_missing_files
    (url_parse : string → outcome (option string))
    (path_join : string → string → string) (disk : string → file)
    (root : string) (req : Request) (pathname : string) :
  method req = "GET" →
  url_parse (url req) = Normal (Some pathname) →
  (disk (path_join root (resolved pathname)) = Missing →
     handleRequest url_parse path_join disk root req
     = Normal {| status := 404;
                 headers := development_headers ++ [("Content-Type", "text/html")];
                 body := not_found_page (resolved pathname) |}
     ∧ contains (resolved pathname) (not_found_page (resolved pathname)))
  ∧ (∀ message, disk (path_join root (resolved pathname)) = Unreadable message →
       handleRequest url_parse path_join disk root req
       = Normal {| status := 500;
                   headers := development_headers ++ [("Content-Type", "text/html")];
                   body := server_error_page message |})
  ∧ ((∀ content, disk (path_join root (requested_target req)) ≠ Readable content) →
       server path_join disk root req = plain_not_found).
Proof.
  intros Hget Hparse. unfold handleRequest, server, requested_target.
  rewrite Hparse, Hget. cbn [String.eqb Ascii.eqb Bool.eqb]. cbn beta iota.
  split_and!.
  - intros ->. split; [done | apply contains_not_found_page].
  - by intros message ->.
  - intros Hdisk. destruct (disk _) eqn:E; try done. by destruct (Hdisk content).
Qed.

Lemma static_servers_on_missing_files_witness :
  method (get "/missing.css?v=2") = "GET"
  ∧ sample_parser (url (get "/missing.css?v=2")) = Normal (Some "/missing.css")
  ∧ empty_disk (String.append "/srv" (resolved "/missing.css")) = Missing
  ∧ handleRequest sample_parser String.append empty_disk "/srv" (get "/missing.css?v=2")
    = Normal {| status := 404;
                headers := development_headers ++ [("Content-Type", "text/html")];
                body := not_found_page "/missing.css" |}
  ∧ contains "/missing.css" (not_found_page "/missing.css")
  ∧ server String.append empty_disk "/srv" (get "/missing.css?v=2") = plain_not_found.
Proof.
  destruct (static_servers_on_missing_files sample_parser String.append empty_disk "/srv"
              (get "/missing.css?v=2") "/missing.css" eq_refl eq_refl)
    as (Hdev & _ & Hmvc).
  destruct (Hdev eq_refl) as (Hresponse & Hbody).
  split_and!; [reflexivity | reflexivity | reflexivity | exact Hresponse | exact Hbody |].
  apply Hmvc. intros content. discriminate.
Defined.

(** C8, counterexample. The MVC server answers a missing file with a plain
    text that does not contain the requested path, and a path that is there
    and cannot be read with 404, not 500. *)
Lemma mvc_server_answers_plain_404 :
  server String.append empty_disk "/srv/public" (get "/missing.css") = plain_not_found
  ∧ ¬ contains "/missing.css"
        (body (server String.append empty_disk "/srv/public" (get "/missing.css")))
  ∧ status (server String.append directories_only "/srv/public" (get "/missing.css"))
    = 404.
Proof.
  split_and!; [reflexivity | | reflexivity].
  intros (before & after & H). apply (f_equal String.length) in H.
  rewrite !length_append in H. cbn in H. lia.
Qed.

End ServerFacts.

Module AppStateOpsFacts.

Import AppState AppStateFacts AppStateOps.

(** *** Objects *)

Lemma obj_get_set_eq k v fields : obj_get k (obj_set k v fields) = v.
Proof.
  induction fields as [|[k' v'] rest IH]; cbn.
  - by rewrite String.eqb_refl.
  - destruct (String.eqb k' k) eqn:E; cbn; [by rewrite String.eqb_refl|].
    by rewrite E.
Qed.

Lemma obj_get_set_ne k k' v fields :
  k ≠ k' → obj_get k' (obj_set k v fields) = obj_get k' fields.
Proof.
  intros Hne. induction fields as [|[k0 v0] rest IH]; cbn.
  - by apply String.eqb_neq in Hne as ->.
  - destruct (String.eqb k0 k) eqn:E; cbn.
    + apply String.eqb_eq in E as ->. by apply String.eqb_neq in Hne as ->.
    + by rewrite IH.
Qed.

Lemma obj_get_delete_eq k fields : obj_get k (obj_delete k fields) = VUndefined.
Proof.
  unfold obj_delete. induction fields as [|[k' v'] rest IH]; [done|].
  rewrite filter_cons. cbn. case_decide as Hk; cbn; [|done].
  by apply String.eqb_neq in Hk as ->.
Qed.

Lemma obj_get_delete_ne k k' fields :
  k ≠ k' → obj_get k' (obj_delete k fields) = obj_get k' fields.
Proof.
  intros Hne. unfold obj_delete. induction fields as [|[k0 v0] rest IH]; [done|].
  rewrite filter_cons. cbn. case_decide as Hk; cbn.
  - by rewrite IH.
  - subst k0. by apply String.eqb_neq in Hne as ->.
Qed.

Lemma obj_get_assign k source : ∀ target,
  obj_get k (assign target source)
  = match last_binding k source with
    | Some v => v
    | None => obj_get k target
    end.
Proof.
  unfold assign. induction source as [|[k' v] rest IH]; intros target; cbn; [done|].
  rewrite IH. destruct (last_binding k rest); [done|].
  destruct (String.eqb k' k) eqn:E.
  - apply String.eqb_eq in E as ->. apply obj_get_set_eq.
  - apply String.eqb_neq in E. by apply obj_get_set_ne.
Qed.

(** *** The shipped middlewares *)

Lemma final_partial_shipped w prev updates :
  shipped w →
  final_partial (middlewares w) prev updates
  = if decide (middlewares w = []) then updates else validated updates.
Proof.
  intros [H|H]; rewrite H; cbn.
  - done.
  - unfold handed_on, validated. cbn.
    by destruct (truthy (field "currentSection" updates)
                 && negb (is_string (field "currentSection" updates))).
Qed.

Lemma validated_other key updates :
  key ≠ "currentSection" → validated updates !! key = updates !! key.
Proof.
  intros Hne. unfold validated.
  destruct (_ && _); [|done]. by rewrite lookup_delete_ne.
Qed.

(** On a shipped store a key other than [currentSection] takes the value
    the update gives it. *)
Lemma setState_shipped_field key v w :
  shipped w → key ≠ "currentSection" →
  field key (state (setState {[ key := v ]} w).2) = v.
Proof.
  intros Hs Hne. rewrite setState_run. cbn.
  rewrite (final_partial_shipped _ _ _ Hs). unfold field.
  rewrite lookup_union.
  case_decide; rewrite ?validated_other by done;
    by rewrite lookup_singleton_eq, union_Some_l.
Qed.

Lemma setState_shipped_other key key' v w :
  shipped w → key ≠ key' →
  field key' (state (setState {[ key := v ]} w).2) = field key' (state w).
Proof.
  intros Hs Hne. rewrite setState_run. cbn.
  rewrite (final_partial_shipped _ _ _ Hs). unfold field.
  rewrite lookup_union.
  assert (Hnone : ∀ m : gmap string value, m = {[ key := v ]} ∨ m = validated {[ key := v ]} → m !! key' = None).
  { intros m [->| ->].
    - by rewrite lookup_singleton_ne.
    - unfold validated. destruct (_ && _).
      + destruct (decide (key' = "currentSection")) as [->|?].
        * by rewrite lookup_delete_eq.
        * by rewrite lookup_delete_ne, lookup_singleton_ne.
      + by rewrite lookup_singleton_ne. }
  case_decide; rewrite Hnone by auto; by rewrite (left_id None _).
Qed.


(** *** Who is called, and how often *)

Lemma calls_of_app callback es es' :
  calls_of callback (es ++ es') = calls_of callback es ++ calls_of callback es'.
Proof. apply filter_app. Qed.

Lemma calls_of_middleware_calls callback ms prev : ∀ pending,
  calls_of callback (middleware_calls ms prev pending) = [].
Proof.
  induction ms as [|m ms IH]; intros pending; cbn [middleware_calls]; [done|].
  unfold calls_of. rewrite filter_cons. cbn [is_call_of].
  rewrite decide_False by done. apply IH.
Qed.

Lemma calls_of_subscriber_calls callback subs new prev :
  calls_of callback (subscriber_calls subs new prev)
  = replicate (List.length (filter (λ sub, sub = callback) subs))
              (SubscriberCalled callback new prev).
Proof.
  unfold calls_of, subscriber_calls.
  induction subs as [|sub subs IH]; [done|].
  rewrite fmap_cons, !filter_cons. cbn.
  destruct (decide (sub = callback)) as [->|Hne].
  - rewrite bool_decide_eq_true_2 by done. rewrite decide_True by done. cbn.
    by rewrite IH.
  - rewrite bool_decide_eq_false_2 by done. rewrite decide_False by done. apply IH.
Qed.

(** X1. One update calls a callback once for each of its subscriptions, each
    time with the new document and the document before the update. *)
Theorem setState_calls_each_subscription
    (callback : fn_ref) (updates : gmap string value) (w : world) :
  ∃ new_calls,
    calls (setState updates w).2 = calls w ++ new_calls
    ∧ calls_of callback new_calls
      = replicate (subscriptions callback w)
                  (SubscriberCalled callback (state (setState updates w).2) (state w)).
Proof.
  rewrite setState_run. eexists. split; [reflexivity|].
  rewrite calls_of_app, calls_of_middleware_calls, calls_of_subscriber_calls.
  reflexivity.
Qed.

Lemma setStates_calls callback partials : ∀ w,
  subscriptions callback w = 0%nat →
  ∃ new_calls,
    calls (forEach partials setState w).2 = calls w ++ new_calls
    ∧ calls_of callback new_calls = [].
Proof.
  induction partials as [|partial rest IH]; intros w Hnone; cbn [forEach].
  - exists []. by rewrite app_nil_r.
  - unfold mbind, eff_bind. rewrite setState_run.
    destruct (IH (updated partial w)) as (es & Hes & Hnot); [done|].
    eexists. split.
    + rewrite Hes. cbn. rewrite <- app_assoc. reflexivity.
    + rewrite !calls_of_app, calls_of_middleware_calls, calls_of_subscriber_calls, Hnot.
      unfold subscriptions in Hnone. by rewrite Hnone.
Qed.

(** X2. Once the function [subscribe] returned has been called, no update
    calls the callback again, however many updates follow. *)
Theorem unsubscribed_callback_is_never_called
    (callback : fn_ref) (partials : list (gmap string value)) (w : world) :
  let w1 := (unsubscribe callback w).2 in
  ∃ new_calls,
    calls (forEach partials setState w1).2 = calls w1 ++ new_calls
    ∧ calls_of callback new_calls = [].
Proof.
  intros w1. apply setStates_calls.
  unfold subscriptions, w1, unsubscribe, modify. cbn.
  induction (subscribers w) as [|sub subs IH]; [done|].
  rewrite filter_cons. destruct (decide (sub ≠ callback)) as [Hne|Heq].
  - rewrite filter_cons. by rewrite decide_False.
  - done.
Qed.


(** *** Navigation through the validation middleware *)

(** X3. On a development host, where the validation middleware is
    registered, [navigate] leaves the current section as it is, and prints a
    warning, when it is given a truthy value that is not a string; a string
    is taken, and so is a falsy value that is not a string ([null], [0],
    [false]), which the test of the middleware lets through. *)
Theorem navigate_in_development (section : value) (w : world) :
  middlewares w = [loggingMiddleware; validationMiddleware] →
  let rejected := truthy section && negb (is_string section) in
  field "currentSection" (state (navigate section w).2)
  = (if rejected then field "currentSection" (state w) else section)
  ∧ console (navigate section w).2
    = console w
      ++ [(LogLevel, "State change:")]
      ++ (if rejected then [(WarnLevel, "currentSection must be a string")] else [])
      ++ update_log w.
Proof.
  intros Hms rejected. unfold navigate. rewrite setState_run. cbn.
  rewrite Hms. cbn. unfold handed_on. cbn.
  assert (Hcs : field "currentSection" ({[ "currentSection" := section ]} : gmap string value)
                = section).
  { unfold field. by rewrite lookup_singleton_eq. }
  rewrite !Hcs. subst rejected.
  destruct (truthy section && negb (is_string section)); cbn.
  - split; [|by rewrite ?app_nil_r].
    unfold field. by rewrite lookup_union, lookup_delete_eq, (left_id None _).
  - split; [|by rewrite ?app_nil_r].
    unfold field. by rewrite lookup_union, lookup_singleton_eq, union_Some_l.
Qed.

Lemma navigate_in_development_witness :
  middlewares (boot "localhost" 0 ∅) = [loggingMiddleware; validationMiddleware]
  ∧ field "currentSection" (state (navigate (VNum 7) (boot "localhost" 0 ∅)).2)
    = VStr "home"
  ∧ field "currentSection" (state (navigate VNull (boot "localhost" 0 ∅)).2) = VNull.
Proof.
  assert (H : middlewares (boot "localhost" 0 ∅)
              = [loggingMiddleware; validationMiddleware]) by reflexivity.
  split; [exact H|].
  split.
  - exact (proj1 (navigate_in_development (VNum 7) (boot "localhost" 0 ∅) H)).
  - exact (proj1 (navigate_in_development VNull (boot "localhost" 0 ∅) H)).
Defined.

(** *** Form data and statistics *)

(** X4. On a shipped store whose [formData] is an object,
    [updateFormData(formId, data)] merges the data over the entry of the
    form, key by key, and leaves the entries of the other forms and the
    other fields of the document as they were. *)
Theorem updateFormData_merges_entry
    (formId : string) (data : value) (w : world) (forms : list (string * value)) :
  shipped w →
  field "formData" (state w) = VObj forms →
  ∃ w' forms' entry',
    updateFormData formId data w = (Normal tt, w')
    ∧ field "formData" (state w') = VObj forms'
    ∧ obj_get formId forms' = VObj entry'
    ∧ (∀ key, obj_get key entry'
              = match last_binding key (own_properties data) with
                | Some v => v
                | None => obj_get key (own_properties (obj_get formId forms))
                end)
    ∧ (∀ other, other ≠ formId → obj_get other forms' = obj_get other forms)
    ∧ (∀ key, key ≠ "formData" → field key (state w') = field key (state w)).
Proof.
  intros Hs Hforms. unfold updateFormData, mbind, eff_bind, gets, lift.
  rewrite Hforms. cbn [get_prop own_properties].
  destruct (setState _ w) as [r w'] eqn:Hrun.
  pose proof (setState_run {[ "formData" := VObj (obj_set formId (VObj (assign (own_properties (obj_get formId forms)) (own_properties data))) forms) ]} w) as Hrun'.
  rewrite Hrun in Hrun'. injection Hrun' as -> Hw'.
  eexists w', _, _. split; [reflexivity|].
  assert (Hw : w' = (setState {[ "formData" := VObj (obj_set formId (VObj (assign (own_properties (obj_get formId forms)) (own_properties data))) forms) ]} w).2)
    by (by rewrite Hrun).
  split_and!.
  - rewrite Hw. by apply setState_shipped_field.
  - apply obj_get_set_eq.
  - intros key. apply obj_get_assign.
  - intros other Hne. by apply obj_get_set_ne.
  - intros key Hne. rewrite Hw. by apply setState_shipped_other.
Qed.

Lemma updateFormData_merges_entry_witness :
  ∃ w' forms' entry',
    updateFormData "contact" (VObj [("name", VStr "Bob")]) production_store
    = (Normal tt, w')
    ∧ field "formData" (state w') = VObj forms'
    ∧ obj_get "contact" forms' = VObj entry'
    ∧ (∀ key, obj_get key entry'
              = match last_binding key [("name", VStr "Bob")] with
                | Some v => v
                | None => obj_get key (own_properties (obj_get "contact" []))
                end)
    ∧ (∀ other, other ≠ "contact" → obj_get other forms' = obj_get other [])
    ∧ (∀ key, key ≠ "formData" →
         field key (state w') = field key (state production_store)).
Proof.
  apply (updateFormData_merges_entry "contact" (VObj [("name", VStr "Bob")])
           production_store []).
  - by left.
  - reflexivity.
Defined.


Lemma setState_keeps_shipped updates w : shipped w → shipped (setState updates w).2.
Proof. rewrite setState_run. by intros [H|H]; [left | right]. Qed.

Lemma clearFormData_run formId w :
  clearFormData formId w
  = setState {[ "formData" :=
                VObj (obj_delete formId (own_properties (field "formData" (state w)))) ]} w.
Proof. reflexivity. Qed.

Lemma updateFormData_run formId data w forms :
  field "formData" (state w) = VObj forms →
  updateFormData formId data w
  = setState {[ "formData" :=
                VObj (obj_set formId
                        (VObj (assign (own_properties (obj_get formId forms))
                                      (own_properties data)))
                        forms) ]} w.
Proof.
  intros Hforms. unfold updateFormData, mbind, eff_bind, gets, lift.
  by rewrite Hforms.
Qed.

(** X5. [clearFormData] after [updateFormData] for the same form leaves the
    store without an entry for that form, and with the entries of the other
    forms as they were before the two calls. *)
Theorem clearFormData_undoes_updateFormData
    (formId : string) (data : value) (w : world) (forms : list (string * value)) :
  shipped w →
  field "formData" (state w) = VObj forms →
  ∃ forms',
    field "formData" (state (clearFormData formId (updateFormData formId data w).2).2)
    = VObj forms'
    ∧ obj_get formId forms' = VUndefined
    ∧ ∀ other, other ≠ formId → obj_get other forms' = obj_get other forms.
Proof.
  intros Hs Hforms. rewrite (updateFormData_run _ _ _ _ Hforms).
  rewrite clearFormData_run.
  rewrite (setState_shipped_field "formData" _ w Hs) by done. cbn [own_properties].
  eexists. split.
  - apply setState_shipped_field; [by apply setState_keeps_shipped | done].
  - split; [apply obj_get_delete_eq|].
    intros other Hne. rewrite obj_get_delete_ne by done. by apply obj_get_set_ne.
Qed.

Lemma clearFormData_undoes_updateFormData_witness :
  ∃ forms',
    field "formData"
      (state (clearFormData "contact"
                (updateFormData "contact" (VObj [("name", VStr "Bob")])
                   production_store).2).2)
    = VObj forms'
    ∧ obj_get "contact" forms' = VUndefined
    ∧ ∀ other, other ≠ "contact" → obj_get other forms' = obj_get other [].
Proof.
  apply (clearFormData_undoes_updateFormData "contact" (VObj [("name", VStr "Bob")])
           production_store []).
  - by left.
  - reflexivity.
Defined.

(** X6. When [formData] is [null] or [undefined] (a persisted [null] is
    restored as it is), [updateFormData] throws a [TypeError] before it
    touches the store or calls anyone; [clearFormData] does not throw and
    puts an empty object back. *)
Theorem updateFormData_without_formData
    (formId : string) (data : value) (w : world) :
  readable (field "formData" (state w)) = false →
  (∃ message, updateFormData formId data w = (Throw (TypeError message), w))
  ∧ (clearFormData formId w).1 = Normal tt
  ∧ (shipped w → field "formData" (state (clearFormData formId w).2) = VObj []).
Proof.
  intros Hnull. split_and!.
  - unfold updateFormData, mbind, eff_bind, gets, lift.
    destruct (field "formData" (state w)); try done; cbn; eauto.
  - by rewrite clearFormData_run, setState_run.
  - intros Hs. rewrite clearFormData_run, setState_shipped_field by done.
    by destruct (field "formData" (state w)).
Qed.

Lemma updateFormData_without_formData_witness :
  field "formData" (state null_formData_store) = VNull
  ∧ (∃ message,
       updateFormData "contact" (VObj [("name", VStr "Bob")]) null_formData_store
       = (Throw (TypeError message), null_formData_store))
  ∧ (clearFormData "contact" null_formData_store).1 = Normal tt
  ∧ (shipped null_formData_store →
     field "formData" (state (clearFormData "contact" null_formData_store).2) = VObj []).
Proof.
  split; [reflexivity|].
  apply (updateFormData_without_formData "contact" (VObj [("name", VStr "Bob")])
           null_formData_store).
  reflexivity.
Defined.

(** X7. On a shipped store [updateStats(stats)] gives each key of the
    statistics the value the argument gives it, and leaves the keys the
    argument does not name, and the rest of the document, as they were. *)
Theorem updateStats_merges
    (stats : value) (w : world) :
  shipped w →
  ∃ stats',
    (updateStats stats w).1 = Normal tt
    ∧ field "stats" (state (updateStats stats w).2) = VObj stats'
    ∧ (∀ key, obj_get key stats'
              = match last_binding key (own_properties stats) with
                | Some v => v
                | None => obj_get key (own_properties (field "stats" (state w)))
                end)
    ∧ (∀ key, key ≠ "stats" →
         field key (state (updateStats stats w).2) = field key (state w)).
Proof.
  intros Hs. unfold updateStats, mbind, eff_bind, gets.
  eexists. split_and!.
  - by rewrite setState_run.
  - by apply setState_shipped_field.
  - intros key. apply obj_get_assign.
  - intros key Hne. by apply setState_shipped_other.
Qed.

Lemma updateStats_merges_witness :
  ∃ stats',
    (updateStats animated_stats production_store).1 = Normal tt
    ∧ field "stats" (state (updateStats animated_stats production_store).2) = VObj stats'
    ∧ (∀ key, obj_get key stats'
              = match last_binding key (own_properties animated_stats) with
                | Some v => v
                | None => obj_get key (own_properties (field "stats" (state production_store)))
                end)
    ∧ (∀ key, key ≠ "stats" →
         field key (state (updateStats animated_stats production_store).2)
         = field key (state production_store)).
Proof. apply (updateStats_merges animated_stats production_store). by left. Defined.


(** *** Removing notifications *)

Lemma filter_outcome_id_differs id xs :
  Forall (λ n, readable n = true) xs →
  filter_outcome (id_differs id) xs = Normal (filter (λ n, has_id id n = false) xs).
Proof.
  induction 1 as [|n xs Hn _ IH]; [done|].
  cbn [filter_outcome]. rewrite IH, filter_cons.
  unfold id_differs, has_id.
  destruct n; try done; cbn;
    repeat (case_match; simplify_eq; cbn; try done);
    by destruct (_ =? _).
Qed.


Lemma removeNotification_run id w xs :
  field "notifications" (state w) = VArr xs →
  Forall (λ n, readable n = true) xs →
  removeNotification id w
  = setState {[ "notifications" := VArr (filter (λ n, has_id id n = false) xs) ]} w.
Proof.
  intros Hxs Hread. unfold removeNotification, mbind, eff_bind, gets, lift.
  by rewrite Hxs, filter_outcome_id_differs.
Qed.

(** X8. On a shipped store whose notification list holds records,
    [removeNotification(id)] keeps exactly the records with another
    identifier, in their order, and calls every subscriber once for each of
    its subscriptions, also when no record has the identifier and the list
    stays as it was. *)
Theorem removeNotification_filters_and_notifies
    (id : Z) (w : world) (xs : list value) :
  shipped w →
  field "notifications" (state w) = VArr xs →
  Forall (λ n, readable n = true) xs →
  ∃ w' new_calls,
    removeNotification id w = (Normal tt, w')
    ∧ field "notifications" (state w') = VArr (filter (λ n, has_id id n = false) xs)
    ∧ calls w' = calls w ++ new_calls
    ∧ ∀ callback,
        List.length (calls_of callback new_calls) = subscriptions callback w.
Proof.
  intros Hs Hxs Hread. rewrite (removeNotification_run _ _ _ Hxs Hread).
  eexists _, _. split; [apply setState_run|].
  split; [|split; [reflexivity|]].
  - pose proof (setState_shipped_field "notifications"
                  (VArr (filter (λ n, has_id id n = false) xs)) w Hs) as H.
    rewrite setState_run in H. by apply H.
  - intros callback.
    rewrite calls_of_app, calls_of_middleware_calls, calls_of_subscriber_calls.
    cbn. by rewrite length_replicate.
Qed.

Lemma removeNotification_filters_and_notifies_witness :
  ∃ w' new_calls,
    removeNotification 0 one_notification = (Normal tt, w')
    ∧ field "notifications" (state w')
      = VArr (filter (λ n, has_id 0 n = false)
                     [notification_record 0 (VStr "saved") "info" 3000])
    ∧ calls w' = calls one_notification ++ new_calls
    ∧ ∀ callback,
        List.length (calls_of callback new_calls) = subscriptions callback one_notification.
Proof.
  apply (removeNotification_filters_and_notifies 0 one_notification
           [notification_record 0 (VStr "saved") "info" 3000]).
  - by left.
  - reflexivity.
  - by repeat constructor.
Defined.

(** *** The event loop *)

Lemma setState_reclock updates t ts w :
  setState updates (reclock t ts w)
  = ((setState updates w).1, reclock t ts (setState updates w).2).
Proof. by rewrite !setState_run. Qed.

Lemma removeNotification_reclock id t ts w :
  removeNotification id (reclock t ts w)
  = ((removeNotification id w).1, reclock t ts (removeNotification id w).2).
Proof.
  unfold removeNotification, mbind, eff_bind, gets, lift, throw. cbn [state reclock set_now set_timers].
  destruct (field "notifications" (state w)); try done.
  destruct (filter_outcome _ _); [|done]. apply setState_reclock.
Qed.


Lemma reclock_reclock t ts t' ts' w : reclock t ts (reclock t' ts' w) = reclock t ts w.
Proof. reflexivity. Qed.

Lemma reclock_id w : reclock (now w) (timers w) w = w.
Proof. by destruct w. Qed.

Lemma run_timer_reclock cb t ts w :
  run_timer cb (reclock t ts w) = reclock t ts (run_timer cb w).
Proof.
  unfold run_timer. destruct cb as [id]. cbn [run_callback].
  rewrite removeNotification_reclock.
  by destruct (removeNotification id w) as [[[]|e] w'].
Qed.

Lemma run_timers_reclock l : ∀ t ts w,
  run_timers l (reclock t ts w) = reclock t ts (run_timers l w).
Proof.
  unfold run_timers. induction l as [|x l IH]; intros t ts w; cbn [foldl]; [done|].
  by rewrite run_timer_reclock, IH.
Qed.

Lemma run_timers_app l l' w : run_timers (l ++ l') w = run_timers l' (run_timers l w).
Proof. apply foldl_app. Qed.

Lemma fire_run t w :
  fire t w = reclock (Z.max (now w) (due t)) (timers w) (run_timer (callback t) w).
Proof.
  transitivity (run_timer (callback t) (reclock (Z.max (now w) (due t)) (timers w) w));
    [reflexivity | apply run_timer_reclock].
Qed.

Lemma fires_run l : ∀ w,
  ∃ t, foldl (λ w t, fire t w) w l = reclock t (timers w) (run_timers l w).
Proof.
  induction l as [|x l IH]; intros w; cbn [foldl].
  - exists (now w). by rewrite reclock_id.
  - rewrite fire_run.
    destruct (IH (reclock (Z.max (now w) (due x)) (timers w) (run_timer (callback x) w)))
      as [t Ht].
    exists t. rewrite Ht, run_timers_reclock. reflexivity.
Qed.

Lemma advance_run elapsed w :
  advance elapsed w
  = reclock (now w + elapsed)
            (filter (λ t, ¬ due t ≤ now w + elapsed) (timers w))
            (run_timers (by_due (filter (λ t, due t ≤ now w + elapsed) (timers w))) w).
Proof.
  unfold advance.
  destruct (fires_run (by_due (filter (λ t, due t ≤ now w + elapsed) (timers w)))
              (set_timers (filter (λ t, ¬ due t ≤ now w + elapsed) (timers w)) w))
    as [t Ht].
  rewrite Ht.
  change (set_timers (filter (λ t, ¬ due t ≤ now w + elapsed) (timers w)) w)
    with (reclock (now w) (filter (λ t, ¬ due t ≤ now w + elapsed) (timers w)) w).
  rewrite run_timers_reclock. reflexivity.
Qed.

(** When time passes, the timers that are due are gone from the pending
    timers, those due later stay pending in the order they were set, and
    the clock has moved by the time that passed. *)
Lemma advance_keeps_later_timers (elapsed : Z) (w : world) :
  timers (advance elapsed w) = filter (λ t, ¬ due t ≤ now w + elapsed) (timers w)
  ∧ now (advance elapsed w) = now w + elapsed
  ∧ Forall (λ t, now (advance elapsed w) < due t) (timers (advance elapsed w)).
Proof.
  rewrite advance_run. cbn. split_and!; try done.
  apply Forall_forall. intros t Ht. apply list_elem_of_filter in Ht as [Ht _]. lia.
Qed.

Lemma filter_all {A} (P : A → Prop) `{!∀ x, Decision (P x)} (xs : list A) :
  Forall P xs → filter P xs = xs.
Proof.
  induction 1 as [|x xs Hx _ IH]; [done|].
  rewrite filter_cons. destruct (decide (P x)); [by rewrite IH | done].
Qed.

Lemma timer_delay_ranges :
  (∀ d, 0 ≤ d < 2 ^ 31 → timer_delay d = d)
  ∧ (∀ d, 2 ^ 31 ≤ d < 2 ^ 32 → timer_delay d = 0)
  ∧ (∀ d, - 2 ^ 31 ≤ d < 0 → timer_delay d = 0).
Proof.
  unfold timer_delay, int32. split_and!; intros d Hd.
  - rewrite Z.mod_small by lia. lia.
  - replace (d + 2 ^ 31) with (d - 2 ^ 31 + 1 * 2 ^ 32) by lia.
    rewrite Z.mod_add by lia. rewrite Z.mod_small by lia. lia.
  - rewrite Z.mod_small by lia. lia.
Qed.

(** X9. A notification leaves the list when its duration has passed, and
    not before: on a store with no other timer pending, where no listed
    notification has the identifier the clock gives the new one, the record
    [addNotification] appends is listed as long as less time has passed
    than the delay of its timer, and gone from then on, with the other
    notifications as they were.  The delay is the duration as a browser
    takes it, wrapped to a signed 32-bit integer with a negative one
    counted as zero: the duration itself when it is at least zero and below
    [2^31] milliseconds, and zero (the notification is removed at once)
    when it is at least [2^31] and below [2^32], or negative and at least
    [-2^31]. *)
Theorem notification_leaves_after_its_duration
    (message : value) (type : option string) (duration : option Z)
    (w : world) (xs : list value) (elapsed : Z) :
  shipped w →
  timers w = [] →
  field "notifications" (state w) = VArr xs →
  Forall (λ n, readable n = true) xs →
  Forall (λ n, has_id (now w) n = false) xs →
  let record := notification_record (now w) message (default "info" type)
                                    (default 3000 duration) in
  let w' := advance elapsed (addNotification message type duration w).2 in
  (addNotification message type duration w).1 = Normal tt
  ∧ field "notifications" (state w')
    = VArr (if timer_delay (default 3000 duration) <=? elapsed
            then xs else xs ++ [record])
  ∧ (∀ d, 0 ≤ d < 2 ^ 31 → timer_delay d = d)
  ∧ (∀ d, 2 ^ 31 ≤ d < 2 ^ 32 → timer_delay d = 0)
  ∧ (∀ d, - 2 ^ 31 ≤ d < 0 → timer_delay d = 0).
Proof.
  intros Hs Hts Hxs Hread Hids record w'.
  set (updates := {[ "notifications" := VArr (xs ++ [record]) ]} : gmap string value).
  set (t := {| due := now w + timer_delay (default 3000 duration);
               callback := AutoRemove (now w) |}).
  assert (Hadd : addNotification message type duration w
                 = (Normal tt, reclock (now w) [t] (updated updates w))).
  { unfold addNotification, mbind, eff_bind, gets, lift. rewrite Hxs. cbn [spread].
    rewrite setState_run. unfold setTimeout, modify, reclock. cbn. by rewrite Hts. }
  assert (Hlisted : field "notifications" (state (updated updates w))
                    = VArr (xs ++ [record])).
  { pose proof (setState_shipped_field "notifications" (VArr (xs ++ [record])) w Hs
                  ltac:(done)) as H.
    by rewrite setState_run in H. }
  split; [by rewrite Hadd|]. split; [|apply timer_delay_ranges].
  subst w'. rewrite Hadd. cbn [snd]. rewrite advance_run.
  cbn [now timers reclock set_now set_timers state].
  rewrite !filter_cons, !filter_nil. cbn [due t].
  destruct (Z.leb_spec (timer_delay (default 3000 duration)) elapsed) as [Hdue|Hlater].
  - repeat case_decide; try lia.
    unfold by_due. cbn [reverse rev_append foldr insert_by_due].
    unfold run_timers. cbn [foldl callback t]. rewrite run_timer_reclock.
    cbn [reclock set_now set_timers state].
    unfold run_timer. cbn [run_callback].
    rewrite (removeNotification_run (now w) _ (xs ++ [record]) Hlisted).
    2:{ apply Forall_app. split; [done|]. by repeat constructor. }
    pose proof (setState_keeps_shipped updates w Hs) as Hs'.
    rewrite setState_run in Hs'. cbn [snd] in Hs'.
    pose proof (setState_shipped_field "notifications"
                  (VArr (filter (λ n, has_id (now w) n = false) (xs ++ [record])))
                  (updated updates w) Hs' ltac:(done)) as Hgone.
    rewrite setState_run in Hgone |- *. cbn [snd] in Hgone |- *.
    rewrite Hgone. f_equal. rewrite filter_app.
    rewrite (filter_all _ xs Hids).
    rewrite filter_cons, filter_nil. unfold has_id at 1. cbn.
    rewrite Z.eqb_refl. rewrite decide_False by done. apply app_nil_r.
  - repeat case_decide; try lia.
    unfold by_due, run_timers. cbn. exact Hlisted.
Qed.

Lemma notification_leaves_after_its_duration_witness :
  let w := production_store in
  let w' := advance 2999 (addNotification (VStr "saved") None None w).2 in
  (addNotification (VStr "saved") None None w).1 = Normal tt
  ∧ field "notifications" (state w')
    = VArr (if timer_delay (default 3000 None) <=? 2999
            then [] else [] ++ [notification_record (now w) (VStr "saved")
                                  (default "info" None) (default 3000 None)])
  ∧ (∀ d, 0 ≤ d < 2 ^ 31 → timer_delay d = d)
  ∧ (∀ d, 2 ^ 31 ≤ d < 2 ^ 32 → timer_delay d = 0)
  ∧ (∀ d, - 2 ^ 31 ≤ d < 0 → timer_delay d = 0).
Proof.
  apply (notification_leaves_after_its_duration (VStr "saved") None None
           production_store [] 2999).
  - by left.
  - reflexivity.
  - reflexivity.
  - constructor.
  - constructor.
Defined.

(** *** Sorting the due timers *)

Lemma by_due_snoc ts t : by_due (ts ++ [t]) = insert_by_due t (by_due ts).
Proof. unfold by_due. by rewrite reverse_snoc. Qed.

Lemma insert_by_due_low t low high :
  Forall (λ t', due t < due t') high →
  insert_by_due t (low ++ high) = insert_by_due t low ++ high.
Proof.
  intros Hhigh. induction low as [|x low IH]; cbn.
  - destruct Hhigh as [|y high Hy _]; [done|]. cbn.
    by rewrite (proj2 (Z.leb_gt _ _)) by lia.
  - destruct (due x <=? due t); [by rewrite IH | done].
Qed.

Lemma insert_by_due_high t low high :
  Forall (λ t', due t' ≤ due t) low →
  insert_by_due t (low ++ high) = low ++ insert_by_due t high.
Proof.
  induction 1 as [|x low Hx _ IH]; cbn; [done|].
  by rewrite (proj2 (Z.leb_le _ _)) by lia; rewrite IH.
Qed.

Lemma Forall_insert_by_due (P : timer → Prop) t sorted :
  P t → Forall P sorted → Forall P (insert_by_due t sorted).
Proof.
  intros Ht. induction 1 as [|x l Hx Hl IH]; cbn; [by constructor|].
  destruct (due x <=? due t); by repeat constructor.
Qed.

Lemma Forall_by_due (P : timer → Prop) ts : Forall P ts → Forall P (by_due ts).
Proof.
  induction ts as [|t ts IH] using rev_ind; [done|].
  rewrite Forall_app, by_due_snoc. intros [Hts Ht].
  apply Forall_insert_by_due; [by inversion Ht | auto].
Qed.

Lemma by_due_split T1 T2 ts :
  T1 ≤ T2 →
  by_due (filter (λ t, due t ≤ T2) ts)
  = by_due (filter (λ t, due t ≤ T1) ts)
    ++ by_due (filter (λ t, due t ≤ T2) (filter (λ t, ¬ due t ≤ T1) ts)).
Proof.
  intros HT. induction ts as [|t ts IH] using rev_ind; [done|].
  rewrite !filter_app, !filter_cons, !filter_nil.
  destruct (decide (due t ≤ T1)) as [H1|H1].
  - rewrite decide_True by lia. rewrite (decide_False (P := ¬ _)) by tauto.
    rewrite !by_due_snoc, app_nil_r, IH.
    apply insert_by_due_low. apply Forall_by_due, Forall_forall.
    intros x Hx. apply list_elem_of_filter in Hx as [_ Hx].
    apply list_elem_of_filter in Hx as [Hx _]. lia.
  - rewrite (decide_True (P := ¬ _)) by done. rewrite app_nil_r.
    destruct (decide (due t ≤ T2)) as [H2|H2].
    + rewrite filter_cons, decide_True by done. rewrite filter_nil.
      rewrite !by_due_snoc, IH.
      apply insert_by_due_high. apply Forall_by_due, Forall_forall.
      intros x Hx. apply list_elem_of_filter in Hx as [Hx _]. lia.
    + rewrite filter_cons, decide_False by done. by rewrite filter_nil, !app_nil_r.
Qed.

(** Letting time pass in two steps is letting it pass in one: the same
    timers fire, in the same order, and leave the same world. *)
Lemma advance_twice (a b : Z) (w : world) :
  0 ≤ a → 0 ≤ b →
  advance b (advance a w) = advance (a + b) w.
Proof.
  intros Ha Hb. rewrite (advance_run b), (advance_run (a + b)).
  rewrite (advance_run a). cbn [reclock set_now set_timers now timers].
  rewrite run_timers_reclock, reclock_reclock.
  rewrite <- run_timers_app.
  replace (now w + a + b) with (now w + (a + b)) by lia.
  rewrite <- (by_due_split (now w + a) (now w + (a + b))) by lia.
  f_equal. rewrite list_filter_filter. apply list_filter_iff. intros t. lia.
Qed.

(** *** Restoring a stored object *)

Lemma restore_keys_object fields keys :
  restore_keys (VObj fields) keys = Normal (restored fields keys).
Proof.
  unfold restore_keys, restored.
  generalize (∅ : gmap string value) as m.
  induction keys as [|key keys IH]; intros m; cbn [foldl]; [done|].
  cbn [get_prop]. destruct (obj_get key fields) eqn:E; cbn [is_undefined]; apply IH.
Qed.

Lemma restored_lookup fields keys key :
  restored fields keys !! key
  = if bool_decide (key ∈ keys) && negb (is_undefined (obj_get key fields))
    then Some (obj_get key fields) else None.
Proof.
  unfold restored. induction keys as [|k keys IH] using rev_ind; [done|].
  rewrite foldl_app. cbn [foldl].
  destruct (decide (key = k)) as [->|Hne].
  - rewrite (bool_decide_eq_true_2 (k ∈ keys ++ [k]))
      by (rewrite elem_of_app, list_elem_of_singleton; auto).
    cbn [andb].
    destruct (is_undefined (obj_get k fields)) eqn:E; cbn [negb].
    + rewrite IH. cbn. by rewrite andb_false_r.
    + by rewrite lookup_insert_eq.
  - assert (Hin : bool_decide (key ∈ keys ++ [k]) = bool_decide (key ∈ keys)).
    { apply bool_decide_ext. rewrite elem_of_app, list_elem_of_singleton. tauto. }
    rewrite Hin. destruct (is_undefined (obj_get k fields)); [done|].
    by rewrite lookup_insert_ne.
Qed.

Lemma validated_restored fields keys key :
  validated (restored fields keys) !! key
  = if bool_decide (key ∈ keys) && negb (is_undefined (obj_get key fields))
       && negb (String.eqb key "currentSection" && truthy (obj_get key fields)
                && negb (is_string (obj_get key fields)))
    then Some (obj_get key fields) else None.
Proof.
  unfold validated, field. rewrite restored_lookup.
  destruct (String.eqb_spec key "currentSection") as [->|Hne].
  - destruct (bool_decide ("currentSection" ∈ keys)
              && negb (is_undefined (obj_get "currentSection" fields))) eqn:Hsection;
      cbn [default]; unfold id.
    + destruct (truthy (obj_get "currentSection" fields)),
               (is_string (obj_get "currentSection" fields)); cbn [andb negb];
        rewrite ?lookup_delete_eq, ?restored_lookup, ?Hsection; done.
    + cbn [truthy andb]. by rewrite restored_lookup, Hsection.
  - cbn [andb negb]. rewrite andb_true_r.
    destruct (truthy _ && negb _); rewrite ?lookup_delete_ne by done;
      by rewrite restored_lookup.
Qed.

(** X10. On a shipped store, when the stored text is a JSON object,
    [restore(keys)] returns and writes into the document the keys asked for
    that the object defines, a key stored as [null] included, but for the
    section the validation middleware of a development host drops (one
    that is truthy and no string); every other key of the document keeps
    its value.  The keys asked for are none of the names of
    [Object.prototype], the text has no [\u] escape, and what it gives the
    keys has only integers a double holds exactly and no object key that
    starts with a digit. *)
Theorem restore_writes_only_the_keys
    (keys : list string) (w : world) (text : string) (fields : list (string * value)) :
  shipped w →
  localStorage w !! "appState" = Some text →
  JSON_parse text = Normal (VObj fields) →
  has_unicode_escape text = false →
  Forall (λ key, (key ∉ Object_prototype) ∧ exactly_read (obj_get key fields) = true) keys →
  (restore (Some keys) w).1 = Normal tt
  ∧ ∀ key, field key (state (restore (Some keys) w).2)
           = if bool_decide (key ∈ keys) && negb (is_undefined (obj_get key fields))
                && negb (rejected w key (obj_get key fields))
             then obj_get key fields else field key (state w).
Proof.
  intros Hs Hstored Hparse _ _.
  assert (Hne : text ≠ EmptyString) by (intros ->; discriminate).
  assert (Hrun : restore (Some keys) w = setState (restored fields keys) w).
  { unfold restore, try_catch, restore_try, mbind, eff_bind, gets, lift. cbn [default].
    rewrite Hstored. cbn [truthy]. apply String.eqb_neq in Hne as ->. cbn [negb].
    rewrite Hparse, restore_keys_object. unfold id. by rewrite setState_run. }
  rewrite Hrun, setState_run. split; [done|]. intros key. cbn [snd updated after state].
  rewrite (final_partial_shipped _ _ _ Hs). unfold field, rejected.
  destruct (decide (middlewares w = [])) as [Hnone|Hsome]; rewrite lookup_union.
  - rewrite Hnone, restored_lookup. cbn [negb]. rewrite andb_true_r.
    destruct (_ && _); by destruct (state w !! key).
  - destruct Hs as [Hs|Hs]; [done|]. rewrite Hs, validated_restored.
    destruct (_ && _); by destruct (state w !! key).
Qed.

Lemma restore_writes_only_the_keys_witness :
  (restore (Some ["currentSection"; "user"]) development_store).1 = Normal tt
  ∧ ∀ key,
      field key (state (restore (Some ["currentSection"; "user"]) development_store).2)
      = if bool_decide (key ∈ ["currentSection"; "user"])
           && negb (is_undefined
                      (obj_get key [("currentSection", VNum 7);
                                    ("user", VObj [("name", VStr "Ann")])]))
           && negb (rejected development_store key
                      (obj_get key [("currentSection", VNum 7);
                                    ("user", VObj [("name", VStr "Ann")])]))
        then obj_get key [("currentSection", VNum 7);
                          ("user", VObj [("name", VStr "Ann")])]
        else field key (state development_store).
Proof.
  apply (restore_writes_only_the_keys ["currentSection"; "user"]
           development_store numbered_section_text
           [("currentSection", VNum 7); ("user", VObj [("name", VStr "Ann")])]).
  - by right.
  - reflexivity.
  - reflexivity.
  - reflexivity.
  - assert (Hnames : ∀ key, key = "currentSection" ∨ key = "user" →
                            key ∉ Object_prototype).
    { intros key Hkey H. unfold Object_prototype in H.
      repeat (apply elem_of_cons in H as [H|H]; [destruct Hkey; congruence|]).
      by apply elem_of_nil in H. }
    repeat (apply Forall_cons; split; [split; [apply Hnames; auto | reflexivity]|]).
    by apply Forall_nil.
Defined.

End AppStateOpsFacts.

Module ValidatorFacts.

Import Regex FormManager FormManagerOps.

Lemma append_nil_inv (a b : string) :
  a +:+ b = EmptyString → a = EmptyString ∧ b = EmptyString.
Proof. destruct a; [done | discriminate]. Qed.

Lemma append_cons_inv (a b : string) c s :
  a +:+ b = String c s →
  (a = EmptyString ∧ b = String c s) ∨ (∃ a', a = String c a' ∧ s = a' +:+ b).
Proof.
  destruct a as [|c' a']; cbn; [by left|].
  intros [= -> <-]. right. eauto.
Qed.

Lemma nullable_matches r : nullable r = true ↔ matches r EmptyString.
Proof.
  induction r as [| |p|r1 IH1 r2 IH2|r1 IH1 r2 IH2|r IH]; cbn.
  - split; intros H; [done | inversion H].
  - split; intros H; [constructor | done].
  - split; intros H; [done | inversion H].
  - rewrite andb_true_iff, IH1, IH2. split.
    + intros [H1 H2]. change EmptyString with (EmptyString +:+ EmptyString).
      by constructor.
    + intros H. inversion H as [| |? ? a b Ha Hb Heq| | | |]; subst.
      match goal with Hab : _ +:+ _ = EmptyString |- _ =>
        apply append_nil_inv in Hab as [-> ->] end.
      done.
  - rewrite orb_true_iff, IH1, IH2. split.
    + intros [H|H]; [by apply matches_alt_l | by apply matches_alt_r].
    + intros H. inversion H; subst; auto.
  - split; intros H; [constructor | done].
Qed.

Lemma matches_star_inv r c s :
  matches (Star r) (String c s) →
  ∃ a b, s = a +:+ b ∧ matches r (String c a) ∧ matches (Star r) b.
Proof.
  intros H. remember (Star r) as sr eqn:Hsr. remember (String c s) as x eqn:Hx.
  induction H as [| | | | | |r' a b Ha _ Hb IHb]; try discriminate.
  injection Hsr as ->.
  apply append_cons_inv in Hx as [[-> ->]|(a' & -> & ->)]; [by apply IHb|].
  eauto.
Qed.

Lemma deriv_matches c r : ∀ s, matches (deriv c r) s ↔ matches r (String c s).
Proof.
  induction r as [| |p|r1 IH1 r2 IH2|r1 IH1 r2 IH2|r IH]; intros s; cbn.
  - split; intros H; inversion H.
  - split; intros H; inversion H.
  - destruct (p c) eqn:Hp; split; intros H; inversion H; subst.
    + by constructor.
    + constructor.
    + congruence.
  - split.
    + destruct (nullable r1) eqn:Hn; intros H.
      * inversion H as [| | |? ? ? H'|? ? ? H'| |]; subst.
        -- inversion H'; subst.
           change (String c (?a +:+ ?b)) with (String c a +:+ b).
           constructor; [by apply IH1 | done].
        -- change (String c s) with (EmptyString +:+ String c s).
           constructor; [by apply nullable_matches | by apply IH2].
      * inversion H; subst.
        change (String c (?a +:+ ?b)) with (String c a +:+ b).
        constructor; [by apply IH1 | done].
    + intros H. inversion H as [| |? ? a b Ha Hb Heq| | | |]; subst.
      match goal with Hab : _ +:+ _ = String c s |- _ =>
        apply append_cons_inv in Hab as [[-> ->]|(a' & -> & ->)] end.
      * apply nullable_matches in Ha. rewrite Ha.
        apply matches_alt_r. by apply IH2.
      * destruct (nullable r1).
        -- apply matches_alt_l. constructor; [by apply IH1 | done].
        -- constructor; [by apply IH1 | done].
  - split; intros H; inversion H; subst;
      [apply matches_alt_l; by apply IH1 | apply matches_alt_r; by apply IH2
      | apply matches_alt_l; by apply IH1 | apply matches_alt_r; by apply IH2].
  - split.
    + intros H. inversion H; subst.
      change (String c (?a +:+ ?b)) with (String c a +:+ b).
      constructor; [by apply IH | done].
    + intros H. apply matches_star_inv in H as (a & b & -> & Ha & Hb).
      constructor; [by apply IH | done].
Qed.

(** The matcher by derivatives decides the language of the expression. *)
Lemma test_matches s : ∀ r, test r s = true ↔ matches r s.
Proof.
  induction s as [|c s IH]; intros r; cbn.
  - apply nullable_matches.
  - rewrite IH. apply deriv_matches.
Qed.

Lemma matches_star_class p s :
  matches (Star (Class p)) s ↔ Forall (λ c, p c = true) (list_ascii_of_string s).
Proof.
  split.
  - intros H. remember (Star (Class p)) as sr eqn:Hsr.
    induction H as [| | | | | |r a b Ha _ Hb IHb]; try discriminate; [constructor|].
    injection Hsr as ->. inversion Ha; subst. cbn. constructor; [done | by apply IHb].
  - induction s as [|c s IH]; cbn; intros H; [constructor|].
    inversion H; subst.
    change (String c s) with (String c EmptyString +:+ s).
    constructor; [by constructor | by apply IH].
Qed.

Lemma matches_plus_class p s :
  matches (Plus (Class p)) s
  ↔ s ≠ EmptyString ∧ Forall (λ c, p c = true) (list_ascii_of_string s).
Proof.
  unfold Plus. split.
  - intros H. inversion H as [| |? ? a b Ha Hb Heq| | | |]; subst.
    inversion Ha; subst. cbn. split; [done|].
    constructor; [done | by apply matches_star_class].
  - intros [Hne H]. destruct s as [|c s]; [done|]. cbn in H. inversion H; subst.
    change (String c s) with (String c EmptyString +:+ s).
    constructor; [by constructor | by apply matches_star_class].
Qed.

Lemma matches_chr c s : matches (Chr c) s ↔ s = String c EmptyString.
Proof.
  unfold Chr. split.
  - intros H. inversion H; subst. f_equal. symmetry. by apply Ascii.eqb_eq.
  - intros ->. constructor. apply Ascii.eqb_refl.
Qed.

Lemma matches_cat r1 r2 s :
  matches (Cat r1 r2) s ↔ ∃ a b, s = a +:+ b ∧ matches r1 a ∧ matches r2 b.
Proof.
  split.
  - intros H. inversion H; subst. eauto.
  - intros (a & b & -> & Ha & Hb). by constructor.
Qed.

Lemma matches_emailRegex s :
  matches emailRegex s
  ↔ ∃ a b c, s = a +:+ "@" +:+ b +:+ "." +:+ c ∧ word a ∧ word b ∧ word c.
Proof.
  unfold emailRegex, word.
  change (λ c : ascii, negb (is_space c || Ascii.eqb c "@")) with word_char.
  split.
  - intros H.
    apply matches_cat in H as (a & s1 & -> & Ha & H).
    apply matches_cat in H as (at_ & s2 & -> & Hat & H).
    apply matches_cat in H as (b & s3 & -> & Hb & H).
    apply matches_cat in H as (dot & c & -> & Hdot & Hc).
    apply matches_chr in Hat as ->. apply matches_chr in Hdot as ->.
    apply matches_plus_class in Ha, Hb, Hc. by exists a, b, c.
  - intros (a & b & c & -> & Ha & Hb & Hc).
    apply matches_plus_class in Ha, Hb, Hc.
    apply matches_cat. exists a, ("@" +:+ b +:+ "." +:+ c). split_and!; [done..|].
    apply matches_cat. exists "@"%string, (b +:+ "." +:+ c). split_and!;
      [done | by apply matches_chr |].
    apply matches_cat. exists b, ("." +:+ c). split_and!; [done..|].
    apply matches_cat. exists "."%string, c. split_and!; [done | by apply matches_chr | done].
Qed.

Lemma trim_start_empty s : trim_start s = EmptyString ↔ all_space s = true.
Proof.
  induction s as [|c s IH]; cbn; [done|].
  destruct (is_space c); cbn; [done|]. split; discriminate.
Qed.

Lemma all_space_trim_start s : all_space (trim_start s) = all_space s.
Proof.
  induction s as [|c s IH]; cbn; [done|].
  destruct (is_space c) eqn:E; cbn; [done|]. by rewrite E.
Qed.

Lemma trim_end_empty s : trim_end s = EmptyString ↔ all_space s = true.
Proof.
  destruct s as [|c s]; cbn; [done|].
  destruct (is_space c && all_space s); split; done.
Qed.

Lemma trim_empty s : trim s = EmptyString ↔ all_space s = true.
Proof. unfold trim. by rewrite trim_end_empty, all_space_trim_start. Qed.

Lemma all_space_Forall s :
  all_space s = true ↔ Forall (λ c, is_space c = true) (list_ascii_of_string s).
Proof.
  induction s as [|c s IH]; cbn; [by split; [constructor|]|].
  rewrite andb_true_iff, Forall_cons. by rewrite IH.
Qed.

(** X11. [required] passes a value exactly when it holds a character that
    is not white space; a value of white space only gets the same message as
    an empty one. *)
Theorem required_wants_a_visible_character (value : string) (el : Element) :
  required value el
  = Normal (if all_space value then VMessage "This field is required" else VTrue)
  ∧ (all_space value = false
     ↔ ∃ c, c ∈ list_ascii_of_string value ∧ is_space c = false).
Proof.
  split.
  - unfold required, or_message, is_empty.
    destruct (all_space value) eqn:Hs.
    + apply trim_empty in Hs. rewrite Hs. cbn. by rewrite andb_false_r.
    + destruct (String.eqb_spec value EmptyString) as [->|_]; [done|].
      destruct (String.eqb_spec (trim value) EmptyString) as [Ht|_]; [|done].
      apply trim_empty in Ht. congruence.
  - rewrite <- not_true_iff_false, all_space_Forall, <- Exists_Forall_neg
      by (intros c; destruct (is_space c); [by left | right; discriminate]).
    rewrite Exists_exists. split; intros (c & Hc & Hs); exists c; split; try done.
    + by destruct (is_space c).
    + by rewrite Hs.
Qed.

(** X12. The [email] validator and [utils.isValidEmail] test the same
    expression, which holds of the addresses [local@domain.tld] whose three
    parts are non-empty and free of white space and at signs; they differ on
    the empty string, which the validator accepts and the utility rejects. *)
Theorem email_shape (value : string) (el : Element) :
  (isValidEmail value = true
   ↔ ∃ a b c, value = a +:+ "@" +:+ b +:+ "." +:+ c ∧ word a ∧ word b ∧ word c)
  ∧ email value el
    = Normal (if is_empty value || isValidEmail value then VTrue
              else VMessage "Please enter a valid email address")
  ∧ isValidEmail EmptyString = false.
Proof.
  split_and!; [|by unfold email, isValidEmail, or_message; destruct (is_empty value),
                  (test emailRegex value) | done].
  unfold isValidEmail. rewrite test_matches. apply matches_emailRegex.
Qed.

Lemma matches_atleast_class p n : ∀ s,
  matches (AtLeast n (Class p)) s
  ↔ (n ≤ String.length s)%nat ∧ Forall (λ c, p c = true) (list_ascii_of_string s).
Proof.
  induction n as [|n IH]; intros s; cbn [AtLeast].
  - rewrite matches_star_class. split; [intros H; split; [lia | done] | by intros [_ H]].
  - rewrite matches_cat. split.
    + intros (a & b & -> & Ha & Hb). inversion Ha; subst. apply IH in Hb as [Hn Hb].
      change (String c EmptyString +:+ b) with (String c b).
      cbn. split; [lia | by constructor].
    + intros [Hn H]. destruct s as [|c s]; cbn in Hn; [lia|].
      cbn in H. apply Forall_cons in H as [Hc H].
      exists (String c EmptyString), s. split_and!; [done | by constructor |].
      apply IH. split; [lia | done].
Qed.

Lemma matches_opt_chr c s :
  matches (Opt (Chr c)) s ↔ s = EmptyString ∨ s = String c EmptyString.
Proof.
  unfold Opt. split.
  - intros H. inversion H; subst.
    + right. by apply matches_chr.
    + left. match goal with H' : matches Eps _ |- _ => by inversion H' end.
  - intros [->| ->]; [apply matches_alt_r; constructor | apply matches_alt_l; by apply matches_chr].
Qed.

(** X13. The [phone] validator accepts the empty string and the values that
    are, after an optional plus sign, ten or more characters among digits,
    white space, hyphens and parentheses; so ten spaces pass, and a number
    of nine digits does not. *)
Theorem phone_shape (value : string) (el : Element) :
  (phone value el = Normal VTrue
   ∨ phone value el = Normal (VMessage "Please enter a valid phone number"))
  ∧ (phone value el = Normal VTrue
     ↔ value = EmptyString
       ∨ ∃ sign rest,
           value = sign +:+ rest ∧ (sign = EmptyString ∨ sign = "+")
           ∧ (10 ≤ String.length rest)%nat
           ∧ Forall (λ c, phone_char c = true) (list_ascii_of_string rest))
  ∧ phone "          " el = Normal VTrue
  ∧ phone "123456789" el ≠ Normal VTrue.
Proof.
  split_and!; [| |done|done].
  - unfold phone, or_message. destruct (is_empty value), (test phoneRegex value); auto.
  - assert (Hshape : test phoneRegex value = true
                     ↔ ∃ sign rest,
                         value = sign +:+ rest ∧ (sign = EmptyString ∨ sign = "+")
                         ∧ (10 ≤ String.length rest)%nat
                         ∧ Forall (λ c, phone_char c = true) (list_ascii_of_string rest)).
    { rewrite test_matches. unfold phoneRegex. rewrite matches_cat.
      split; intros (sign & rest & -> & Hsign & Hrest); exists sign, rest.
      - apply matches_opt_chr in Hsign. apply matches_atleast_class in Hrest. tauto.
      - split; [done|]. split; [by apply matches_opt_chr|].
        by apply matches_atleast_class. }
    unfold phone, or_message, is_empty.
    destruct (String.eqb_spec value EmptyString) as [->|Hne]; [tauto|].
    rewrite <- Hshape. destruct (test phoneRegex value); split; try done; auto.
    intros [?|?]; done.
Qed.

End ValidatorFacts.

Module FormManagerOpsFacts.

Import FormManager FormManagerFacts FormManagerOps.

(** *** The map of fields *)

Lemma map_get_set_ne {A} key key' (a : A) m :
  key ≠ key' → map_get key' (map_set key a m) = map_get key' m.
Proof.
  intros Hne. induction m as [|[k a'] m IH]; cbn.
  - destruct (String.eqb_spec key key'); [done|done].
  - destruct (String.eqb_spec k key) as [->|Hk]; cbn.
    + destruct (String.eqb_spec key key'); done.
    + by rewrite IH.
Qed.

Lemma map_set_keys {A} key (a : A) m :
  is_Some (map_get key m) → (map_set key a m).*1 = m.*1.
Proof.
  induction m as [|[k a'] m IH]; cbn; [by intros [? ?]|].
  destruct (String.eqb_spec k key) as [->|Hk]; cbn; [done|].
  intros H. by rewrite IH.
Qed.



Lemma map_get_elem {A} key (a : A) m :
  NoDup m.*1 → (key, a) ∈ m → map_get key m = Some a.
Proof.
  induction m as [|[k a'] m IH]; cbn; intros Hnd Hin; [by apply elem_of_nil in Hin|].
  apply NoDup_cons in Hnd as [Hk Hnd]. apply elem_of_cons in Hin as [[= <- <-]|Hin].
  - by rewrite String.eqb_refl.
  - destruct (String.eqb_spec k key) as [->|Hne]; [|by apply IH].
    exfalso. apply Hk. apply list_elem_of_fmap. by exists (key, a).
Qed.

Lemma find_store_field_ne formId fieldName name f w :
  fieldName ≠ name →
  find_field formId name (store_field formId fieldName f w) = find_field formId name w.
Proof.
  intros Hne. unfold find_field, store_field.
  destruct (forms w !! formId) as [config|] eqn:Hc; cbn; [|by rewrite Hc].
  rewrite lookup_insert_eq. cbn. by apply map_get_set_ne.
Qed.

Lemma find_store_field_other formId formId' fieldName name f w :
  formId ≠ formId' →
  find_field formId' name (store_field formId fieldName f w) = find_field formId' name w.
Proof.
  intros Hne. unfold find_field, store_field.
  destruct (forms w !! formId) as [config|] eqn:Hc; cbn; [|done].
  by rewrite lookup_insert_ne.
Qed.

Lemma names_store_field formId fieldName f w :
  is_Some (find_field formId fieldName w) →
  names_of formId (store_field formId fieldName f w) = names_of formId w.
Proof.
  unfold names_of, find_field, store_field.
  destruct (forms w !! formId) as [config|] eqn:Hc; cbn; [|by intros [? ?]].
  intros H. rewrite lookup_insert_eq. cbn. by rewrite map_set_keys.
Qed.

Lemma find_field_names formId name w config :
  forms w !! formId = Some config →
  find_field formId name w = map_get name (fields config).
Proof. intros Hc. unfold find_field. by rewrite Hc. Qed.

(** *** Validation *)

Lemma validateField_run formId name w field errs :
  find_field formId name w = Some field →
  verdicts field = Normal errs →
  ∃ w', validateField formId name w = (Normal (bool_decide (errs = [])), w')
    ∧ find_field formId name w' = Some (validated_field field)
    ∧ (∀ name', name ≠ name' → find_field formId name' w' = find_field formId name' w)
    ∧ names_of formId w' = names_of formId w
    ∧ errorMessage w' = match errs with
                        | first :: _ => <[el_parent (element field) := first]> (errorMessage w)
                        | [] => delete (el_parent (element field)) (errorMessage w)
                        end.
Proof.
  intros Hfield Herrs. unfold validateField. run. rewrite Hfield.
  unfold verdicts in Herrs. rewrite Herrs. cbn.
  assert (Hvalid : bool_decide (List.length errs = 0%nat) = bool_decide (errs = [])).
  { apply bool_decide_ext. by destruct errs. }
  assert (Hv : validated_field field
               = {| element := with_classList
                                 (mark (bool_decide (errs = [])) (el_classList (element field)))
                                 (element field);
                    validators := validators field;
                    isValid := bool_decide (errs = []); errors := errs |}).
  { unfold validated_field, field_errors, verdicts. by rewrite Herrs, Hvalid. }
  rewrite Hvalid, Hv. unfold updateFieldUI.
  pose proof (find_field_form _ _ _ _ Hfield) as Hform.
  destruct errs as [|first rest]; run; eexists; (split; [reflexivity|]);
    (split_and!;
     [ by rewrite find_store_field
     | by intros name' Hne; rewrite find_store_field_ne
     | by rewrite names_store_field by (unfold find_field in *; cbn; rewrite Hfield; eauto)
     | by rewrite errorMessage_store_field ]).
Qed.

Lemma field_errors_normal field errs : verdicts field = Normal errs → field_errors field = errs.
Proof. unfold field_errors. by intros ->. Qed.

Lemma validate_fields_run formId : ∀ fs valid errs w,
  NoDup fs.*1 →
  Forall (λ nf, find_field formId nf.1 w = Some nf.2
                ∧ ∃ errs, verdicts nf.2 = Normal errs) fs →
  ∃ errs' w',
    validate_fields formId fs.*1 valid errs w
    = (Normal (valid && forallb (λ nf, bool_decide (field_errors nf.2 = [])) fs, errs'), w')
    ∧ (∀ nf, nf ∈ fs → find_field formId nf.1 w' = Some (validated_field nf.2))
    ∧ (∀ name, name ∉ fs.*1 → find_field formId name w' = find_field formId name w)
    ∧ names_of formId w' = names_of formId w.
Proof.
  induction fs as [|[name field] fs IH]; intros valid errs w Hnd Hall; cbn [validate_fields fmap list_fmap].
  - run. eexists _, _. split; [by rewrite andb_true_r|].
    split_and!; [by intros ? ?%elem_of_nil | done | done].
  - apply NoDup_cons in Hnd as [Hname Hnd].
    apply Forall_cons in Hall as [[Hfield [errs0 Herrs0]] Hall]. cbn in Hfield, Herrs0.
    destruct (validateField_run formId name w field errs0 Hfield Herrs0)
      as (w1 & Hrun & Hf1 & Hother & Hnames & _).
    cbn [fst]. run. rewrite Hrun. cbn [forallb snd]. rewrite (field_errors_normal _ _ Herrs0).
    assert (Hall1 : Forall (λ nf, find_field formId nf.1 w1 = Some nf.2
                                  ∧ ∃ errs, verdicts nf.2 = Normal errs) fs).
    { rewrite Forall_forall in Hall |- *. intros [n f] Hin.
      destruct (Hall _ Hin) as [Hf He]. split; [|done]. cbn.
      rewrite Hother; [done|]. intros ->. apply Hname.
      apply list_elem_of_fmap. by exists (n, f). }
    destruct (bool_decide (errs0 = [])).
    + destruct (IH valid errs w1 Hnd Hall1) as (errs' & w' & Hrun' & Hin' & Hout' & Hnames').
      exists errs', w'. split; [by rewrite Hrun'|].
      split_and!.
      * intros nf [->|Hin]%elem_of_cons; [|by apply Hin'].
        cbn. by rewrite Hout'.
      * intros n [Hn Hn']%not_elem_of_cons. rewrite Hout' by done. by apply Hother.
      * congruence.
    + match goal with |- context [validate_fields formId _ false ?e] =>
        destruct (IH false e w1 Hnd Hall1) as (errs' & w' & Hrun' & Hin' & Hout' & Hnames')
      end.
      exists errs', w'. split; [by rewrite Hrun', andb_false_r|].
      split_and!.
      * intros nf [->|Hin]%elem_of_cons; [|by apply Hin'].
        cbn. by rewrite Hout'.
      * intros n [Hn Hn']%not_elem_of_cons. rewrite Hout' by done. by apply Hother.
      * congruence.
Qed.

Lemma validateForm_run
    (formId : string) (w : world) (config : FormConfig) :
  forms w !! formId = Some config →
  NoDup (fields config).*1 →
  Forall (λ nf, ∃ errs, verdicts nf.2 = Normal errs) (fields config) →
  ∃ w', validateForm formId w
        = (Normal (forallb (λ nf, bool_decide (field_errors nf.2 = [])) (fields config)), w')
    ∧ (∀ name field, (name, field) ∈ fields config →
         find_field formId name w' = Some (validated_field field))
    ∧ effects w' = effects w.
Proof.
  intros Hc Hnd Hall.
  assert (Hall' : Forall (λ nf, find_field formId nf.1 w = Some nf.2
                                ∧ ∃ errs, verdicts nf.2 = Normal errs) (fields config)).
  { rewrite Forall_forall in Hall |- *. intros [n f] Hin. split; [|by apply Hall].
    rewrite (find_field_names _ _ _ _ Hc). by apply map_get_elem. }
  destruct (validate_fields_run formId (fields config) true [] w Hnd Hall')
    as (errs' & w' & Hrun & Hin & _ & _).
  pose proof (validateForm_kept formId w) as [_ He].
  unfold validateForm in *. revert He. run. rewrite Hc. run. rewrite Hrun. cbn.
  intros He. eexists. split; [reflexivity|]. split; [|done].
  intros name field Hf. unfold find_field. cbn. exact (Hin (name, field) Hf).
Qed.


(** X14. [validateForm] validates every field of the form, also after one
    has failed, and the form is valid exactly when no validator of any field
    returned a message. *)
Theorem validateForm_checks_every_field
    (formId : string) (w : world) (config : FormConfig) :
  forms w !! formId = Some config →
  NoDup (fields config).*1 →
  Forall (λ nf, ∃ errs, verdicts nf.2 = Normal errs) (fields config) →
  ∃ w', validateForm formId w
        = (Normal (forallb (λ nf, bool_decide (field_errors nf.2 = [])) (fields config)), w')
    ∧ (∀ name field, (name, field) ∈ fields config →
         find_field formId name w' = Some (validated_field field))
    ∧ effects w' = effects w.
Proof.
  intros Hc Hnd Hall.
  assert (Hall' : Forall (λ nf, find_field formId nf.1 w = Some nf.2
                                ∧ ∃ errs, verdicts nf.2 = Normal errs) (fields config)).
  { rewrite Forall_forall in Hall |- *. intros [n f] Hin. split; [|by apply Hall].
    rewrite (find_field_names _ _ _ _ Hc). by apply map_get_elem. }
  destruct (validate_fields_run formId (fields config) true [] w Hnd Hall')
    as (errs' & w' & Hrun & Hin & _ & _).
  pose proof (validateForm_kept formId w) as [_ He].
  unfold validateForm in *. revert He. run. rewrite Hc. run. rewrite Hrun. cbn.
  intros He. eexists. split; [reflexivity|]. split; [|done].
  intros name field Hf. unfold find_field. cbn. exact (Hin (name, field) Hf).
Qed.

Lemma validateForm_checks_every_field_witness :
  forms contact_page_min3 !! "contact"
  = Some (contact_config (name_field EmptyString [required; minLength 3]))
  ∧ ∃ w', validateForm "contact" contact_page_min3 = (Normal false, w')
      ∧ (∀ name field,
           (name, field) ∈ [("name", name_field EmptyString [required; minLength 3])] →
           find_field "contact" name w' = Some (validated_field field))
      ∧ effects w' = effects contact_page_min3.
Proof.
  split; [reflexivity|].
  apply (validateForm_checks_every_field "contact" contact_page_min3
           (contact_config (name_field EmptyString [required; minLength 3]))).
  - reflexivity.
  - apply NoDup_singleton.
  - repeat constructor. by eexists.
Defined.

Lemma run_validators_prefix value el vs : ∀ acc errs,
  run_validators vs value el acc = Normal errs → ∃ rest, errs = acc ++ rest.
Proof.
  induction vs as [|v vs IH]; intros acc errs; cbn.
  - intros [= <-]. exists []. by rewrite app_nil_r.
  - destruct (v value el) as [[|message]|e]; [apply IH | | done].
    intros (rest & ->)%IH. exists (message :: rest). by rewrite <- app_assoc.
Qed.

(** X15. A required control that has been left blank fails with the message
    of [required], which is the one shown under it, whatever its other
    validators say: the validators taken from its attributes start with
    [required], and those added later come after. *)
Theorem blank_required_field_shows_required
    (RegExp_test : string → string → outcome bool)
    (formId name : string) (w : world) (field : Field)
    (added : list validator) (errs : list string) :
  find_field formId name w = Some field →
  validators field = getFieldValidators RegExp_test (element field) ++ added →
  el_required (element field) = true →
  all_space (el_value (element field)) = true →
  verdicts field = Normal errs →
  ∃ w', validateField formId name w = (Normal false, w')
    ∧ head errs = Some "This field is required"
    ∧ errors <$> find_field formId name w' = Some errs
    ∧ errorMessage w' !! el_parent (element field) = Some "This field is required".
Proof.
  intros Hfield Hvs Hreq Hblank Herrs.
  assert (Hhead : ∃ rest, errs = "This field is required" :: rest).
  { pose proof Herrs as Hrun. unfold verdicts in Hrun. rewrite Hvs in Hrun.
    unfold getFieldValidators in Hrun. rewrite Hreq in Hrun.
    cbn [app run_validators] in Hrun.
    assert (Hr : required (el_value (element field)) (element field)
                 = Normal (VMessage "This field is required")).
    { unfold required. apply ValidatorFacts.trim_empty in Hblank. rewrite Hblank.
      cbn. by rewrite andb_false_r. }
    rewrite Hr in Hrun. by apply run_validators_prefix in Hrun. }
  destruct Hhead as [rest ->].
  destruct (validateField_run formId name w field _ Hfield Herrs)
    as (w' & Hrun & Hf & _ & _ & Hm).
  exists w'. split_and!; [done | done | |].
  - rewrite Hf. cbn. unfold validated_field. cbn.
    by rewrite (field_errors_normal _ _ Herrs).
  - by rewrite Hm, lookup_insert_eq.
Qed.

Lemma blank_required_field_shows_required_witness :
  find_field "contact" "name" contact_page_min3
  = Some (name_field EmptyString [required; minLength 3])
  ∧ ∃ w', validateField "contact" "name" contact_page_min3 = (Normal false, w')
      ∧ head ["This field is required"; "Minimum length is 3 characters"]
        = Some "This field is required"
      ∧ errors <$> find_field "contact" "name" w'
        = Some ["This field is required"; "Minimum length is 3 characters"]
      ∧ errorMessage w' !! 0%nat = Some "This field is required".
Proof.
  split; [reflexivity|].
  apply (blank_required_field_shows_required no_pattern "contact" "name"
           contact_page_min3 (name_field EmptyString [required; minLength 3])
           [minLength 3]); reflexivity.
Defined.

(** *** Reading and writing the values *)










(** *** Reset *)








(** *** Registration *)

Lemma forEach_app {W A} (xs ys : list A) (f : A → eff W unit) w :
  forEach (xs ++ ys) f w
  = match forEach xs f w with
    | (Normal _, w') => forEach ys f w'
    | (Throw e, w') => (Throw e, w')
    end.
Proof.
  revert w. induction xs as [|x xs IH]; intros w; cbn [forEach app].
  - done.
  - unfold mbind, eff_bind. destruct (f x w) as [[[]|e] w1]; [apply IH | done].
Qed.









(** *** Submission *)

Lemma map_set_fmap_same {A B} (g : A → B) key a a' (m : list (string * A)) :
  map_get key m = Some a → g a' = g a →
  (λ entry, (entry.1, g entry.2)) <$> map_set key a' m
  = (λ entry, (entry.1, g entry.2)) <$> m.
Proof.
  intros Hget Hg. induction m as [|[k b] m IH]; cbn in *; [done|].
  destruct (String.eqb_spec k key) as [->|Hne]; cbn.
  - injection Hget as ->. by rewrite Hg.
  - by rewrite IH.
Qed.

Lemma form_data_store_field formId formId' name f f' w :
  find_field formId name w = Some f →
  el_value (element f') = el_value (element f) →
  form_data formId' (store_field formId name f' w) = form_data formId' w.
Proof.
  intros Hf Hv. unfold form_data, store_field, find_field in *.
  destruct (forms w !! formId) as [config|] eqn:Hc; cbn in *; [|done].
  destruct (decide (formId = formId')) as [<-|Hne].
  - rewrite lookup_insert_eq, Hc. cbn.
    by apply (map_set_fmap_same (λ f, el_value (element f)) _ f).
  - by rewrite lookup_insert_ne.
Qed.

Lemma form_data_validateField formId formId' name w :
  form_data formId' (validateField formId name w).2 = form_data formId' w.
Proof.
  unfold validateField. run. destruct (find_field formId name w) as [f|] eqn:Hf; [|done].
  cbn. destruct (run_validators _ _ _ _) as [errs|e]; [|done]. cbn.
  unfold updateFieldUI. destruct errs; run;
    by rewrite (form_data_store_field _ _ _ f).
Qed.

Lemma form_data_validate_fields formId formId' names : ∀ valid errs w,
  form_data formId' (validate_fields formId names valid errs w).2 = form_data formId' w.
Proof.
  induction names as [|name names IH]; intros valid errs w; cbn [validate_fields]; [done|].
  run. pose proof (form_data_validateField formId formId' name w) as Hv.
  destruct (validateField formId name w) as [[[]|e] w1]; cbn in *; [| |done].
  - by rewrite IH.
  - by rewrite IH.
Qed.

Lemma form_data_validateForm formId formId' w :
  form_data formId' (validateForm formId w).2 = form_data formId' w.
Proof.
  unfold validateForm. run. destruct (forms w !! formId) as [config|]; run; [|done].
  pose proof (form_data_validate_fields formId formId' (fields config).*1 true [] w) as Hv.
  by destruct (validate_fields _ _ _ _ w) as [[[valid errs]|e] w1].
Qed.

Lemma form_data_setFormLoading formId formId' loading w :
  form_data formId' (setFormLoading formId loading w).2 = form_data formId' w.
Proof.
  unfold setFormLoading. run. destruct (forms w !! formId) as [config|] eqn:Hc; run; [|done].
  cbn [appState set_forms].
  assert (form_data formId'
            (set_forms (<[formId:=with_submitBtn (set_button loading <$> submitBtn config) config]>
                          (forms w)) w) = form_data formId' w) as Hsame.
  { unfold form_data. cbn. destruct (decide (formId = formId')) as [<-|Hne].
    - by rewrite lookup_insert_eq, Hc.
    - by rewrite lookup_insert_ne. }
  by destruct (appState w).
Qed.



Lemma find_field_setFormLoading formId formId' name loading w :
  find_field formId' name (setFormLoading formId loading w).2 = find_field formId' name w.
Proof.
  unfold setFormLoading. run. destruct (forms w !! formId) as [config|] eqn:Hc; run; [|done].
  cbn [appState set_forms].
  assert (find_field formId' name
            (set_forms (<[formId:=with_submitBtn (set_button loading <$> submitBtn config) config]>
                          (forms w)) w) = find_field formId' name w) as Hsame.
  { unfold find_field. cbn. destruct (decide (formId = formId')) as [<-|Hne].
    - by rewrite lookup_insert_eq, Hc.
    - by rewrite lookup_insert_ne. }
  by destruct (appState w).
Qed.

(** X21. When a validator of some field returns a message, [handleSubmit]
    stops after the validation: the submit handler is not called, one error
    notification asks to fix the form, the promise resolves, every field
    carries the outcome of its validation and keeps the value it held, and
    the loading flag is set and cleared around it. *)
Theorem handleSubmit_invalid_form
    (formId : string) (w : world) (config : FormConfig) :
  forms w !! formId = Some config →
  NoDup (fields config).*1 →
  Forall (λ nf, ∃ errs, verdicts nf.2 = Normal errs) (fields config) →
  Exists (λ nf, field_errors nf.2 ≠ []) (fields config) →
  (handleSubmit formId w).1 = Normal tt
  ∧ effects (handleSubmit formId w).2
    = effects w ++ loading_effect w true
      ++ [ShowError (VStr "Please fix the errors in the form")]
      ++ loading_effect w false
  ∧ form_data formId (handleSubmit formId w).2 = form_data formId w
  ∧ ∀ name field, (name, field) ∈ fields config →
      find_field formId name (handleSubmit formId w).2 = Some (validated_field field).
Proof.
  intros Hc Hnd Hnormal Hfails.
  destruct (handleSubmit_run formId w config Hc)
    as (w1 & w2 & r & config2 & Hload & Hbody & _ & _ & Hrun & _ & He & He1).
  destruct (setFormLoading_run formId true w config Hc) as (w1' & Hload' & Hf1 & Ha1 & _).
  rewrite Hload in Hload'. injection Hload' as <-.
  assert (Hc1 : forms w1 !! formId
                = Some (with_submitBtn (set_button true <$> submitBtn config) config)).
  { by rewrite Hf1, lookup_insert_eq. }
  destruct (validateForm_run formId w1 _ Hc1 Hnd Hnormal) as (w3 & Hvalid & Hfields & He3).
  assert (Hfalse : forallb (λ nf : string * Field, bool_decide (field_errors nf.2 = []))
                     (fields config) = false).
  { apply not_true_iff_false. intros Hall. rewrite forallb_forall in Hall.
    apply Exists_exists in Hfails as (nf & Hin & Hne).
    apply list_elem_of_In in Hin. apply Hall in Hin. by apply bool_decide_eq_true in Hin. }
  cbn in Hvalid. rewrite Hfalse in Hvalid.
  unfold submit_body, submit_try in Hbody. revert Hbody. run. rewrite Hvalid. cbn.
  intros [= <- <-]. rewrite Hrun. cbn [fst snd]. split_and!.
  - done.
  - rewrite He. cbn. rewrite He3, He1. by rewrite <- !app_assoc.
  - rewrite form_data_setFormLoading.
    change (form_data formId (emit [ShowError (VStr "Please fix the errors in the form")] w3))
      with (form_data formId w3).
    replace w3 with (validateForm formId w1).2 by by rewrite Hvalid.
    rewrite form_data_validateForm.
    replace w1 with (setFormLoading formId true w).2 by by rewrite Hload.
    apply form_data_setFormLoading.
  - intros name field Hin. rewrite find_field_setFormLoading.
    exact (Hfields name field Hin).
Qed.

Lemma handleSubmit_invalid_form_witness :
  (handleSubmit "contact" contact_page_min3).1 = Normal tt
  ∧ effects (handleSubmit "contact" contact_page_min3).2
    = effects contact_page_min3 ++ loading_effect contact_page_min3 true
      ++ [ShowError (VStr "Please fix the errors in the form")]
      ++ loading_effect contact_page_min3 false
  ∧ form_data "contact" (handleSubmit "contact" contact_page_min3).2
    = form_data "contact" contact_page_min3
  ∧ ∀ name field,
      (name, field) ∈ [("name", name_field EmptyString [required; minLength 3])] →
      find_field "contact" name (handleSubmit "contact" contact_page_min3).2
      = Some (validated_field field).
Proof.
  apply (handleSubmit_invalid_form "contact" contact_page_min3
           (contact_config (name_field EmptyString [required; minLength 3]))).
  - reflexivity.
  - apply NoDup_singleton.
  - repeat constructor. by eexists.
  - apply Exists_cons_hd. discriminate.
Defined.

(** X22. The label of the submit button does not come back after a
    submission: [setFormLoading] records the original text only once the
    button already reads "Submitting...", so a button that had no recorded
    text keeps that label when it is enabled again, on every way out of
    [handleSubmit]. *)
Theorem handleSubmit_leaves_submitting_label
    (formId : string) (w : world) (config : FormConfig) (button : Button) :
  forms w !! formId = Some config →
  submitBtn config = Some button →
  originalText button = None →
  ∃ config', forms (handleSubmit formId w).2 !! formId = Some config'
    ∧ submitBtn config'
      = Some {| disabled := false; textContent := "Submitting...";
                originalText := Some "Submitting..." |}.
Proof.
  intros Hc Hb Hnone.
  destruct (handleSubmit_run formId w config Hc)
    as (w1 & w2 & r & config2 & _ & _ & _ & Hb2 & Hrun & Hf & _ & _).
  rewrite Hrun. cbn [snd]. eexists. split; [exact Hf|].
  cbn. rewrite Hb2, Hb. cbn. unfold set_button. cbn. by rewrite Hnone.
Qed.

Lemma handleSubmit_leaves_submitting_label_witness :
  ∃ config', forms (handleSubmit "contact" signed_page).2 !! "contact" = Some config'
    ∧ submitBtn config'
      = Some {| disabled := false; textContent := "Submitting...";
                originalText := Some "Submitting..." |}.
Proof.
  apply (handleSubmit_leaves_submitting_label "contact" signed_page
           (contact_config (name_field "Bob" [required]))
           {| disabled := false; textContent := "Send"; originalText := None |});
    reflexivity.
Defined.

(** After [destroy] no form is known to the manager: a submission does
    nothing at all (no validation, no call of a handler, no notification),
    [validateForm] answers false with an error on the console, and
    [validateField] answers true. *)
Lemma destroy_forgets_every_form (formId fieldName : string) (w : world) :
  let w' := (destroy w).2 in
  handleSubmit formId w' = (Normal tt, w')
  ∧ validateForm formId w'
    = (Normal false, print [(ErrorLevel, "Form config not found for: " +:+ formId)] w')
  ∧ validateField formId fieldName w' = (Normal true, w')
  ∧ getFormData formId w' = (Normal [], w')
  ∧ effects w' = effects w.
Proof. done. Qed.

End FormManagerOpsFacts.

Module DevServerFacts.

Import Server DevServer.

(** *** Letter case *)

Lemma lower_slash c : Ascii.eqb "/" (lower c) = Ascii.eqb "/" c.
Proof. by destruct c as [[] [] [] [] [] [] [] []]. Qed.

Lemma lower_dot c : Ascii.eqb "." (lower c) = Ascii.eqb "." c.
Proof. by destruct c as [[] [] [] [] [] [] [] []]. Qed.

Lemma lower_is_slash c : Ascii.eqb (lower c) "/" = Ascii.eqb c "/".
Proof. by destruct c as [[] [] [] [] [] [] [] []]. Qed.

Lemma lower_is_dot c : Ascii.eqb (lower c) "." = Ascii.eqb c ".".
Proof. by destruct c as [[] [] [] [] [] [] [] []]. Qed.

Lemma lower_lower c : lower (lower c) = lower c.
Proof. by destruct c as [[] [] [] [] [] [] [] []]. Qed.

Lemma toLowerCase_idemp s : toLowerCase (toLowerCase s) = toLowerCase s.
Proof.
  induction s as [|c s IH]; [done|]. cbn [toLowerCase]. by rewrite lower_lower, IH.
Qed.

Lemma existsb_lower sep s :
  (∀ c, Ascii.eqb sep (lower c) = Ascii.eqb sep c) →
  existsb (Ascii.eqb sep) (list_ascii_of_string (toLowerCase s))
  = existsb (Ascii.eqb sep) (list_ascii_of_string s).
Proof.
  intros H. induction s as [|c s IH]; [done|].
  cbn [existsb list_ascii_of_string toLowerCase]. by rewrite H, IH.
Qed.

Lemma forallb_lower s :
  forallb (Ascii.eqb "/") (list_ascii_of_string (toLowerCase s))
  = forallb (Ascii.eqb "/") (list_ascii_of_string s).
Proof.
  induction s as [|c s IH]; [done|].
  cbn [forallb list_ascii_of_string toLowerCase]. by rewrite lower_slash, IH.
Qed.

Lemma strip_trailing_slashes_lower s :
  strip_trailing_slashes (toLowerCase s) = toLowerCase (strip_trailing_slashes s).
Proof.
  induction s as [|c s IH]; [done|].
  cbn [strip_trailing_slashes toLowerCase].
  change (String (lower c) (toLowerCase s)) with (toLowerCase (String c s)).
  rewrite forallb_lower.
  destruct (forallb _ (list_ascii_of_string (String c s))); [done|].
  cbn. by rewrite IH.
Qed.

Lemma after_last_lower s :
  after_last "/" (toLowerCase s) = toLowerCase (after_last "/" s).
Proof.
  induction s as [|c s IH]; [done|]. cbn [after_last toLowerCase].
  rewrite (existsb_lower "/" s lower_slash), lower_is_slash.
  destruct (existsb _ _); [done|]. by destruct (Ascii.eqb c "/").
Qed.

Lemma from_last_dot_lower s : ∀ first,
  from_last_dot first (toLowerCase s) = toLowerCase (from_last_dot first s).
Proof.
  induction s as [|c s IH]; intros first; [done|]. cbn [from_last_dot toLowerCase].
  rewrite (existsb_lower "." s lower_dot), lower_is_dot.
  destruct (existsb _ _); [done|]. by destruct (Ascii.eqb c "." && negb first).
Qed.

Lemma toLowerCase_dots s :
  String.eqb (toLowerCase s) ".." = String.eqb s "..".
Proof.
  destruct s as [|c [|c' [|c'' s]]]; cbn; try done.
  - by rewrite lower_is_dot.
  - rewrite !lower_is_dot. by destruct (Ascii.eqb c "."), (Ascii.eqb c' ".").
  - rewrite !lower_is_dot. by destruct (Ascii.eqb c "."), (Ascii.eqb c' ".").
Qed.

Lemma extname_lower path : extname (toLowerCase path) = toLowerCase (extname path).
Proof.
  unfold extname.
  rewrite strip_trailing_slashes_lower, after_last_lower, toLowerCase_dots.
  destruct (String.eqb _ ".."); [done|]. apply from_last_dot_lower.
Qed.

(** X24. The MIME type the development server gives a file does not depend
    on the letter case of its path, and is [text/plain] or a type of the
    table; the MVC server compares the extension as it is written. *)
Theorem getMimeType_ignores_case (filePath : string) :
  getMimeType (toLowerCase filePath) = getMimeType filePath
  ∧ (getMimeType filePath = "text/plain"
     ∨ ∃ ext, (ext, getMimeType filePath) ∈ mimeTypes)
  ∧ getMimeType "/INDEX.HTML" = "text/html"
  ∧ table_get (extname "/INDEX.HTML") contentTypes = None.
Proof.
  split_and!; [| |done|done].
  - unfold getMimeType. by rewrite extname_lower, toLowerCase_idemp.
  - unfold getMimeType. generalize (toLowerCase (extname filePath)). intros ext.
    induction mimeTypes as [|[k v] table IH]; cbn; [by left|].
    destruct (String.eqb k ext).
    + right. exists k. apply list_elem_of_here.
    + destruct IH as [?|[ext' ?]]; [by left|]. right. exists ext'.
      by apply list_elem_of_further.
Qed.

(** *** Ports *)

Lemma find_port_spec (isPortAvailable : Z → outcome bool) remaining : ∀ port,
  match find_port isPortAvailable port remaining with
  | Normal found =>
      port ≤ found < port + Z.of_nat remaining
      ∧ isPortAvailable found = Normal true
      ∧ ∀ p, port ≤ p < found → isPortAvailable p = Normal false
  | Throw e =>
      (e = Error "No available ports found"
       ∧ ∀ p, port ≤ p < port + Z.of_nat remaining → isPortAvailable p = Normal false)
      ∨ ∃ failed, port ≤ failed < port + Z.of_nat remaining
                  ∧ isPortAvailable failed = Throw e
                  ∧ ∀ p, port ≤ p < failed → isPortAvailable p = Normal false
  end.
Proof.
  induction remaining as [|remaining IH]; intros port; cbn [find_port].
  - left. split; [done|]. intros p Hp. lia.
  - destruct (isPortAvailable port) as [[]|e] eqn:Hport.
    + split_and!; [lia | lia | done | intros p Hp; lia].
    + specialize (IH (port + 1)).
      assert (Hstep : ∀ bound, (∀ p, port + 1 ≤ p < bound → isPortAvailable p = Normal false)
                               → ∀ p, port ≤ p < bound → isPortAvailable p = Normal false).
      { intros bound H p Hp. destruct (decide (p = port)) as [->|]; [done|]. apply H. lia. }
      destruct (find_port isPortAvailable (port + 1) remaining) as [found|e].
      * destruct IH as (Hb & Hfound & Hbefore). split_and!; [lia | lia | done | by apply Hstep].
      * destruct IH as [[-> Hnone]|(failed & Hb & Hfailed & Hbefore)].
        -- left. split; [done|]. apply Hstep. intros p Hp. apply Hnone. lia.
        -- right. exists failed. split_and!; [lia | lia | done | by apply Hstep].
    + right. exists port. split_and!; [lia | lia | done | intros p Hp; lia].
Qed.

(** X25. [findAvailablePort(preferredPort)] gives the first port from the
    preferred one on that is available, among a hundred ports; it fails
    with "No available ports found" when none of the hundred is available,
    and with the exception of the first probe that throws otherwise; it
    never tries a port beyond the first that is available or throws. *)
Theorem findAvailablePort_first_of_a_hundred
    (isPortAvailable : Z → outcome bool) (preferredPort : Z) :
  match findAvailablePort isPortAvailable preferredPort with
  | Normal found =>
      preferredPort ≤ found < preferredPort + 100
      ∧ isPortAvailable found = Normal true
      ∧ ∀ p, preferredPort ≤ p < found → isPortAvailable p = Normal false
  | Throw e =>
      (e = Error "No available ports found"
       ∧ ∀ p, preferredPort ≤ p < preferredPort + 100 →
              isPortAvailable p = Normal false)
      ∨ ∃ failed, preferredPort ≤ failed < preferredPort + 100
                  ∧ isPortAvailable failed = Throw e
                  ∧ ∀ p, preferredPort ≤ p < failed → isPortAvailable p = Normal false
  end.
Proof. apply (find_port_spec isPortAvailable 100 preferredPort). Qed.

End DevServerFacts.

Module NotificationManagerFacts.

Import NotificationManager.

Ltac run :=
  unfold mbind, mret, eff_bind, eff_ret, gets, modify, JS.get, lift, throw;
  cbn [fst snd].

Lemma show_with_container message type duration w :
  is_Some (container w) →
  show message type duration w = (Normal tt, after_show message type duration w).
Proof.
  intros [c Hc]. destruct w as [found active clock pending out calls]. cbn in Hc. subst found.
  unfold show, clear, setTimeout, after_show. run. cbn. by rewrite <- app_assoc.
Qed.

Lemma show_run message type duration w :
  ∃ w', show message type duration w = (Normal tt, w')
    ∧ shows w' = shows w ++ [{| shown_message := message; shown_type := type;
                                shown_duration := duration |}]
    ∧ activeNotifications w' = activeNotifications w.
Proof.
  destruct (container w) as [c|] eqn:Hc.
  - rewrite show_with_container by (rewrite Hc; eauto). by eexists.
  - unfold show. run. cbn [container record_show]. rewrite Hc. run. by eexists.
Qed.

Lemma show_new_skip prevIds n w :
  id n ∈ prevIds ∨ id n ∈ activeNotifications w →
  show_new prevIds n w = (Normal tt, w).
Proof.
  intros H. unfold show_new. run.
  destruct (bool_decide_reflect (id n ∈ prevIds)); [done|].
  destruct (bool_decide_reflect (id n ∈ activeNotifications w)); [done|]. tauto.
Qed.

Lemma show_new_show prevIds n w :
  id n ∉ prevIds → id n ∉ activeNotifications w →
  ∃ w1, show_new prevIds n w = (Normal tt, w1)
    ∧ shows w1 = shows w ++ [show_of n]
    ∧ activeNotifications w1 = {[ id n ]} ∪ activeNotifications w.
Proof.
  intros Hprev Hactive. unfold show_new. run.
  rewrite (bool_decide_eq_false_2 _ Hprev), (bool_decide_eq_false_2 _ Hactive). cbn.
  destruct (show_run (message n) (Some (type n)) (Some (duration n)) w)
    as (w1 & Hshow & Hshows1 & Hact1).
  rewrite Hshow. eexists. split; [reflexivity|]. cbn. by rewrite Hact1.
Qed.

Lemma show_new_loop (prevIds : list Z) : ∀ ns w,
  ∃ shown w',
    forEach ns (show_new prevIds) w = (Normal tt, w')
    ∧ shows w' = shows w ++ (show_of <$> shown)
    ∧ sublist shown ns
    ∧ NoDup (id <$> shown)
    ∧ (∀ i, i ∈ id <$> shown
            ↔ i ∈ id <$> ns ∧ (i ∉ prevIds) ∧ (i ∉ activeNotifications w))
    ∧ (∀ i, i ∈ activeNotifications w'
            ↔ i ∈ id <$> shown ∨ i ∈ activeNotifications w).
Proof.
  induction ns as [|n ns IH]; intros w; cbn [forEach].
  - run. exists [], w. split_and!; try done.
    + by rewrite app_nil_r.
    + constructor.
    + intros i. cbn. rewrite elem_of_nil. tauto.
    + intros i. cbn. rewrite elem_of_nil. tauto.
  - unfold mbind, eff_bind.
    destruct (decide (id n ∈ prevIds ∨ id n ∈ activeNotifications w)) as [Hskip|Hshow].
    + rewrite (show_new_skip _ _ _ Hskip).
      destruct (IH w) as (shown & w' & Hrun & Hshows & Hsub & Hnd & Hids & Hact).
      exists shown, w'. split_and!; try done.
      * by apply sublist_cons.
      * intros i. rewrite Hids. cbn. rewrite elem_of_cons. split; [tauto|].
        intros ([->|?] & ? & ?); tauto.
    + destruct (show_new_show prevIds n w) as (w1 & Hstep & Hshows1 & Hact1); [tauto..|].
      rewrite Hstep.
      destruct (IH w1) as (shown & w' & Hrun & Hshows & Hsub & Hnd & Hids & Hact).
      assert (Hnew : ∀ i, i ∈ activeNotifications w1
                          ↔ i = id n ∨ i ∈ activeNotifications w).
      { intros i. by rewrite Hact1, elem_of_union, elem_of_singleton. }
      exists (n :: shown), w'. split_and!.
      * done.
      * rewrite Hshows, Hshows1. cbn. by rewrite <- app_assoc.
      * by apply sublist_skip.
      * cbn. apply NoDup_cons. split; [|done].
        rewrite Hids, Hnew. tauto.
      * intros i. cbn. rewrite !elem_of_cons, Hids, Hnew.
        destruct (decide (i = id n)) as [->|Hne]; tauto.
      * intros i. rewrite Hact, Hnew. cbn. rewrite elem_of_cons. tauto.
Qed.

Lemma forget_old_loop (currentIds : list Z) : ∀ ids w,
  ∃ w',
    forEach ids (forget_old currentIds) w = (Normal tt, w')
    ∧ shows w' = shows w
    ∧ ∀ i, i ∈ activeNotifications w'
           ↔ i ∈ activeNotifications w ∧ ¬ (i ∈ ids ∧ (i ∉ currentIds)).
Proof.
  induction ids as [|j ids IH]; intros w; cbn [forEach].
  - run. exists w. split_and!; try done. intros i. rewrite elem_of_nil. tauto.
  - unfold mbind, eff_bind, forget_old at 1, modify, mret, eff_ret.
    destruct (bool_decide (j ∈ currentIds)) eqn:Hj; cbn [negb].
    + destruct (IH w) as (w' & Hrun & Hshows & Hact). exists w'. split_and!; try done.
      intros i. rewrite Hact, elem_of_cons. apply bool_decide_eq_true in Hj.
      split; [|tauto]. intros [? Hn]. split; [done|]. intros [[->|?] ?]; tauto.
    + match goal with |- context [forEach ids _ ?w1] =>
        destruct (IH w1) as (w' & Hrun & Hshows & Hact) end.
      exists w'. split_and!; try done.
      intros i. rewrite Hact, elem_of_cons. cbn. apply bool_decide_eq_false in Hj.
      rewrite elem_of_difference, elem_of_singleton.
      destruct (decide (i = j)) as [->|Hne]; tauto.
Qed.

(** X26. [handleNotifications] calls [show] once for each identifier of the
    list that is neither in the previous list nor active, in the order of
    the list, and for no other notification: of several notifications with
    one identifier one is shown, and a notification whose identifier was
    already listed is not shown at all.  Afterwards the active identifiers
    are the old ones and the shown ones, less those that left the list. *)
Theorem handleNotifications_shows_each_new_identifier
    (notifications : list Notification)
    (prevNotifications : option (list Notification)) (w : world) :
  let prevIds := id <$> default [] prevNotifications in
  ∃ shown w',
    handleNotifications notifications prevNotifications w = (Normal tt, w')
    ∧ shows w' = shows w ++ (show_of <$> shown)
    ∧ sublist shown notifications
    ∧ NoDup (id <$> shown)
    ∧ (∀ i, i ∈ id <$> shown
            ↔ i ∈ id <$> notifications ∧ (i ∉ prevIds) ∧ (i ∉ activeNotifications w))
    ∧ (∀ i, i ∈ activeNotifications w'
            ↔ (i ∈ id <$> shown ∨ i ∈ activeNotifications w)
              ∧ ¬ (i ∈ prevIds ∧ (i ∉ id <$> notifications))).
Proof.
  intros prevIds. unfold handleNotifications. fold prevIds.
  destruct (show_new_loop prevIds notifications w)
    as (shown & w1 & Hrun1 & Hshows1 & Hsub & Hnd & Hids & Hact1).
  destruct (forget_old_loop (id <$> notifications) prevIds w1)
    as (w' & Hrun2 & Hshows2 & Hact2).
  exists shown, w'. split_and!; try done.
  - unfold mbind, eff_bind. by rewrite Hrun1.
  - congruence.
  - intros i. rewrite Hact2, Hact1. tauto.
Qed.

(** *** Timers *)

Lemma timer_delay_small d : 0 ≤ d < 2 ^ 31 → AppState.timer_delay d = d.
Proof.
  intros Hd. unfold AppState.timer_delay, AppState.int32.
  rewrite Z.mod_small by lia. lia.
Qed.

Lemma not_show_in_cleared classes :
  "show" ∉ classList_remove ["show"; "success"; "error"; "warning"; "info"] classes.
Proof.
  unfold classList_remove. intros [H _]%list_elem_of_filter. apply H.
  apply list_elem_of_here.
Qed.

Lemma show_in_added classes : "show" ∈ classList_add "show" classes.
Proof.
  unfold classList_add. destruct (bool_decide_reflect ("show" ∈ classes)); [done|].
  apply elem_of_app. right. apply list_elem_of_here.
Qed.

Lemma not_show_in_hidden classes : "show" ∉ classList_remove ["show"] classes.
Proof.
  unfold classList_remove. intros [H _]%list_elem_of_filter. apply H.
  apply list_elem_of_here.
Qed.

(** X27. A notification can be cut short by the one before it: [show] sets a
    timer to hide the element and nothing ever cancels it.  If a second
    notification is shown while the first is still up, the timer of the
    first hides the second when the time of the first is over, long before
    its own time has passed; its text stays in the hidden element. *)
Theorem earlier_timer_hides_later_notification
    (w : world) (element : Container)
    (first second : string) (type type' : option string)
    (duration duration' wait : Z) :
  container w = Some element →
  timers w = [] →
  10 ≤ wait →
  wait + 10 < duration < 2 ^ 31 →
  duration < wait + duration' →
  duration' < 2 ^ 31 →
  let w1 := advance wait (show first type (Some duration) w).2 in
  let w2 := (show second type' (Some duration') w1).2 in
  let w3 := advance (duration - wait) w2 in
  visible w1 = true
  ∧ visible (advance 10 w2) = true
  ∧ now w3 = now w + duration
  ∧ visible w3 = false
  ∧ textContent <$> container w3 = Some second
  ∧ timers w3 = [{| due := now w + wait + duration'; callback := Hide |}].
Proof.
  intros Hc Hts Hwait Hd Hlate Hd'.
  destruct w as [found active clock pending out calls]. cbn in Hc, Hts. subst found pending.
  cbn zeta. rewrite show_with_container by (cbn; eauto). cbn [snd].
  set (w0 := {| container := Some element; activeNotifications := active; now := clock;
                timers := []; console := out; shows := calls |}).
  assert (E1 : advance wait (after_show first type (Some duration) w0)
               = {| container := Some {| textContent := first;
                                         classList := classList_add "show"
                                           (tokens ("notification " +:+ default "info" type)) |};
                    activeNotifications := active; now := clock + wait;
                    timers := [{| due := clock + duration; callback := Hide |}];
                    console := out;
                    shows := calls ++ [{| shown_message := first; shown_type := type;
                                          shown_duration := Some duration |}] |}).
  { unfold advance, after_show, w0. cbn [now timers default app]. unfold Datatypes.id.
    rewrite (timer_delay_small duration) by lia.
    change (AppState.timer_delay 10) with 10.
    rewrite !filter_cons, !filter_nil. cbn [due].
    repeat case_decide; try lia.
    unfold by_due. cbn. unfold fire. cbn. reflexivity. }
  rewrite E1. clear E1.
  set (w1 := {| container := Some {| textContent := first;
                                     classList := classList_add "show"
                                       (tokens ("notification " +:+ default "info" type)) |};
                activeNotifications := active; now := clock + wait;
                timers := [{| due := clock + duration; callback := Hide |}];
                console := out;
                shows := calls ++ [{| shown_message := first; shown_type := type;
                                      shown_duration := Some duration |}] |}).
  rewrite (show_with_container second type' (Some duration') w1) by (cbn; eauto).
  cbn [snd].
  assert (Hdelay : AppState.timer_delay duration' = duration').
  { apply timer_delay_small. lia. }
  split_and!.
  - unfold visible, w1. cbn. apply bool_decide_eq_true. apply show_in_added.
  - unfold advance, after_show, w1. cbn [now timers default app]. unfold Datatypes.id.
    rewrite Hdelay. change (AppState.timer_delay 10) with 10.
    rewrite !filter_cons, !filter_nil. cbn [due].
    repeat case_decide; try lia.
    unfold by_due. cbn. unfold fire, visible. cbn.
    apply bool_decide_eq_true. apply show_in_added.
  - unfold advance. cbn. lia.
  - unfold advance, after_show, w1. cbn [now timers default app]. unfold Datatypes.id.
    rewrite Hdelay. change (AppState.timer_delay 10) with 10.
    rewrite !filter_cons, !filter_nil. cbn [due].
    repeat case_decide; try lia.
    unfold by_due. cbn [reverse rev_append foldr insert_by_due due].
    destruct (Z.leb_spec (clock + duration) (clock + wait + 10)); [lia|].
    cbn [foldl]. unfold fire, visible. cbn.
    apply bool_decide_eq_false. apply not_show_in_hidden.
  - unfold advance, after_show, w1. cbn [now timers default app]. unfold Datatypes.id.
    rewrite Hdelay. change (AppState.timer_delay 10) with 10.
    rewrite !filter_cons, !filter_nil. cbn [due].
    repeat case_decide; try lia.
    unfold by_due. cbn [reverse rev_append foldr insert_by_due due].
    destruct (Z.leb_spec (clock + duration) (clock + wait + 10)); [lia|].
    done.
  - unfold advance, after_show, w1. cbn [now timers default app]. unfold Datatypes.id.
    rewrite Hdelay. change (AppState.timer_delay 10) with 10.
    rewrite !filter_cons, !filter_nil. cbn [due].
    repeat case_decide; try lia.
    unfold by_due. cbn [reverse rev_append foldr insert_by_due due].
    destruct (Z.leb_spec (clock + duration) (clock + wait + 10)); [lia|].
    done.
Qed.



Lemma earlier_timer_hides_later_notification_witness :
  let w := new_NotificationManager (Some empty_container) 0 in
  let w1 := advance 2000 (show "saved" None (Some 3000) w).2 in
  let w2 := (show "failed" (Some "error") (Some 5000) w1).2 in
  let w3 := advance (3000 - 2000) w2 in
  visible w1 = true
  ∧ visible (advance 10 w2) = true
  ∧ now w3 = now w + 3000
  ∧ visible w3 = false
  ∧ textContent <$> container w3 = Some "failed"
  ∧ timers w3 = [{| due := now w + 2000 + 5000; callback := Hide |}].
Proof.
  apply (earlier_timer_hides_later_notification
           (new_NotificationManager (Some empty_container) 0) empty_container
           "saved" "failed" None (Some "error") 3000 5000 2000);
    first [reflexivity | lia].
Defined.

End NotificationManagerFacts.

Module NotificationFeedFacts.

Import NotificationManager NotificationFeed NotificationManagerFacts.

Lemma deliver_app callback es es' w :
  deliver callback (es ++ es') w
  = match deliver callback es w with
    | Some (Normal _, w') => deliver callback es' w'
    | other => other
    end.
Proof.
  revert w. induction es as [|[m p u|cb new p] es IH]; intros w; cbn [deliver app].
  - done.
  - apply IH.
  - destruct (bool_decide (cb = callback)); [|apply IH].
    destruct (on_state new p) as [run|]; [|done].
    destruct (run w) as [[[]|e] w']; [apply IH | done].
Qed.

Lemma deliver_middleware_calls callback ms prev w : ∀ pending,
  deliver callback (AppState.middleware_calls ms prev pending) w = Some (Normal tt, w).
Proof. induction ms as [|m ms IH]; intros pending; cbn; [done | apply IH]. Qed.

Lemma deliver_others callback subs new prev w :
  filter (λ sub, sub = callback) subs = [] →
  deliver callback (AppState.subscriber_calls subs new prev) w = Some (Normal tt, w).
Proof.
  unfold AppState.subscriber_calls.
  induction subs as [|sub subs IH]; [done|]. rewrite filter_cons.
  destruct (decide (sub = callback)) as [->|Hne]; [done|]. cbn.
  rewrite bool_decide_eq_false_2 by done. apply IH.
Qed.

Lemma deliver_once callback subs new prev run w w' :
  List.length (filter (λ sub, sub = callback) subs) = 1%nat →
  on_state new prev = Some run →
  run w = (Normal tt, w') →
  deliver callback (AppState.subscriber_calls subs new prev) w = Some (Normal tt, w').
Proof.
  intros Hone Hon Hrun. revert Hone. unfold AppState.subscriber_calls.
  induction subs as [|sub subs IH]; [done|]. rewrite filter_cons.
  destruct (decide (sub = callback)) as [->|Hne]; cbn.
  - intros [= Hnone]. apply length_zero_iff_nil in Hnone.
    rewrite bool_decide_eq_true_2 by done. rewrite Hon, Hrun.
    by apply deliver_others.
  - intros Hone. rewrite bool_decide_eq_false_2 by done. by apply IH.
Qed.

Lemma show_new_listed prevIds : ∀ ns w,
  Forall (λ n, id n ∈ prevIds) ns →
  forEach ns (show_new prevIds) w = (Normal tt, w).
Proof.
  induction ns as [|n ns IH]; intros w H; cbn [forEach]; [done|].
  apply Forall_cons in H as [Hn H]. unfold mbind, eff_bind.
  rewrite show_new_skip by auto. by apply IH.
Qed.

(** X28. The manager shows a notification that is added through the store
    unless its identifier is the identifier of a notification that is still
    listed or active: since the identifier is the reading of the clock, a
    notification added in the same millisecond as one that is still listed
    is never shown. *)
Theorem added_notification_reaches_the_manager
    (callback : AppState.fn_ref) (w : AppState.world) (manager : world)
    (text : string) (type : option string) (duration : option Z)
    (xs : list value) (ns : list Notification) :
  AppStateOps.shipped w →
  AppStateOps.subscriptions callback w = 1%nat →
  AppState.field "notifications" (AppState.state w) = VArr xs →
  mapM to_notification xs = Some ns →
  let added := {| id := AppState.now w; message := text;
                  type := default "info" type;
                  duration := default 3000 duration |} in
  ∃ w' new_calls manager',
    AppState.addNotification (VStr text) type duration w = (Normal tt, w')
    ∧ AppState.calls w' = AppState.calls w ++ new_calls
    ∧ deliver callback new_calls manager = Some (Normal tt, manager')
    ∧ shows manager'
      = shows manager
        ++ (if bool_decide (AppState.now w ∈ id <$> ns)
               || bool_decide (AppState.now w ∈ activeNotifications manager)
            then [] else [show_of added]).
Proof.
  intros Hs Hone Hxs Hns added.
  set (record := AppState.notification_record (AppState.now w) (VStr text)
                   (default "info" type) (default 3000 duration)).
  set (updates := {[ "notifications" := VArr (xs ++ [record]) ]} : gmap string value).
  assert (Hadd : AppState.addNotification (VStr text) type duration w
                 = (Normal tt,
                    (AppState.setTimeout (AppState.AutoRemove (AppState.now w))
                       (default 3000 duration) (AppState.updated updates w)).2)).
  { unfold AppState.addNotification, mbind, eff_bind, gets, lift.
    rewrite Hxs. cbn [AppState.spread]. by rewrite AppStateFacts.setState_run. }
  pose proof (AppStateOpsFacts.setState_shipped_field "notifications"
                (VArr (xs ++ [record])) w Hs ltac:(done)) as Hnew.
  rewrite AppStateFacts.setState_run in Hnew. cbn [snd] in Hnew. fold updates in Hnew.
  set (new := AppState.state (AppState.updated updates w)) in *.
  assert (Hon : on_state new (AppState.state w)
                = Some (handleNotifications (ns ++ [added]) (Some ns))).
  { unfold on_state, notifications_of. rewrite Hnew, Hxs.
    assert (mapM to_notification (xs ++ [record]) = Some (ns ++ [added])) as ->.
    { apply mapM_Some. apply Forall2_app; [by apply mapM_Some|]. by repeat constructor. }
    by rewrite Hns. }
  destruct (show_new_loop (id <$> ns) [added] manager) as (shown & m1 & Hrun1 & _).
  assert (Hfirst : ∃ m1, forEach (ns ++ [added]) (show_new (id <$> ns)) manager
                         = (Normal tt, m1)
                    ∧ shows m1
                      = shows manager
                        ++ (if bool_decide (AppState.now w ∈ id <$> ns)
                               || bool_decide (AppState.now w ∈ activeNotifications manager)
                            then [] else [show_of added])).
  { rewrite FormManagerOpsFacts.forEach_app, show_new_listed.
    2:{ apply Forall_forall. intros n Hn. apply list_elem_of_fmap. eauto. }
    cbn [forEach]. unfold mbind, eff_bind, mret, eff_ret.
    destruct (bool_decide_reflect (AppState.now w ∈ id <$> ns)) as [Hin|Hout]; cbn [orb].
    { rewrite show_new_skip by (by left). eexists. split; [done|]. by rewrite app_nil_r. }
    destruct (bool_decide_reflect (AppState.now w ∈ activeNotifications manager))
      as [Hin|Hout'].
    { rewrite show_new_skip by (by right). eexists. split; [done|]. by rewrite app_nil_r. }
    destruct (show_new_show (id <$> ns) added manager Hout Hout') as (m2 & Hstep & Hshows & _).
    rewrite Hstep. eauto. }
  clear shown m1 Hrun1. destruct Hfirst as (m1 & Hrun1 & Hshows1).
  destruct (forget_old_loop (id <$> (ns ++ [added])) (id <$> ns) m1)
    as (m2 & Hrun2 & Hshows2 & _).
  exists (AppState.setTimeout (AppState.AutoRemove (AppState.now w))
            (default 3000 duration) (AppState.updated updates w)).2.
  eexists. exists m2. split_and!.
  - exact Hadd.
  - cbn. reflexivity.
  - rewrite deliver_app, deliver_middleware_calls.
    apply (deliver_once _ _ _ _ _ _ _ Hone Hon).
    unfold handleNotifications, mbind, eff_bind. cbn [default]. unfold Datatypes.id.
    by rewrite Hrun1.
  - congruence.
Qed.

Lemma added_notification_reaches_the_manager_witness :
  AppState.now listed_store = 0
  ∧ ∃ w' new_calls manager',
      AppState.addNotification (VStr "second") None None listed_store = (Normal tt, w')
      ∧ AppState.calls w' = AppState.calls listed_store ++ new_calls
      ∧ deliver 7%nat new_calls (new_NotificationManager (Some empty_container) 0)
        = Some (Normal tt, manager')
      ∧ shows manager'
        = shows (new_NotificationManager (Some empty_container) 0)
          ++ (if bool_decide (AppState.now listed_store
                              ∈ id <$> [{| id := 0; message := "first"; type := "info";
                                           duration := 3000 |}])
                 || bool_decide (AppState.now listed_store
                                 ∈ activeNotifications
                                     (new_NotificationManager (Some empty_container) 0))
              then []
              else [show_of {| id := AppState.now listed_store; message := "second";
                               type := default "info" None;
                               duration := default 3000 None |}]).
Proof.
  split; [reflexivity|].
  apply (added_notification_reaches_the_manager 7%nat listed_store
           (new_NotificationManager (Some empty_container) 0) "second" None None
           [AppState.notification_record 0 (VStr "first") "info" 3000]
           [{| id := 0; message := "first"; type := "info"; duration := 3000 |}]).
  - by left.
  - reflexivity.
  - reflexivity.
  - reflexivity.
Defined.

End NotificationFeedFacts.

Module CounterFacts.

Import Counter.

Lemma click_run w :
  incrementButton w = [HandleIncrement] →
  click w = (Normal tt, {| count := add_one (count w);
                           countElement := pretty (add_one (count w));
                           incrementButton := [HandleIncrement] |}).
Proof.
  intros Hb. unfold click, mbind, eff_bind, gets. rewrite Hb. cbn [forEach run_listener].
  unfold handleIncrement, increment, getCount, render, mbind, eff_bind, gets, modify, mret,
    eff_ret.
  cbn. by rewrite Hb.
Qed.

Lemma clicks_run n : ∀ w,
  incrementButton w = [HandleIncrement] →
  0 ≤ count w ≤ 2 ^ 53 →
  countElement w = pretty (count w) →
  ∃ w', clicks n w = (Normal tt, w')
    ∧ count w' = Z.min (count w + Z.of_nat n) (2 ^ 53)
    ∧ countElement w' = pretty (count w')
    ∧ incrementButton w' = [HandleIncrement].
Proof.
  induction n as [|n IH]; intros w Hb Hc Ht; cbn [clicks].
  - exists w. split_and!; try done. lia.
  - unfold mbind, eff_bind. rewrite click_run by done.
    match goal with |- context [clicks n ?w1] =>
      destruct (IH w1) as (w' & Hrun & Hcount & Htext & Hb')
    end; cbn [count countElement incrementButton]; try done.
    { unfold add_one. destruct (Z.ltb_spec (count w) (2 ^ 53)); lia. }
    exists w'. split_and!; try done.
    rewrite Hcount. cbn [count]. unfold add_one.
    destruct (Z.ltb_spec (count w) (2 ^ 53)); lia.
Qed.

(** X29. After any number of clicks the page shows the count of the model,
    which is the number of clicks: the controller renders after every
    increment, and it renders the zero of a new model when it is made.
    (Past [2^53] clicks a JavaScript number would stay where it is.) *)
Theorem counter_shows_the_number_of_clicks (text : string) (n : nat) :
  ∃ w', clicks n (new_CounterController text) = (Normal tt, w')
    ∧ count w' = Z.min (Z.of_nat n) (2 ^ 53)
    ∧ countElement w' = pretty (count w').
Proof.
  assert (Hb : incrementButton (new_CounterController text) = [HandleIncrement]) by done.
  assert (Hc : 0 ≤ count (new_CounterController text) ≤ 2 ^ 53).
  { change (count (new_CounterController text)) with 0. lia. }
  assert (Ht : countElement (new_CounterController text)
               = pretty (count (new_CounterController text))) by done.
  destruct (clicks_run n _ Hb Hc Ht) as (w' & Hrun & Hcount & Htext & _).
  exists w'. by rewrite Hcount in *.
Qed.

End CounterFacts.

Module NotifyFacts.

Import Notify.

Lemma addNotification_listed message type duration w xs :
  AppStateOps.shipped w →
  AppState.field "notifications" (AppState.state w) = VArr xs →
  ∃ w', AppState.addNotification message type duration w = (Normal tt, w')
    ∧ AppState.field "notifications" (AppState.state w')
      = VArr (xs ++ [AppState.notification_record (AppState.now w) message
                       (default "info" type) (default 3000 duration)])
    ∧ AppState.timers w'
      = AppState.timers w
        ++ [{| AppState.due := AppState.now w
                               + AppState.timer_delay (default 3000 duration);
               AppState.callback := AppState.AutoRemove (AppState.now w) |}].
Proof.
  intros Hs Hxs.
  unfold AppState.addNotification, mbind, eff_bind, gets, lift. rewrite Hxs.
  cbn [AppState.spread]. rewrite AppStateFacts.setState_run.
  unfold AppState.setTimeout, modify. eexists. split; [reflexivity|]. split; [|done].
  pose proof (AppStateOpsFacts.setState_shipped_field "notifications"
                (VArr (xs ++ [AppState.notification_record (AppState.now w) message
                                (default "info" type) (default 3000 duration)]))
                w Hs ltac:(done)) as H.
  by rewrite AppStateFacts.setState_run in H.
Qed.

(** X30. On a page with a store, [showError(message, duration)] lists an
    error notification that lasts five seconds when no duration, or a
    duration of zero, is given, and the given duration otherwise, while
    [showSuccess(message, duration)] takes a zero as it is (the
    notification is removed at once) and lasts three seconds without a
    duration; the notification manager is not called directly and nothing
    is printed. *)
Theorem showError_lasts_five_seconds
    (toUpperCase : string → string) (message : string) (duration : option Z)
    (store : AppState.world) (xs : list value)
    (manager : option NotificationManager.world) (out : list console_entry) :
  AppStateOps.shipped store →
  AppState.field "notifications" (AppState.state store) = VArr xs →
  let p := {| appState := Some store; notificationManager := manager; console := out |} in
  let listed (type : string) (lasting : Z) (p' : page) :=
    ∃ store', appState p' = Some store'
      ∧ AppState.field "notifications" (AppState.state store')
        = VArr (xs ++ [AppState.notification_record (AppState.now store)
                         (VStr message) type lasting])
      ∧ AppState.timers store'
        = AppState.timers store
          ++ [{| AppState.due := AppState.now store + AppState.timer_delay lasting;
                 AppState.callback := AppState.AutoRemove (AppState.now store) |}]
      ∧ notificationManager p' = manager ∧ console p' = out in
  (showError toUpperCase message duration p).1 = Normal tt
  ∧ listed "error"
      (match duration with Some d => if d =? 0 then 5000 else d | None => 5000 end)
      (showError toUpperCase message duration p).2
  ∧ (showSuccess toUpperCase message duration p).1 = Normal tt
  ∧ listed "success" (default 3000 duration)
      (showSuccess toUpperCase message duration p).2.
Proof.
  intros Hs Hxs p listed.
  destruct (addNotification_listed (VStr message)
              (Some (default "info" (Some "error")))
              (Some (default 3000 (Some (or_five_seconds duration)))) store xs Hs Hxs)
    as (w1 & Hrun1 & Hlist1 & Htimer1).
  destruct (addNotification_listed (VStr message)
              (Some (default "info" (Some "success")))
              (Some (default 3000 duration)) store xs Hs Hxs)
    as (w2 & Hrun2 & Hlist2 & Htimer2).
  unfold showError, showSuccess, showNotification, listed, p.
  cbn [appState]. rewrite Hrun1, Hrun2. cbn [fst snd appState notificationManager console].
  split_and!; try done.
  - exists w1. by split_and!.
  - exists w2. by split_and!.
Qed.

Lemma showError_lasts_five_seconds_witness :
  let p := page_of AppStateOps.production_store in
  (showError id "Please fix the errors in the form" (Some 0) p).1 = Normal tt
  ∧ (∃ store', appState (showError id "Please fix the errors in the form" (Some 0) p).2
               = Some store'
       ∧ AppState.field "notifications" (AppState.state store')
         = VArr ([] ++ [AppState.notification_record 0
                          (VStr "Please fix the errors in the form") "error" 5000])
       ∧ AppState.timers store'
         = [] ++ [{| AppState.due := 0 + AppState.timer_delay 5000;
                     AppState.callback := AppState.AutoRemove 0 |}]
       ∧ notificationManager (showError id "Please fix the errors in the form" (Some 0) p).2
         = None
       ∧ console (showError id "Please fix the errors in the form" (Some 0) p).2 = [])
  ∧ (showSuccess id "Please fix the errors in the form" (Some 0) p).1 = Normal tt
  ∧ (∃ store', appState (showSuccess id "Please fix the errors in the form" (Some 0) p).2
               = Some store'
       ∧ AppState.field "notifications" (AppState.state store')
         = VArr ([] ++ [AppState.notification_record 0
                          (VStr "Please fix the errors in the form") "success" 0])
       ∧ AppState.timers store'
         = [] ++ [{| AppState.due := 0 + AppState.timer_delay 0;
                     AppState.callback := AppState.AutoRemove 0 |}]
       ∧ notificationManager (showSuccess id "Please fix the errors in the form" (Some 0) p).2
         = None
       ∧ console (showSuccess id "Please fix the errors in the form" (Some 0) p).2 = []).
Proof.
  apply (showError_lasts_five_seconds id "Please fix the errors in the form" (Some 0)
           AppStateOps.production_store [] None []).
  - by left.
  - reflexivity.
Defined.

End NotifyFacts.
